(** * gempy.plot.visualization_2d: the 2D plotting front-end [PlotData2D]

    A shallow embedding of [gempy/plot/visualization_2d.py].

    - Python exceptions are values of [exn]; a computation that may raise
      returns a [result].
    - numpy arrays are a shape together with the flat, row-major data;
      basic indexing (integers and [start:stop:step] slices), [reshape] and
      [.T] are written out with numpy's rules.
    - The numbers held by arrays and arguments are rationals [Q]; what
      [plot_data] and [plot_topo_g] compute from them by division is kept
      as the expression evaluated ([fexpr]), with its value in exact
      arithmetic where it has one.
    - The methods of [PlotData2D] run in a state-and-exception monad over a
      [World]: the object [self] (with the model it refers to) and the
      sequence of calls made to the plotting library, warnings and prints. *)

From Stdlib Require Import String Ascii DecimalString ZArith QArith List Bool
  Permutation Lia.
Import ListNotations.

Local Close Scope Q_scope.
Local Open Scope list_scope.

(** ** Exceptions and results *)

Inductive exn : Type :=
| AttributeError (msg : string)
| UnboundLocalError (var : string)
| ValueError (msg : string)
| IndexError (msg : string)
| KeyError (key : string)
| TypeError (msg : string)
| AssertionError (msg : string).

Inductive result (A : Type) : Type :=
| Ok (a : A)
| Raise (e : exn).

Arguments Ok {A} a.
Arguments Raise {A} e.

Definition rbind {A B} (r : result A) (k : A -> result B) : result B :=
  match r with
  | Ok a => k a
  | Raise e => Raise e
  end.

Declare Scope result_scope.
Delimit Scope result_scope with res.
Notation "x <- c ;; k" := (rbind c (fun x => k))
  (at level 61, c at next level, right associativity) : result_scope.
Notation "' pat <- c ;; k" :=
  (rbind c (fun x => match x with pat => k end))
  (at level 61, pat pattern, c at next level, right associativity)
  : result_scope.

(** ** Python [slice] objects and numpy basic indexing *)

Section Slices.
Local Open Scope Z_scope.

(** [slice(start, stop, step).indices(len)], as CPython adjusts them. *)
Definition slice_indices (start stop step : option Z) (len : Z)
  : result (Z * Z * Z) :=
  let stp := match step with None => 1 | Some s => s end in
  if stp =? 0 then Raise (ValueError "slice step cannot be zero") else
  let lower := if stp <? 0 then -1 else 0 in
  let upper := if stp <? 0 then len - 1 else len in
  let clip v := if v <? 0 then Z.max (v + len) lower else Z.min v upper in
  let sta := match start with
             | None => if stp <? 0 then upper else lower
             | Some v => clip v
             end in
  let sto := match stop with
             | None => if stp <? 0 then lower else upper
             | Some v => clip v
             end in
  Ok (sta, sto, stp).

(** [len(range(sta, sto, stp))] for a non-zero step. *)
Definition range_len (sta sto stp : Z) : Z :=
  if (0 <? stp) && (sta <? sto) then (sto - sta - 1) / stp + 1
  else if (stp <? 0) && (sto <? sta) then (sta - sto - 1) / (- stp) + 1
  else 0.

Definition range_list (sta sto stp : Z) : list Z :=
  map (fun k => sta + Z.of_nat k * stp)
      (seq 0 (Z.to_nat (range_len sta sto stp))).

End Slices.

(** One component of an index tuple: an integer or a slice. *)
Inductive index : Type :=
| Int (i : Z)
| Slice (start stop step : option Z).

(** [:] and [::s], as [np.s_] builds them. *)
Definition full : index := Slice None None None.
Definition every (s : Z) : index := Slice None None (Some s).

(** The positions an index selects along an axis of length [n]; the flag
    says whether the axis is kept (a slice) or dropped (an integer). *)
Definition resolve (ix : index) (n : nat) : result (bool * list nat) :=
  let len := Z.of_nat n in
  match ix with
  | Int i =>
      if ((- len <=? i) && (i <? len))%Z
      then Ok (false, [Z.to_nat (if (i <? 0)%Z then (i + len)%Z else i)])
      else Raise (IndexError "index is out of bounds for axis")
  | Slice a b c =>
      ('(sta, sto, stp) <- slice_indices a b c len ;;
       Ok (true, map Z.to_nat (range_list sta sto stp)))%res
  end.

(** An index tuple against a shape; missing trailing indices are [:]. *)
Fixpoint resolve_all (ixs : list index) (sh : list nat)
  : result (list (bool * list nat)) :=
  match sh with
  | [] =>
      match ixs with
      | [] => Ok []
      | _ :: _ => Raise (IndexError "too many indices for array")
      end
  | n :: sh' =>
      let ix := match ixs with [] => full | ix :: _ => ix end in
      (sel <- resolve ix n ;;
       sels <- resolve_all (tl ixs) sh' ;;
       Ok (sel :: sels))%res
  end.

Definition prod_list (l : list nat) : nat := fold_right Nat.mul 1 l.

(** Row-major offsets of the selected elements, in the order of the result. *)
Fixpoint gather_offsets (sels : list (list nat)) (sh : list nat) : list nat :=
  match sels, sh with
  | ps :: sels', _ :: sh' =>
      flat_map (fun p => map (fun o => p * prod_list sh' + o)
                             (gather_offsets sels' sh')) ps
  | _, _ => [0]
  end.

Definition kept_shape (sels : list (bool * list nat)) : list nat :=
  map (fun s => length (snd s)) (filter fst sels).

(** ** numpy arrays *)

Record ndarray : Type := mk_ndarray {
  shape : list nat;
  data : list Q
}.

Definition size (a : ndarray) : nat := length (data a).

(** [a.reshape(r0, r1, r2)]: the same data under a new shape of equal size. *)
Definition reshape (a : ndarray) (sh : list nat) : result ndarray :=
  if size a =? prod_list sh
  then Ok (mk_ndarray sh (data a))
  else Raise (ValueError "cannot reshape array")%string.

(** [a[ixs]] with basic indices. *)
Definition getitem (a : ndarray) (ixs : list index) : result ndarray :=
  (sels <- resolve_all ixs (shape a) ;;
   Ok (mk_ndarray (kept_shape sels)
         (map (fun o => nth o (data a) 0%Q)
              (gather_offsets (map snd sels) (shape a)))))%res.

(** All multi-indices of a shape, in row-major order. *)
Fixpoint multi_indices (sh : list nat) : list (list nat) :=
  match sh with
  | [] => [[]]
  | n :: sh' =>
      flat_map (fun i => map (cons i) (multi_indices sh')) (seq 0 n)
  end.

Fixpoint offset_of (sh mi : list nat) : nat :=
  match sh, mi with
  | _ :: sh', i :: mi' => i * prod_list sh' + offset_of sh' mi'
  | _, _ => 0
  end.

(** [a.T]: the axes reversed. *)
Definition transpose (a : ndarray) : ndarray :=
  mk_ndarray (rev (shape a))
    (map (fun mi => nth (offset_of (shape a) (rev mi)) (data a) 0%Q)
         (multi_indices (rev (shape a)))).

(** [a[[i0, i1, ...]]] on a one-dimensional array given as a list. *)
Fixpoint take (l : list Q) (ixs : list nat) : result (list Q) :=
  match ixs with
  | [] => Ok []
  | i :: ixs' =>
      match nth_error l i with
      | Some v => (vs <- take l ixs' ;; Ok (v :: vs))%res
      | None => Raise (IndexError "index is out of bounds for axis 0")
      end
  end.

(** [l[i]] on a Python list, negative indices counting from the end. *)
Definition py_nth {A} (l : list A) (i : Z) : result A :=
  let len := Z.of_nat (length l) in
  if ((- len <=? i) && (i <? len))%Z
  then match nth_error l (Z.to_nat (if (i <? 0)%Z then (i + len)%Z else i)) with
       | Some v => Ok v
       | None => Raise (IndexError "list index out of range")
       end
  else Raise (IndexError "list index out of range").

(** ** Python strings as objects

    A [str] object has an identity besides its value: [==] compares the
    values, [is] the identities. *)

Record pystr : Type := mk_pystr {
  ident : nat;
  text : string
}.

Definition py_eq (a b : pystr) : bool := String.eqb (text a) (text b).
Definition py_is (a b : pystr) : bool := Nat.eqb (ident a) (ident b).

(** The string constants of the module's code object that are compared by
    identity ([plot_block_section]). *)
Definition lit_lithology : pystr := mk_pystr 1 "lithology".
Definition lit_fault1 : pystr := mk_pystr 2 "fault1".

(** ** Python dictionaries: insertion-ordered, one entry per key *)

Module PyDict.
Section Dict.
Context {K V : Type} (eqb : K -> K -> bool).

Definition t : Type := list (K * V).

Definition empty : t := [].

Fixpoint get (d : t) (k : K) : option V :=
  match d with
  | [] => None
  | (k', v) :: d' => if eqb k' k then Some v else get d' k
  end.

(** [d[k] = v]: an existing key keeps its place, a new one goes last. *)
Fixpoint set (d : t) (k : K) (v : V) : t :=
  match d with
  | [] => [(k, v)]
  | (k', v') :: d' =>
      if eqb k' k then (k', v) :: d' else (k', v') :: set d' k v
  end.

Definition keys (d : t) : list K := map fst d.
Definition items (d : t) : list (K * V) := d.
Definition mem (d : t) (k : K) : bool :=
  match get d k with Some _ => true | None => false end.

(** [dict(pairs)]. *)
Definition of_pairs (l : list (K * V)) : t :=
  fold_left (fun d kv => set d (fst kv) (snd kv)) l empty.

(** [d.update(e)]. *)
Definition update (d e : t) : t :=
  fold_left (fun d kv => set d (fst kv) (snd kv)) e d.
(** The value [dict(l)] holds for [k]: that of the last pair with this
    key. *)
Definition last_value (l : list (K * V)) (k : K) : option V :=
  option_map snd (find (fun kv => eqb (fst kv) k) (rev l)).

End Dict.
End PyDict.

(** ** The model object (owned by the caller) *)

Record Grid : Type := {
  resolution : nat * nat * nat;
  extent : list Q;
  values : ndarray
}.

Definition res0 (g : Grid) : nat := fst (fst (resolution g)).
Definition res1 (g : Grid) : nat := snd (fst (resolution g)).
Definition res2 (g : Grid) : nat := snd (resolution g).
Definition res_shape (g : Grid) : list nat := [res0 g; res1 g; res2 g].

Record SurfaceRow : Type := {
  surface : string;
  color : string
}.

(** [surfaces.df]: its column names and its rows. *)
Record Surfaces : Type := {
  surfaces_columns : list string;
  surfaces_df : list SurfaceRow
}.

Record PointRow : Type := {
  p_X : Q; p_Y : Q; p_Z : Q;
  p_series : string;
  p_surface : string
}.

Record OrientRow : Type := {
  o_X : Q; o_Y : Q; o_Z : Q;
  o_G_x : Q; o_G_y : Q; o_G_z : Q;
  o_series : string;
  o_surface : string
}.

(** [surface_points] and [orientations]: the data frame [df], and what
    subscripting the object itself (not its [df]) with a boolean mask does,
    which is the business of classes outside this module. *)
Record SurfacePoints : Type := {
  sp_df : list PointRow;
  sp_getitem : list bool -> result (list PointRow)
}.

Record Orientations : Type := {
  or_df : list OrientRow;
  or_getitem : list bool -> result (list OrientRow)
}.

(** [series.df]: index label and [order_series] of each row. *)
Record Series : Type := {
  series_df : list (string * Z)
}.

(** [faults.faults_relations_df.form_series]: index label and flag. *)
Record Faults : Type := {
  form_series : list (string * bool)
}.

Record Solution : Type := {
  lith_block : ndarray;
  fault_blocks : ndarray;
  scalar_field_matrix : ndarray;
  scalar_field_at_surface_points : ndarray
}.

Record Topography : Type := {
  _line_in_section : Z -> string -> result ndarray
}.

Record Model : Type := {
  grid : Grid;
  surfaces : Surfaces;
  surface_points : SurfacePoints;
  orientations : Orientations;
  series : Series;
  faults : Faults;
  solutions : Solution;
  topography : option Topography
}.

(** ** The plotting library, warnings and standard output *)

Inductive kwvalue : Type :=
| KwStr (s : string)
| KwNum (q : Q)
| KwCmap (colors : list string)
| KwNorm (vmin vmax : Q)
| KwDict (d : list (string * string)).

Definition kwargs : Type := list (string * kwvalue).

Definition palette : Type := list (string * string).

(** Floating-point arithmetic.  The numbers the arrays and the arguments
    hold are written as rationals.  What the code computes from them with
    the operators of Python and numpy is kept as the expression that is
    evaluated, in the order of the source: nothing is taken for granted
    about rounding, overflow or a division by zero.  [fval] is the value of
    an expression in exact arithmetic, where it has one. *)
Inductive fexpr : Type :=
| FVal (q : Q)
| FInt (z : Z)
| FAdd (a b : fexpr)
| FSub (a b : fexpr)
| FMul (a b : fexpr)
| FDiv (a b : fexpr).

Definition fbin (op : Q -> Q -> Q) (a b : option Q) : option Q :=
  match a, b with
  | Some x, Some y => Some (op x y)
  | _, _ => None
  end.

Fixpoint fval (e : fexpr) : option Q :=
  match e with
  | FVal q => Some q
  | FInt z => Some (inject_Z z)
  | FAdd a b => fbin Qplus (fval a) (fval b)
  | FSub a b => fbin Qminus (fval a) (fval b)
  | FMul a b => fbin Qmult (fval a) (fval b)
  | FDiv a b =>
      match fval b with
      | Some y => if Qeq_bool y 0 then None else fbin Qdiv (fval a) (Some y)
      | None => None
      end
  end.

(** ['width' if aspect < 1 else 'height']: the comparison is one of
    floating-point numbers, so the choice is kept with the expression it
    is made on. *)
Inductive axis_choice : Type :=
| WidthIfBelowOne (aspect : fexpr).

(** A call of the plotting library, of [warnings] or of [print], with the
    arguments the code computes for it.  Arguments that the source writes
    as constants, and that no caller can change, are not repeated in the
    event ([origin="bottom"] of [imshow], [fit_reg], [hue], [legend] and
    [legend_out] of [lmplot], [pivot="tail"] of [quiver], the position of
    a legend, the marker of a node); the [alpha=0.6] that tells the call
    of [contourf] from that of [contour] is kept. *)
Inductive event : Type :=
| ListedColormap (colors : list string)
| Normalize (vmin vmax : Q)
| StyleUse
| SetContext
| Warn (msg : string)
| PrintOut (msg : string)
| Lmplot (x y : string) (rows : list PointRow) (aspect : fexpr)
         (pal : palette) (kw : kwargs)
| SetYlim (lo hi : Q)
| SetXlim (lo hi : Q)
| QuiverData (xs ys us vs : list Q) (scale_units : axis_choice)
             (scale : Z)
| Legend
| LegendPatches (patches : list (string * string))
| Xlabel (s : string)
| Ylabel (s : string)
| Imshow (img : ndarray) (ext : list Q) (interpolation : string)
         (aspect : Q) (kw : kwargs)
| Contour (img : ndarray) (n : Z) (ext : list Q) (kw : kwargs)
| Contourf (img : ndarray) (n : Z) (ext : list Q) (alpha : Q)
           (kw : kwargs)
| ContourLevels (img : ndarray) (ext : list Q) (levels : list Q)
                (col : string)
| Colorbar
| Fill (xs ys : list Q)
| PlotLine (xs ys : list fexpr) (kw : kwargs)
| PlotMarker (x y : fexpr)
| Text (x y : fexpr) (node : Z) (kw : kwargs)
| Quiver (X Y U V : ndarray)
| Annotate (label : string) (x y : Q).

(** ** The object and the monad its methods run in

    A method takes the world to a result and a world: an exception leaves
    the world as it was when it was raised.  Calls into the plotting
    library, [warnings] and [print] are recorded in the trace with the
    values they receive; they are taken not to write to those values. *)

Record PlotData2D : Type := {
  model : Model;
  _color_lot : palette;
  _cmap : list string;
  _norm : Q * Q
}.

Record World : Type := {
  self : PlotData2D;
  trace : list event
}.

Definition M (A : Type) : Type := World -> result A * World.

Definition ret {A} (a : A) : M A := fun w => (Ok a, w).

Definition raise {A} (e : exn) : M A := fun w => (Raise e, w).

Definition bind {A B} (c : M A) (k : A -> M B) : M B :=
  fun w =>
    match c w with
    | (Ok a, w') => k a w'
    | (Raise e, w') => (Raise e, w')
    end.

Definition lift {A} (r : result A) : M A := fun w => (r, w).

Definition get_self : M PlotData2D := fun w => (Ok (self w), w).

Definition get_model : M Model := fun w => (Ok (model (self w)), w).

(** A call into the plotting library (or [warnings], or [print]). *)
Definition emit (e : event) : M unit :=
  fun w => (Ok tt, {| self := self w; trace := trace w ++ [e] |}).

Declare Scope monad_scope.
Delimit Scope monad_scope with M.
Notation "x <- c ;; k" := (bind c (fun x => k))
  (at level 61, c at next level, right associativity) : monad_scope.
Notation "' pat <- c ;; k" :=
  (bind c (fun x => match x with pat => k end))
  (at level 61, pat pattern, c at next level, right associativity)
  : monad_scope.
Notation "c ;;; k" := (bind c (fun _ => k))
  (at level 61, right associativity) : monad_scope.

Fixpoint for_each {A} (l : list A) (body : A -> M unit) : M unit :=
  match l with
  | [] => ret tt
  | x :: l' => (body x ;;; for_each l' body)%M
  end.

Definition when (b : bool) (c : M unit) : M unit :=
  if b then c else ret tt.

(** Reading a local variable that some branches leave unassigned. *)
Definition local {A} (name : string) (v : option A) : M A :=
  match v with
  | Some a => ret a
  | None => raise (UnboundLocalError name)
  end.

Definition has_key {V} (kw : list (string * V)) (k : string) : bool :=
  PyDict.mem String.eqb kw k.

Definition set_default {V} (kw : list (string * V)) (k : string) (v : V)
  : list (string * V) :=
  if has_key kw k then kw else PyDict.set String.eqb kw k v.

Definition inb (s : string) (l : list string) : bool :=
  existsb (String.eqb s) l.

(** A call [f(..., k=v, ..., **kwargs)].  Once the arguments are evaluated
    and before [f] is entered, Python merges [kwargs] into the keywords the
    call writes out, and raises a [TypeError] at the first key of [kwargs]
    that is one of them.  The message is the interpreter's, after the name
    of [f]. *)
Definition duplicate_keyword (fixed : list string) (kw : kwargs)
  : option string :=
  option_map fst (find (fun kv => inb (fst kv) fixed) kw).

Definition multiple_values (k : string) : exn :=
  TypeError ("got multiple values for keyword argument '" ++ k ++ "'")%string.

Definition merge_keywords (fixed : list string) (kw : kwargs) : M unit :=
  match duplicate_keyword fixed kw with
  | Some k => raise (multiple_values k)
  | None => ret tt
  end.

(** ** [PlotData2D.__init__] and [_set_style] *)

Definition _set_style : M unit :=
  (emit StyleUse ;;; emit SetContext)%M.

(** [dict(zip(df['surface'], df['color']))]. *)
Definition color_lot_of (s : Surfaces) : palette :=
  PyDict.of_pairs String.eqb
    (combine (map surface (surfaces_df s)) (map color (surfaces_df s))).

Definition __init__ (m : Model) (tr : list event) : World :=
  let cmap := map color (surfaces_df (surfaces m)) in
  let vmin := (1 # 2)%Q in
  let vmax := (inject_Z (Z.of_nat (length cmap)) + (1 # 2))%Q in
  let obj := {| model := m;
                _color_lot := color_lot_of (surfaces m);
                _cmap := cmap;
                _norm := (vmin, vmax) |} in
  snd (_set_style {| self := obj;
                     trace := tr ++ [ListedColormap cmap;
                                     Normalize vmin vmax] |}).

(** ** [_slice] and [_slice2D] *)

(** The tuple [(_a, _b, _c, extent_val, x, y, Gx, Gy)] that [_slice]
    returns. *)
Record SliceDescr : Type := {
  sd_a : index;
  sd_b : index;
  sd_c : index;
  sd_extent : list Q;
  sd_x : string;
  sd_y : string;
  sd_Gx : string;
  sd_Gy : string
}.

Definition slice_to (n : nat) : index :=
  Slice (Some 0%Z) (Some (Z.of_nat n)) None.

Definition _slice (direction : string) (cell_number : Z) : M SliceDescr :=
  (m <- get_model ;;
   let g := grid m in
   let _a := slice_to (res0 g) in
   let _b := slice_to (res1 g) in
   let _c := slice_to (res2 g) in
   if String.eqb direction "x" then
     extent_val <- lift (take (extent g) [2; 3; 4; 5]) ;;
     ret {| sd_a := Int cell_number; sd_b := _b; sd_c := _c;
            sd_extent := extent_val;
            sd_x := "Y"; sd_y := "Z"; sd_Gx := "G_y"; sd_Gy := "G_z" |}
   else if String.eqb direction "y" then
     extent_val <- lift (take (extent g) [0; 1; 4; 5]) ;;
     ret {| sd_a := _a; sd_b := Int cell_number; sd_c := _c;
            sd_extent := extent_val;
            sd_x := "X"; sd_y := "Z"; sd_Gx := "G_x"; sd_Gy := "G_z" |}
   else if String.eqb direction "z" then
     extent_val <- lift (take (extent g) [1; 2; 3; 4]) ;;
     ret {| sd_a := _a; sd_b := _b; sd_c := Int cell_number;
            sd_extent := extent_val;
            sd_x := "X"; sd_y := "Y"; sd_Gx := "G_x"; sd_Gy := "G_y" |}
   else
     raise (AttributeError
              (direction ++ "must be a cartesian direction, i.e. xyz")%string)
  )%M.

(** The default [cell_number=25] of [_slice]. *)
Definition _slice_default (direction : string) : M SliceDescr :=
  _slice direction 25%Z.

Definition _slice2D (cell_number : Z) (direction : string)
  : M (list index * list Q) :=
  (m <- get_model ;;
   let g := grid m in
   '(sl, ext) <-
     (if String.eqb direction "x" then
        e <- lift (take (extent g) [2; 3; 4; 5]) ;;
        ret (Some [Int cell_number; full; full], Some e)
      else if String.eqb direction "y" then
        e <- lift (take (extent g) [0; 1; 4; 5]) ;;
        ret (Some [full; Int cell_number; full], Some e)
      else if String.eqb direction "z" then
        e <- lift (take (extent g) [1; 2; 3; 4]) ;;
        ret (Some [full; full; Int cell_number], Some e)
      else
        emit (PrintOut "not a direction") ;;;
        ret (None, None)) ;;
   s <- local "_slice" sl ;;
   e <- local "extent" ext ;;
   ret (s, e))%M.

(** ** [plot_topography] *)

(** The value of a zero-dimensional indexing result. *)
Definition scalar (a : ndarray) : Q := nth 0 (data a) 0%Q.

(** [a.reshape(-1, 2)]. *)
Definition reshape_rows2 (l : list Q) : result ndarray :=
  if Nat.even (length l)
  then Ok (mk_ndarray [Nat.div (length l) 2; 2] l)
  else Raise (ValueError "cannot reshape array").

Definition plot_topography (cell_number : Z) (direction : string) : M unit :=
  (m <- get_model ;;
   line <- lift (match topography m with
                 | Some t => _line_in_section t cell_number direction
                 | None => Raise (AttributeError
                     "'NoneType' object has no attribute '_line_in_section'")
                 end) ;;
   ext <-
     (if String.eqb direction "x" then
        e <- lift (take (extent (grid m)) [2; 3; 4; 5]) ;; ret (Some e)
      else if String.eqb direction "y" then
        e <- lift (take (extent (grid m)) [0; 1; 4; 5]) ;; ret (Some e)
      else ret None) ;;
   (* add corners *)
   ext' <- local "ext" ext ;;
   ext1 <- lift (py_nth ext' 1) ;;
   l0m1 <- lift (getitem line [Int 0; Int (-1)]) ;;
   ext3 <- lift (py_nth ext' 3) ;;
   ext0 <- lift (py_nth ext' 0) ;;
   l01 <- lift (getitem line [Int 0; Int 1]) ;;
   line' <- lift (reshape_rows2
                    (data line ++ [ext1; scalar l0m1; ext1; ext3;
                                   ext0; ext3; ext0; scalar l01])) ;;
   xs <- lift (getitem line' [full; Int 0]) ;;
   ys <- lift (getitem line' [full; Int 1]) ;;
   emit (Fill (data xs) (data ys)))%M.

(** ** [extract_fault_lines] *)

Fixpoint loc (df : list (string * Z)) (label : string) : result Z :=
  match df with
  | [] => Raise (KeyError label)
  | (l, v) :: df' => if String.eqb l label then Ok v else loc df' label
  end.

Definition nonzero (l : list Q) : list Q :=
  filter (fun q => negb (Qeq_bool q 0)) l.

Definition extract_fault_lines (cell_number : Z) (direction : string)
  : M unit :=
  (m <- get_model ;;
   let faults := map fst (filter snd (form_series (faults m))) in
   '(_slice, extent) <- _slice2D cell_number direction ;;
   for_each faults (fun fault =>
     order <- lift (loc (series_df (series m)) fault) ;;
     let f_id := (order - 1)%Z in
     block <- lift (getitem (scalar_field_matrix (solutions m)) [Int f_id]) ;;
     row <- lift (getitem (scalar_field_at_surface_points (solutions m))
                          [Int f_id]) ;;
     let level := nonzero (data row) in
     b3 <- lift (reshape block (res_shape (grid m))) ;;
     img <- lift (getitem b3 _slice) ;;
     self <- get_self ;;
     col <- lift (py_nth (_cmap self) f_id) ;;
     emit (ContourLevels (transpose img) extent level col)))%M.

(** ** [plot_data]

    The parameter [legend_font_size] is not used by the body and is left
    out; [aspect] is computed in exact arithmetic. *)

Definition orient_columns : list string :=
  ["X"; "Y"; "Z"; "G_x"; "G_y"; "G_z"]%string.

Definition orient_get (name : string) (r : OrientRow) : Q :=
  if String.eqb name "X" then o_X r
  else if String.eqb name "Y" then o_Y r
  else if String.eqb name "Z" then o_Z r
  else if String.eqb name "G_x" then o_G_x r
  else if String.eqb name "G_y" then o_G_y r
  else o_G_z r.

(** [frame[name]] for a numeric column of the orientations. *)
Definition column (name : string) (rows : list OrientRow) : result (list Q) :=
  if inb name orient_columns
  then Ok (map (orient_get name) rows)
  else Raise (KeyError name).

Definition default_scatter_kws : kwvalue :=
  KwDict [("marker", "D"); ("s", "100"); ("edgecolors", "black");
          ("linewidths", "1")]%string.

Definition quiver_orientations (rows : list OrientRow)
    (x y Gx Gy : string) (min_axis : axis_choice) (scale : Z) : M unit :=
  (xs <- lift (column x rows) ;;
   ys <- lift (column y rows) ;;
   us <- lift (column Gx rows) ;;
   vs <- lift (column Gy rows) ;;
   emit (QuiverData xs ys us vs min_axis scale))%M.

(** The keywords the call of [lmplot] writes out. *)
Definition lmplot_keywords : list string :=
  ["data"; "fit_reg"; "aspect"; "hue"; "legend"; "legend_out";
   "palette"]%string.

Definition lmplot_points (rows : list PointRow) (x y : string)
    (aspect : fexpr) (ext : list Q) (kw : kwargs) : M unit :=
  (self <- get_self ;;
   merge_keywords lmplot_keywords kw ;;;
   emit (Lmplot x y rows aspect (_color_lot self) kw) ;;;
   e2 <- lift (py_nth ext 2) ;;
   e3 <- lift (py_nth ext 3) ;;
   emit (SetYlim e2 e3) ;;;
   e0 <- lift (py_nth ext 0) ;;
   e1 <- lift (py_nth ext 1) ;;
   emit (SetXlim e0 e1))%M.

Definition plot_data (direction data_type series_name : string) (ve : Q)
    (kw : kwargs) : M unit :=
  (let kw := set_default kw "scatter_kws" default_scatter_kws in
   sd <- _slice_default direction ;;
   let x := sd_x sd in
   let y := sd_y sd in
   let Gx := sd_Gx sd in
   let Gy := sd_Gy sd in
   sd' <- _slice_default direction ;;
   let ext := sd_extent sd' in
   e1 <- lift (py_nth ext 1) ;;
   e0 <- lift (py_nth ext 0) ;;
   e3 <- lift (py_nth ext 3) ;;
   e2 <- lift (py_nth ext 2) ;;
   let aspect := FDiv (FSub (FVal e1) (FVal e0))
                      (FSub (FVal e3) (FVal e2)) in
   (* apply vertical exageration *)
   let aspect :=
     if String.eqb direction "x" || String.eqb direction "y"
     then FDiv aspect (FVal ve) else aspect in
   let min_axis := WidthIfBelowOne aspect in
   m <- get_model ;;
   '(series_to_plot_i, series_to_plot_f) <-
     (if String.eqb series_name "all" then
        let idx := map fst (series_df (series m)) in
        ret (filter (fun r => inb (p_series r) idx)
                    (sp_df (surface_points m)),
             filter (fun r => inb (o_series r) idx)
                    (or_df (orientations m)))
      else
        i <- lift (sp_getitem (surface_points m)
                     (map (fun r => String.eqb (p_series r) series_name)
                          (sp_df (surface_points m)))) ;;
        f <- lift (or_getitem (orientations m)
                     (map (fun r => String.eqb (o_series r) series_name)
                          (or_df (orientations m)))) ;;
        ret (i, f)) ;;
   when (String.eqb data_type "all")
     (lmplot_points series_to_plot_i x y aspect ext kw ;;;
      (* Plotting orientations *)
      quiver_orientations series_to_plot_f x y Gx Gy min_axis 10) ;;;
   when (String.eqb data_type "surface_points")
     (lmplot_points series_to_plot_i x y aspect ext kw) ;;;
   when (String.eqb data_type "orientations")
     (quiver_orientations series_to_plot_f x y Gx Gy min_axis 15) ;;;
   emit Legend ;;;
   emit (Xlabel x) ;;;
   emit (Ylabel y))%M.

(** ** [plot_block_section]

    The method returns the current figure of the plotting library; here it
    returns nothing, the figure being the trace. *)

(** The [block] argument: [None] (the default), a string, or an array. *)
Inductive block_arg : Type :=
| BNone
| BStr (s : pystr)
| BArr (a : ndarray).

Definition deprecation_msg : string :=
  "Passing the block directly will get deprecated in the next version. Please use Solutionand block_type instead".

(** The message of the assertion in [plot_block_section] (the code appends
    the printed surfaces table to it). *)
Definition assertion_msg : string :=
  "The value to be plotted has to be in surfaces".

(** [_block.reshape(...)] where [_block] may be [None]. *)
Definition reshape_obj (o : option ndarray) (sh : list nat) : result ndarray :=
  match o with
  | Some a => reshape a sh
  | None => Raise (AttributeError
                     "'NoneType' object has no attribute 'reshape'")
  end.

(** The first statement of [plot_block_section]: which array [_block] is
    bound to, if any. *)
Definition select_block (solution : Solution) (block : block_arg)
    (block_type : pystr) : M (option (option ndarray)) :=
  (match block with
   | BStr _ =>
       if py_is block_type lit_lithology then
         ret (Some (Some (lith_block solution)))
       else if py_is block_type lit_fault1 then
         ret (Some (Some (fault_blocks solution)))
       else
         m <- get_model ;;
         if inb (text block_type) (surfaces_columns (surfaces m))
         then ret None
         else raise (AssertionError assertion_msg)
   | BNone =>
       emit (Warn deprecation_msg) ;;; ret (Some None)
   | BArr a =>
       emit (Warn deprecation_msg) ;;; ret (Some (Some a))
   end)%M.

(** The keywords the call of [imshow] writes out. *)
Definition imshow_keywords : list string :=
  ["origin"; "extent"; "interpolation"; "aspect"]%string.

Definition plot_block_section (solution : Solution) (cell_number : Z)
    (block : block_arg) (direction interpolation : string)
    (plot_data_flag : bool) (block_type : pystr) (ve : Q)
    (show_faults show_topo : bool) (kw : kwargs) : M unit :=
  (_block <- select_block solution block block_type ;;
   m <- get_model ;;
   b <- local "_block" _block ;;
   plot_block <- lift (reshape_obj b (res_shape (grid m))) ;;
   sd <- _slice direction cell_number ;;
   when plot_data_flag (plot_data direction "all" "all" 1 []) ;;;
   (* apply vertical exageration *)
   let aspect :=
     if String.eqb direction "x" || String.eqb direction "y"
     then ve else 1%Q in
   self <- get_self ;;
   let kw := set_default kw "cmap" (KwCmap (_cmap self)) in
   let kw := set_default kw "norm"
               (KwNorm (fst (_norm self)) (snd (_norm self))) in
   img <- lift (getitem plot_block [sd_a sd; sd_b sd; sd_c sd]) ;;
   merge_keywords imshow_keywords kw ;;;
   emit (Imshow (transpose img) (sd_extent sd) interpolation aspect kw) ;;;
   when show_faults (extract_fault_lines cell_number direction) ;;;
   when show_topo
     (match topography m with
      | Some _ => plot_topography cell_number direction
      | None => ret tt
      end) ;;;
   when (negb plot_data_flag)
     (emit (LegendPatches
              (map (fun sc => (snd sc, fst sc))
                   (PyDict.items (_color_lot self))))) ;;;
   emit (Xlabel (sd_x sd)) ;;;
   emit (Ylabel (sd_y sd)))%M.

(** ** [plot_scalar_field]

    The extra positional arguments [*args], which go to the plotting
    library untouched, are left out. *)

(** The [solution] argument: a [Solution] object or a bare array. *)
Inductive solution_arg : Type :=
| IsSolution (s : Solution)
| NotSolution (a : ndarray).

(** The keywords the calls of [contour] and [contourf] write out. *)
Definition contour_keywords : list string := ["extent"]%string.

Definition contourf_keywords : list string := ["extent"; "alpha"]%string.

Definition plot_scalar_field (solution : solution_arg) (cell_number : Z)
    (series_ix : Z) (N : Z) (direction : string) (plot_data_flag : bool)
    (kw : kwargs) : M unit :=
  (scalar_field <-
     match solution with
     | IsSolution s => lift (getitem (scalar_field_matrix s) [Int series_ix])
     | NotSolution a => emit (Warn deprecation_msg) ;;; ret a
     end ;;
   let kw := set_default kw "cmap" (KwStr "magma") in
   when plot_data_flag (plot_data direction "all" "all" 1 []) ;;;
   sd <- _slice direction cell_number ;;
   m <- get_model ;;
   s3 <- lift (reshape scalar_field (res_shape (grid m))) ;;
   img <- lift (getitem s3 [sd_a sd; sd_b sd; sd_c sd]) ;;
   merge_keywords contour_keywords kw ;;;
   emit (Contour (transpose img) N (sd_extent sd) kw) ;;;
   s3' <- lift (reshape scalar_field (res_shape (grid m))) ;;
   img' <- lift (getitem s3' [sd_a sd; sd_b sd; sd_c sd]) ;;
   merge_keywords contourf_keywords kw ;;;
   emit (Contourf (transpose img') N (sd_extent sd) (6 # 10) kw) ;;;
   when (has_key kw "colorbar") (emit Colorbar) ;;;
   emit (Xlabel (sd_x sd)) ;;;
   emit (Ylabel (sd_y sd)))%M.

(** ** [plot_gradient] *)

(** [g.reshape(R0, R1, R2)[ixs].T]. *)
Definition reshape_slice_T (g : Grid) (a : ndarray) (ixs : list index)
  : result ndarray :=
  (a3 <- reshape a (res_shape g) ;;
   s <- getitem a3 ixs ;;
   Ok (transpose s))%res.

(** [grid.values[:, k].reshape(R0, R1, R2)[ixs].T]. *)
Definition coord_slice_T (g : Grid) (k : Z) (ixs : list index)
  : result ndarray :=
  (col <- getitem (values g) [full; Int k] ;;
   reshape_slice_T g col ixs)%res.

Definition plot_gradient (scalar_field : solution_arg) (gx gy gz : ndarray)
    (cell_number quiver_stepsize : Z) (direction : string)
    (plot_scalar : bool) : M unit :=
  (m <- get_model ;;
   let g := grid m in
   let st := every quiver_stepsize in
   let scalar_plot :=
     when plot_scalar
       (plot_scalar_field scalar_field cell_number 0 20 direction false []) in
   if String.eqb direction "y" then
     scalar_plot ;;;
     let ixs := [st; Int cell_number; st] in
     U <- lift (reshape_slice_T g gx ixs) ;;
     V <- lift (reshape_slice_T g gz ixs) ;;
     X <- lift (coord_slice_T g 0 ixs) ;;
     Y <- lift (coord_slice_T g 2 ixs) ;;
     emit (Quiver X Y U V)
   else if String.eqb direction "x" then
     scalar_plot ;;;
     let ixs := [Int cell_number; st; st] in
     U <- lift (reshape_slice_T g gy ixs) ;;
     V <- lift (reshape_slice_T g gz ixs) ;;
     X <- lift (coord_slice_T g 1 ixs) ;;
     Y <- lift (coord_slice_T g 2 ixs) ;;
     emit (Quiver X Y U V)
   else if String.eqb direction "z" then
     scalar_plot ;;;
     let ixs := [st; st; Int cell_number] in
     U <- lift (reshape_slice_T g gx ixs) ;;
     V <- lift (reshape_slice_T g gy ixs) ;;
     X <- lift (coord_slice_T g 0 ixs) ;;
     Y <- lift (coord_slice_T g 1 ixs) ;;
     emit (Quiver X Y U V)
   else
     raise (AttributeError
              (direction ++ "must be a cartesian direction, i.e. xyz")%string)
  )%M.

(** ** [plot_topo_g] (a static method) *)

Record Graph : Type := {
  nodes : list Z;
  edges : list (Z * Z)
}.

(** [centroids]: node to centroid, a tuple of two or three coordinates. *)
Definition centroid_map : Type := list (Z * list Q).

(** The locals the three direction branches assign. *)
Record TopoAxes : Type := {
  c1 : Z; c2 : Z;
  e1 : fexpr; e2 : fexpr;
  d1 : Q; d2 : Q;
  r1 : nat; r2 : nat
}.

Definition str_of_Z (z : Z) : string := NilZero.string_of_int (Z.to_int z).

Definition centroid_of (centroids : centroid_map) (n : Z) : result (list Q) :=
  match PyDict.get Z.eqb centroids n with
  | Some c => Ok c
  | None => Raise (KeyError (str_of_Z n))
  end.

(** [len(list(centroids.items())[0][1]) == 2]. *)
Definition first_is_2d (centroids : centroid_map) : result bool :=
  match PyDict.items centroids with
  | [] => Raise (IndexError "list index out of range")
  | (_, c) :: _ => Ok (length c =? 2)
  end.

(** The branch of one direction: the default components [ca], [cb] of a
    3D centroid, the extent positions [lo1], [hi1], [lo2], [hi2] and the
    resolution components. *)
Definition topo_branch (geo_data : Model) (centroids : centroid_map)
    (ca cb : Z) (lo1 hi1 lo2 hi2 : Z) (ra rb : nat) : result TopoAxes :=
  let ext := extent (grid geo_data) in
  (x_hi <- py_nth ext hi1 ;;
   x_lo <- py_nth ext lo1 ;;
   y_hi <- py_nth ext hi2 ;;
   y_lo <- py_nth ext lo2 ;;
   d1 <- py_nth ext lo1 ;;
   d2 <- py_nth ext lo2 ;;
   flat <- first_is_2d centroids ;;
   Ok {| c1 := if flat then 0%Z else ca;
         c2 := if flat then 1%Z else cb;
         e1 := FSub (FVal x_hi) (FVal x_lo);
         e2 := FSub (FVal y_hi) (FVal y_lo);
         d1 := d1; d2 := d2;
         r1 := ra; r2 := rb |})%res.

Definition topo_axes (geo_data : Model) (centroids : centroid_map)
    (direction : string) : result (option TopoAxes) :=
  let g := grid geo_data in
  if String.eqb direction "y" then
    (t <- topo_branch geo_data centroids 0 2 0 1 4 5 (res0 g) (res2 g) ;;
     Ok (Some t))%res
  else if String.eqb direction "x" then
    (t <- topo_branch geo_data centroids 1 2 2 3 4 5 (res1 g) (res2 g) ;;
     Ok (Some t))%res
  else if String.eqb direction "z" then
    (t <- topo_branch geo_data centroids 0 1 0 1 2 3 (res0 g) (res1 g) ;;
     Ok (Some t))%res
  else Ok None.

(** [v * e / r + d]. *)
Definition to_extent (v : Q) (e : fexpr) (r : nat) (d : Q) : fexpr :=
  FAdd (FDiv (FMul (FVal v) e) (FInt (Z.of_nat r))) (FVal d).

Definition merge_kw (defaults : kwargs) (extra : option kwargs) : kwargs :=
  match extra with
  | Some kw => PyDict.update String.eqb defaults kw
  | None => defaults
  end.

(** [centroids[n][c1] * e1 / r1 + d1] (and the same on the second axis),
    in the order Python evaluates it. *)
Definition node_coord (centroids : centroid_map) (ax : option TopoAxes)
    (second : bool) (n : Z) : M fexpr :=
  (c <- lift (centroid_of centroids n) ;;
   t <- local (if second then "c2" else "c1")%string ax ;;
   v <- lift (py_nth c (if second then c2 t else c1 t)) ;;
   ret (if second then to_extent v (e2 t) (r2 t) (d2 t)
        else to_extent v (e1 t) (r1 t) (d1 t)))%M.

Local Open Scope string_scope.

Definition plot_topo_g (geo_data : Model) (G : Graph)
    (centroids : centroid_map) (direction : string)
    (label_kwargs node_kwargs edge_kwargs : option kwargs) : M unit :=
  (ax <- lift (topo_axes geo_data centroids direction) ;;
   let nkw := merge_kw [("marker", KwStr "o"); ("color", KwStr "black");
                        ("markersize", KwNum 20); ("alpha", KwNum (3 # 4))]
                       node_kwargs in
   let tkw := merge_kw [("color", KwStr "white"); ("size", KwNum 10);
                        ("ha", KwStr "center"); ("va", KwStr "center");
                        ("weight", KwStr "ultralight");
                        ("family", KwStr "monospace")]
                       label_kwargs in
   let lkw := merge_kw [("linewidth", KwNum (3 # 4));
                        ("color", KwStr "black")]
                       edge_kwargs in
   for_each (edges G) (fun edge =>
     let '(a, b) := edge in
     (* plot edges *)
     xa <- node_coord centroids ax false a ;;
     xb <- node_coord centroids ax false b ;;
     ya <- node_coord centroids ax true a ;;
     yb <- node_coord centroids ax true b ;;
     emit (PlotLine [xa; xb] [ya; yb] lkw) ;;;
     for_each (nodes G) (fun node =>
       x <- node_coord centroids ax false node ;;
       y <- node_coord centroids ax true node ;;
       emit (PlotMarker x y) ;;;
       x' <- node_coord centroids ax false node ;;
       y' <- node_coord centroids ax true node ;;
       emit (Text x' y' node tkw))))%M.

Local Close Scope string_scope.

(** ** [annotate_plot] (a static method) *)

Record Frame : Type := {
  label_column : string -> result (list string);
  number_column : string -> result (list Q)
}.

Definition annotate_plot (frame : Frame) (label_col x y : string) : M unit :=
  (labels <- lift (label_column frame label_col) ;;
   xs <- lift (number_column frame x) ;;
   ys <- lift (number_column frame y) ;;
   for_each (combine labels (combine xs ys)) (fun lxy =>
     let '(label, (x, y)) := lxy in
     emit (Annotate label (x + (2 # 10))%Q (y + (15 # 100))%Q)))%M.

(** ** The operations of the class *)

Inductive call : Type :=
| Call_set_style
| Call_plot_data (direction data_type series_name : string) (ve : Q)
                 (kw : kwargs)
| Call_slice (direction : string) (cell_number : Z)
| Call_slice2D (cell_number : Z) (direction : string)
| Call_plot_topography (cell_number : Z) (direction : string)
| Call_extract_fault_lines (cell_number : Z) (direction : string)
| Call_plot_block_section (solution : Solution) (cell_number : Z)
    (block : block_arg) (direction interpolation : string)
    (plot_data_flag : bool) (block_type : pystr) (ve : Q)
    (show_faults show_topo : bool) (kw : kwargs)
| Call_plot_scalar_field (solution : solution_arg) (cell_number : Z)
    (series_ix : Z) (N : Z) (direction : string) (plot_data_flag : bool)
    (kw : kwargs)
| Call_plot_topo_g (geo_data : Model) (G : Graph) (centroids : centroid_map)
    (direction : string) (label_kwargs node_kwargs edge_kwargs : option kwargs)
| Call_plot_gradient (scalar_field : solution_arg) (gx gy gz : ndarray)
    (cell_number quiver_stepsize : Z) (direction : string)
    (plot_scalar : bool)
| Call_annotate_plot (frame : Frame) (label_col x y : string).

Definition discard {A} (c : M A) : M unit := (_ <- c ;; ret tt)%M.

Definition run (c : call) : M unit :=
  match c with
  | Call_set_style => _set_style
  | Call_plot_data d t s ve kw => plot_data d t s ve kw
  | Call_slice d n => discard (_slice d n)
  | Call_slice2D n d => discard (_slice2D n d)
  | Call_plot_topography n d => plot_topography n d
  | Call_extract_fault_lines n d => extract_fault_lines n d
  | Call_plot_block_section s n b d i p bt ve sf st kw =>
      plot_block_section s n b d i p bt ve sf st kw
  | Call_plot_scalar_field s n i N d p kw =>
      plot_scalar_field s n i N d p kw
  | Call_plot_topo_g m G c d l n e => plot_topo_g m G c d l n e
  | Call_plot_gradient s gx gy gz n q d p =>
      plot_gradient s gx gy gz n q d p
  | Call_annotate_plot f l x y => annotate_plot f l x y
  end.

(** A session: the constructor, then any sequence of calls; a call that
    raises leaves the object as it was at that point and the session goes
    on (the caller caught the exception). *)
Definition run_all (cs : list call) (w : World) : World :=
  fold_left (fun w c => snd (run c w)) cs w.

(** ** What the specification expects of a direction *)

Definition valid_direction (d : string) : Prop :=
  d = "x"%string \/ d = "y"%string \/ d = "z"%string.

(** Axis numbers: x is 0, y is 1, z is 2.  The axis a direction fixes and
    the two it leaves free. *)
Definition fixed_axis (d : string) : nat :=
  if String.eqb d "x" then 0 else if String.eqb d "y" then 1 else 2.

Definition free_axes (d : string) : nat * nat :=
  if String.eqb d "x" then (1, 2)
  else if String.eqb d "y" then (0, 2)
  else (0, 1).

Definition res_of (g : Grid) (axis : nat) : nat :=
  nth axis (res_shape g) 0.

(** The resolution components of the two free axes. *)
Definition free_shape (g : Grid) (d : string) : list nat :=
  [res_of g (fst (free_axes d)); res_of g (snd (free_axes d))].

(** The positions, in the extent [(xmin, xmax, ymin, ymax, zmin, zmax)],
    of the bounds of the two free axes. *)
Definition expected_extent_positions (d : string) : list nat :=
  let '(a, b) := free_axes d in [2 * a; 2 * a + 1; 2 * b; 2 * b + 1].

Definition expected_labels (d : string) : string * string :=
  let name (a : nat) : string :=
    match a with 0 => "X" | 1 => "Y" | _ => "Z" end%string in
  (name (fst (free_axes d)), name (snd (free_axes d))).

Definition expected_gradient_labels (d : string) : string * string :=
  let name (a : nat) : string :=
    match a with 0 => "G_x" | 1 => "G_y" | _ => "G_z" end%string in
  (name (fst (free_axes d)), name (snd (free_axes d))).

(** A cell index numpy accepts on an axis of [n] cells. *)
Definition in_range (cell : Z) (n : nat) : Prop :=
  (- Z.of_nat n <= cell < Z.of_nat n)%Z.

(** The position an in-range integer index denotes. *)
Definition position (cell : Z) (n : nat) : nat :=
  Z.to_nat (if (cell <? 0)%Z then (cell + Z.of_nat n)%Z else cell).

(** [ceil(n / s)]. *)
Definition ceil_div (n : nat) (s : Z) : nat :=
  Z.to_nat ((Z.of_nat n + s - 1) / s).

(** The positions [::s] selects on an axis of [n] cells. *)
Definition strided (n : nat) (s : Z) : list nat :=
  map Z.to_nat (range_list 0 (Z.of_nat n) s).

(** The index tuple of a gradient plot: the cell number on the fixed axis,
    every [step]-th cell on the two free axes. *)
Definition gradient_index (d : string) (cell step : Z) : list index :=
  map (fun ax => if ax =? fixed_axis d then Int cell else every step)
      [0; 1; 2].

(** The gradient component, and the column of the grid coordinates, that
    belong to an axis. *)
Definition component (gx gy gz : ndarray) (axis : nat) : ndarray :=
  nth axis [gx; gy] gz.

(** The shape of a plotted vector-field array. *)
Definition quiver_shape (g : Grid) (d : string) (step : Z) : list nat :=
  [ceil_div (res_of g (snd (free_axes d))) step;
   ceil_div (res_of g (fst (free_axes d))) step].

(** Minimum and span of the extent along an axis. *)
Definition ext_min (g : Grid) (axis : nat) : Q :=
  nth (2 * axis) (extent g) 0%Q.

Definition ext_span (g : Grid) (axis : nat) : Q :=
  (nth (2 * axis + 1) (extent g) 0 - nth (2 * axis) (extent g) 0)%Q.

(** A centroid component brought into the extent of an axis: the
    component times (span over resolution), plus the minimum. *)
Definition scaled (g : Grid) (axis : nat) (v : Q) : Q :=
  (v * (ext_span g axis / inject_Z (Z.of_nat (res_of g axis)))
   + ext_min g axis)%Q.

(** Whether the centroids are two-dimensional, which the code reads off
    the first one. *)
Definition flat_centroids (centroids : centroid_map) : bool :=
  match centroids with
  | [] => false
  | (_, c) :: _ => length c =? 2
  end.

(** The projected axis (first or second) of a direction, and the
    component of a centroid that lies on it: the axis itself for a 3D
    centroid, 0 and 1 for a 2D one. *)
Definition projected_axis (d : string) (second : bool) : nat :=
  if second then snd (free_axes d) else fst (free_axes d).

Definition centroid_component (flat : bool) (d : string) (second : bool)
  : nat :=
  if flat then (if second then 1 else 0) else projected_axis d second.

(** The span of the extent along an axis, as the code subtracts it. *)
Definition span_expr (g : Grid) (axis : nat) : fexpr :=
  FSub (FVal (nth (2 * axis + 1) (extent g) 0%Q))
       (FVal (nth (2 * axis) (extent g) 0%Q)).

(** The locals of [plot_topo_g] are those of the direction [d]. *)
Definition axes_for (g : Grid) (centroids : centroid_map) (d : string)
    (t : TopoAxes) : Prop :=
  c1 t = Z.of_nat (centroid_component (flat_centroids centroids) d false) /\
  c2 t = Z.of_nat (centroid_component (flat_centroids centroids) d true) /\
  e1 t = span_expr g (projected_axis d false) /\
  e2 t = span_expr g (projected_axis d true) /\
  d1 t = ext_min g (projected_axis d false) /\
  d2 t = ext_min g (projected_axis d true) /\
  r1 t = res_of g (projected_axis d false) /\
  r2 t = res_of g (projected_axis d true).

(** The component of a centroid that lies on a projected axis: that of
    the axis for a centroid in space, the first or the second for a
    centroid that has two components. *)
Definition own_component (c : list Q) (d : string) (second : bool) : nat :=
  if length c =? 2 then (if second then 1 else 0)
  else projected_axis d second.

(** Centroids that all have the same number of components. *)
Definition same_dimension (centroids : centroid_map) : Prop :=
  exists k, Forall (fun nc => length (snd nc) = k) centroids.

(** The expression [e] has the value [q] in exact arithmetic. *)
Definition has_value (e : fexpr) (q : Q) : Prop :=
  exists q', fval e = Some q' /\ (q' == q)%Q.

(** [e] is the coordinate of node [n] on a projected axis: the component
    of its centroid for that axis, scaled into the extent. *)
Definition coord_ok (g : Grid) (centroids : centroid_map) (d : string)
    (second : bool) (n : Z) (e : fexpr) : Prop :=
  exists c v,
    PyDict.get Z.eqb centroids n = Some c /\
    nth_error c (own_component c d second) = Some v /\
    has_value e (scaled g (projected_axis d second) v).

(** A node whose centroid has a component for each projected axis. *)
Definition has_components (centroids : centroid_map) (d : string) (n : Z)
  : Prop :=
  exists c,
    PyDict.get Z.eqb centroids n = Some c /\
    own_component c d false < length c /\
    own_component c d true < length c.

(** The nodes of a graph: those it lists and the ends of its edges. *)
Definition on_graph (G : Graph) (n : Z) : Prop :=
  In n (nodes G) \/ In n (map fst (edges G)) \/ In n (map snd (edges G)).

(** What [plot_topo_g] may draw: an edge of the graph between the
    coordinates of its two nodes, and a marker and a label at the
    coordinates of a node. *)
Definition topo_event_ok (g : Grid) (G : Graph) (centroids : centroid_map)
    (d : string) (ev : event) : Prop :=
  match ev with
  | PlotLine [xa; xb] [ya; yb] _ =>
      exists a b, In (a, b) (edges G) /\
        coord_ok g centroids d false a xa /\
        coord_ok g centroids d false b xb /\
        coord_ok g centroids d true a ya /\
        coord_ok g centroids d true b yb
  | PlotMarker x y =>
      exists n, In n (nodes G) /\
        coord_ok g centroids d false n x /\
        coord_ok g centroids d true n y
  | Text x y n _ =>
      In n (nodes G) /\
      coord_ok g centroids d false n x /\
      coord_ok g centroids d true n y
  | _ => False
  end.

(** A computation that leaves the object alone, adds only events
    satisfying [P] to the trace, and returns only values satisfying [Q]. *)
Definition emits {A} (P : event -> Prop) (Q : A -> Prop) (c : M A) : Prop :=
  forall w, exists evs,
    snd (c w) = {| self := self w; trace := trace w ++ evs |} /\
    Forall P evs /\
    (forall a, fst (c w) = Ok a -> Q a).

(** The colour of the last row of the surfaces table named [k]. *)
Definition last_color (rows : list SurfaceRow) (k : string) : option string :=
  option_map color (find (fun r => String.eqb (surface r) k) (rev rows)).

(** A computation that leaves the object (and so the model it refers to
    and the colour lookup) as it found it, whether it returns or raises,
    and whose only effect is to add calls at the end of the trace. *)
Definition preserves {A} (c : M A) : Prop :=
  forall w, exists evs,
    snd (c w) = {| self := self w; trace := trace w ++ evs |}.

(** The index tuple of a section: the cell number on the fixed axis, the
    whole axis on the two free ones. *)
Definition section_index (d : string) (cell : Z) : list index :=
  map (fun ax => if ax =? fixed_axis d then Int cell else full) [0; 1; 2].

(** The upper bound of the extent along an axis. *)
Definition ext_max (g : Grid) (axis : nat) : Q :=
  nth (2 * axis + 1) (extent g) 0%Q.

(** The keyword arguments [plot_block_section] hands to [imshow]: those of
    the caller, with the object's colour map and norm where the caller
    gave none. *)
Definition imshow_kwargs (o : PlotData2D) (kw : kwargs) : kwargs :=
  set_default (set_default kw "cmap" (KwCmap (_cmap o)))
              "norm" (KwNorm (fst (_norm o)) (snd (_norm o))).

(** The legend of a block section: a patch (colour, label) per entry of
    the colour lookup. *)
Definition legend_patches (o : PlotData2D) : list (string * string) :=
  map (fun sc => (snd sc, fst sc)) (PyDict.items (_color_lot o)).

(** The scalar field [plot_scalar_field] plots: the row [series] of the
    solution's matrix, or the array handed over in place of a solution. *)
Definition scalar_field_of (solution : solution_arg) (series_ix : Z)
  : result ndarray :=
  match solution with
  | IsSolution s => getitem (scalar_field_matrix s) [Int series_ix]
  | NotSolution a => Ok a
  end.

(** The warning that goes with a bare array. *)
Definition bare_array_warning (solution : solution_arg) : list event :=
  match solution with
  | IsSolution _ => []
  | NotSolution _ => [Warn deprecation_msg]
  end.

(** The keyword arguments [plot_scalar_field] hands to the contour calls. *)
Definition contour_kwargs (kw : kwargs) : kwargs :=
  set_default kw "cmap" (KwStr "magma").

(** The message of the error for a direction that is not valid. *)
Definition direction_error (d : string) : exn :=
  AttributeError (d ++ "must be a cartesian direction, i.e. xyz")%string.

(** The rows of the surface points and of the orientations that
    [plot_data] keeps for [series="all"]: those whose series is in the index
    of the series table. *)
Definition points_in_series (m : Model) : list PointRow :=
  filter (fun r => inb (p_series r) (map fst (series_df (series m))))
         (sp_df (surface_points m)).

Definition orientations_in_series (m : Model) : list OrientRow :=
  filter (fun r => inb (o_series r) (map fst (series_df (series m))))
         (or_df (orientations m)).

(** The keyword arguments [plot_data] hands to the scatter plot. *)
Definition scatter_kwargs (kw : kwargs) : kwargs :=
  set_default kw "scatter_kws" default_scatter_kws.



(** What [_slice] returns for a direction, read off an extent of six
    values. *)
Definition slice_descr (g : Grid) (d : string) (cell : Z) : SliceDescr :=
  let ix ax := if ax =? fixed_axis d then Int cell
               else slice_to (res_of g ax) in
  {| sd_a := ix 0; sd_b := ix 1; sd_c := ix 2;
     sd_extent :=
       (if String.eqb d "z"
        then [ext_max g 0; ext_min g 1; ext_max g 1; ext_min g 2]
        else [ext_min g (fst (free_axes d)); ext_max g (fst (free_axes d));
              ext_min g 2; ext_max g 2]);
     sd_x := fst (expected_labels d); sd_y := snd (expected_labels d);
     sd_Gx := fst (expected_gradient_labels d);
     sd_Gy := snd (expected_gradient_labels d) |}.

(** The coordinate [plot_topo_g] computes for a node on the first or the
    second axis of the plot, [t] being the locals of the direction. *)
Definition node_xy (centroids : centroid_map) (t : TopoAxes) (second : bool)
    (n : Z) : fexpr :=
  match PyDict.get Z.eqb centroids n with
  | Some c =>
      if second
      then to_extent (nth (Z.to_nat (c2 t)) c 0%Q) (e2 t) (r2 t) (d2 t)
      else to_extent (nth (Z.to_nat (c1 t)) c 0%Q) (e1 t) (r1 t) (d1 t)
  | None => FVal 0
  end.

(** A node that has a centroid with the two components the direction
    needs. *)
Definition drawable (centroids : centroid_map) (d : string) (n : Z) : Prop :=
  exists c,
    PyDict.get Z.eqb centroids n = Some c /\
    centroid_component (flat_centroids centroids) d false < length c /\
    centroid_component (flat_centroids centroids) d true < length c.

(** What [plot_topo_g] draws for a graph: each edge, followed by the
    marker and the label of every node. *)
Definition topo_drawing (G : Graph) (X Y : Z -> fexpr) (lkw tkw : kwargs)
  : list event :=
  flat_map
    (fun e : Z * Z =>
       PlotLine [X (fst e); X (snd e)] [Y (fst e); Y (snd e)] lkw
       :: flat_map (fun n => [PlotMarker (X n) (Y n); Text (X n) (Y n) n tkw])
                   (nodes G))
    (edges G).

(** The keywords of the edges and of the labels of [plot_topo_g]: the
    defaults of the code, updated with those of the caller. *)
Definition topo_edge_kwargs (edge_kwargs : option kwargs) : kwargs :=
  merge_kw [("linewidth"%string, KwNum (3 # 4));
            ("color"%string, KwStr "black")] edge_kwargs.

Definition topo_label_kwargs (label_kwargs : option kwargs) : kwargs :=
  merge_kw [("color"%string, KwStr "white"); ("size"%string, KwNum 10);
            ("ha"%string, KwStr "center"); ("va"%string, KwStr "center");
            ("weight"%string, KwStr "ultralight");
            ("family"%string, KwStr "monospace")] label_kwargs.

(** The series flagged as faults, in the order of the table. *)
Definition flagged_faults (m : Model) : list string :=
  map fst (filter snd (form_series (faults m))).

(** A fault series [extract_fault_lines] can draw: it is in the series
    table, and its order, less one, is a row of the scalar fields and a
    colour of the colour map. *)
Definition fault_ready (o : PlotData2D) (rows : nat) (f : string) : Prop :=
  exists order,
    loc (series_df (series (model o))) f = Ok order /\
    in_range (order - 1) rows /\
    in_range (order - 1) (length (_cmap o)).

(** The contour drawn for the fault series [f]: the section of its scalar
    field, at the levels the field takes at the surface points of the
    series (zeros left out), in the colour of the series. *)
Definition fault_contour (o : PlotData2D) (ixs : list index) (ext : list Q)
    (f : string) (ev : event) : Prop :=
  let m := model o in
  exists order block row img col,
    loc (series_df (series m)) f = Ok order /\
    getitem (scalar_field_matrix (solutions m)) [Int (order - 1)] = Ok block /\
    getitem (scalar_field_at_surface_points (solutions m)) [Int (order - 1)]
    = Ok row /\
    (b3 <- reshape block (res_shape (grid m)) ;; getitem b3 ixs)%res = Ok img /\
    py_nth (_cmap o) (order - 1) = Ok col /\
    ev = ContourLevels (transpose img) ext (nonzero (data row)) col.

(** Column [k] (0 or 1) of a list of pairs laid out flat. *)
Definition column_of (k : nat) (l : list Q) : list Q :=
  map (fun i => nth (2 * i + k) l 0%Q) (seq 0 (Nat.div (length l) 2)).

(** The positions [::s] selects for a negative [s]: from the last cell
    backwards. *)
Definition strided_back (n : nat) (s : Z) : list nat :=
  map Z.to_nat (range_list (Z.of_nat n - 1) (-1) s).

(** ** A small model to evaluate the code on *)

Definition ex_resolution : nat * nat * nat := (2, 3, 4).

Definition ex_values : ndarray :=
  mk_ndarray [24; 3]
    (flat_map (map (fun i => inject_Z (Z.of_nat i)))
              (multi_indices [2; 3; 4])).

Definition ex_grid : Grid :=
  {| resolution := ex_resolution;
     extent := [0; 10; 0; 20; 0; 30]%Q;
     values := ex_values |}.

Definition ex_surfaces : Surfaces :=
  {| surfaces_columns := ["surface"; "series"; "color"; "id"]%string;
     surfaces_df := [ {| surface := "rock1"; color := "#015482" |};
                      {| surface := "rock2"; color := "#9f0052" |};
                      {| surface := "basement"; color := "#ffbe00" |} ] |}.

Definition ramp (n : nat) : list Q :=
  map (fun i => inject_Z (Z.of_nat i)) (seq 0 n).

Definition ex_solution : Solution :=
  {| lith_block := mk_ndarray [24] (ramp 24);
     fault_blocks := mk_ndarray [24] (map (fun q => (q + 100)%Q) (ramp 24));
     scalar_field_matrix := mk_ndarray [1; 24] (ramp 24);
     scalar_field_at_surface_points := mk_ndarray [1; 2] [1; 0]%Q |}.

Definition not_subscriptable {A} (_ : list bool) : result A :=
  Raise (TypeError "object is not subscriptable").

Definition ex_model : Model :=
  {| grid := ex_grid;
     surfaces := ex_surfaces;
     surface_points :=
       {| sp_df := [ {| p_X := 1; p_Y := 2; p_Z := 3;
                        p_series := "Strat"; p_surface := "rock1" |} ];
          sp_getitem := not_subscriptable |};
     orientations :=
       {| or_df := [ {| o_X := 1; o_Y := 2; o_Z := 3;
                        o_G_x := 0; o_G_y := 0; o_G_z := 1;
                        o_series := "Strat"; o_surface := "rock1" |} ];
          or_getitem := not_subscriptable |};
     series := {| series_df := [("Strat"%string, 1%Z)] |};
     faults := {| form_series := [("Strat"%string, false)] |};
     solutions := ex_solution;
     topography :=
       Some {| _line_in_section := fun _ _ =>
                 Ok (mk_ndarray [2; 2] [0; 25; 10; 27]%Q) |} |}.

Definition ex_world : World := __init__ ex_model [].

(** A string equal to ['lithology'] that is another object, as
    [''.join(['litho', 'logy'])] builds one. *)
Definition built_lithology : pystr := mk_pystr 7 "lithology".

Definition ex_graph : Graph := {| nodes := [1; 2]%Z; edges := [(1, 2)]%Z |}.

Definition ex_centroids : centroid_map :=
  [(1%Z, [1; 1; 1]%Q); (2%Z, [1; 2; 3]%Q)].

(** The same model with a fault series before the stratigraphic one. *)
Definition ex_fault_model : Model :=
  {| grid := ex_grid;
     surfaces := ex_surfaces;
     surface_points := surface_points ex_model;
     orientations := orientations ex_model;
     series := {| series_df := [("Fault"%string, 1%Z); ("Strat"%string, 2%Z)] |};
     faults := {| form_series := [("Fault"%string, true);
                                  ("Strat"%string, false)] |};
     solutions :=
       {| lith_block := mk_ndarray [24] (ramp 24);
          fault_blocks := mk_ndarray [24] (ramp 24);
          scalar_field_matrix := mk_ndarray [2; 24] (ramp 48);
          scalar_field_at_surface_points :=
            mk_ndarray [2; 2] [5; 0; 7; 9]%Q |};
     topography := None |}.

Definition ex_fault_world : World := __init__ ex_fault_model [].

(** * Properties *)

(** ** The slice selector *)

Lemma length_six {A} (l : list A) :
  length l = 6 -> exists a b c d e f, l = [a; b; c; d; e; f].
Proof.
  intros H.
  do 6 (destruct l as [|? l]; [discriminate H|]).
  destruct l; [|discriminate H].
  repeat eexists.
Qed.

(** The part of [_slice] that does what is expected of it: the free axes
    are the two slices over the whole resolution, the fixed one is the
    cell number, the labels are those of the free axes, and for "x" and
    "y" the extent is the bounds of the free axes. *)
Lemma slice_axes_and_labels (w : World) (d : string) (cell : Z) :
  valid_direction d ->
  length (extent (grid (model (self w)))) = 6 ->
  exists sd,
    _slice d cell w = (Ok sd, w) /\
    nth (fixed_axis d) [sd_a sd; sd_b sd; sd_c sd] full = Int cell /\
    nth (fst (free_axes d)) [sd_a sd; sd_b sd; sd_c sd] (Int 0)
    = slice_to (res_of (grid (model (self w))) (fst (free_axes d))) /\
    nth (snd (free_axes d)) [sd_a sd; sd_b sd; sd_c sd] (Int 0)
    = slice_to (res_of (grid (model (self w))) (snd (free_axes d))) /\
    (sd_x sd, sd_y sd) = expected_labels d /\
    (sd_Gx sd, sd_Gy sd) = expected_gradient_labels d /\
    (d <> "z"%string ->
     take (extent (grid (model (self w)))) (expected_extent_positions d)
     = Ok (sd_extent sd)).
Proof.
  intros Hd Hlen.
  destruct (length_six _ Hlen) as (x0 & x1 & y0 & y1 & z0 & z1 & He).
  unfold _slice, bind, get_model, lift, ret.
  destruct Hd as [-> | [-> | ->]]; cbn [String.eqb Ascii.eqb Bool.eqb];
    rewrite He; cbn; eexists; (split; [reflexivity|]); cbn;
    repeat split; congruence.
Qed.

(** C1: for the direction "z" the extent [_slice] returns is the
    positions 1 to 4 of the model's extent, (xmax, ymin, ymax, zmin),
    where the bounds of the two free axes x and y are the positions 0 to
    3, (xmin, xmax, ymin, ymax). *)
Theorem slice_z_extent_is_shifted (w : World) (cell : Z)
    (x0 x1 y0 y1 z0 z1 : Q) :
  extent (grid (model (self w))) = [x0; x1; y0; y1; z0; z1] ->
  exists sd,
    _slice "z" cell w = (Ok sd, w) /\
    sd_extent sd = [x1; y0; y1; z0] /\
    take (extent (grid (model (self w)))) (expected_extent_positions "z")
    = Ok [x0; x1; y0; y1].
Proof.
  intros He. unfold _slice, bind, get_model, lift, ret.
  cbn [String.eqb Ascii.eqb Bool.eqb]. rewrite He. cbn.
  eexists. repeat split.
Qed.

Lemma slice_z_extent_is_shifted_witness :
  exists sd,
    _slice "z" 1 ex_world = (Ok sd, ex_world) /\
    sd_extent sd = [10; 0; 20; 0]%Q /\
    take (extent (grid (model (self ex_world))))
         (expected_extent_positions "z")
    = Ok [0; 10; 0; 20]%Q.
Proof.
  apply (slice_z_extent_is_shifted ex_world 1 0 10 0 20 0 30).
  reflexivity.
Defined.

(** On the example model the extent returned for "z" is not the x and y
    bounds. *)
Example slice_z_extent_differs :
  forall sd, fst (_slice "z" 1 ex_world) = Ok sd ->
             sd_extent sd <> [0; 10; 0; 20]%Q.
Proof.
  intros sd H. cbv in H. inversion H; subst. cbn. discriminate.
Qed.

(** C2: for a direction that is none of "x", "y", "z", [_slice] raises
    the [AttributeError] and touches nothing; [_slice2D] prints a message
    and then fails on its [return], where the local [_slice] was never
    assigned: an [UnboundLocalError], not the [AttributeError]. *)
Theorem slice2D_invalid_direction (w : World) (d : string) (cell : Z) :
  d <> "x"%string -> d <> "y"%string -> d <> "z"%string ->
  _slice d cell w
  = (Raise (AttributeError
              (d ++ "must be a cartesian direction, i.e. xyz")%string), w)
  /\ _slice2D cell d w
     = (Raise (UnboundLocalError "_slice"),
        {| self := self w;
           trace := trace w ++ [PrintOut "not a direction"] |}).
Proof.
  intros Hx Hy Hz.
  apply String.eqb_neq in Hx, Hy, Hz.
  unfold _slice, _slice2D, bind, get_model, lift, ret, raise, emit, local.
  rewrite Hx, Hy, Hz. split; reflexivity.
Qed.

Lemma slice2D_invalid_direction_witness :
  _slice "w" 0 ex_world
  = (Raise (AttributeError "wmust be a cartesian direction, i.e. xyz"),
     ex_world)
  /\ _slice2D 0 "w" ex_world
     = (Raise (UnboundLocalError "_slice"),
        {| self := self ex_world;
           trace := trace ex_world ++ [PrintOut "not a direction"] |}).
Proof.
  apply (slice2D_invalid_direction ex_world "w" 0); discriminate.
Defined.

(** ** Slicing a reshaped block *)

Lemma range_list_step1 (n : nat) :
  map Z.to_nat (range_list 0 (Z.of_nat n) 1) = seq 0 n.
Proof.
  unfold range_list, range_len.
  assert (Hlen : Z.to_nat
            (if ((0 <? 1) && (0 <? Z.of_nat n))%Z
             then ((Z.of_nat n - 0 - 1) / 1 + 1)%Z
             else if ((1 <? 0) && (Z.of_nat n <? 0))%Z
                  then ((0 - Z.of_nat n - 1) / - (1) + 1)%Z else 0%Z) = n).
  { destruct n as [|n]; [reflexivity|].
    replace (0 <? Z.of_nat (S n))%Z with true by (symmetry; apply Z.ltb_lt; lia).
    cbn [andb Z.ltb Z.compare]. rewrite Z.div_1_r. lia. }
  rewrite Hlen, map_map.
  rewrite <- (map_id (seq 0 n)) at 2.
  apply map_ext. intros k. lia.
Qed.

Lemma resolve_slice_to (n : nat) :
  resolve (slice_to n) n = Ok (true, seq 0 n).
Proof.
  unfold resolve, slice_to, slice_indices.
  cbn [Z.eqb Z.ltb Z.compare rbind].
  replace (Z.of_nat n <? 0)%Z with false by (symmetry; apply Z.ltb_ge; lia).
  rewrite Z.min_id, Z.min_l by lia.
  rewrite range_list_step1. reflexivity.
Qed.

Lemma resolve_full (n : nat) :
  resolve full n = Ok (true, seq 0 n).
Proof.
  unfold resolve, full, slice_indices.
  cbn [Z.eqb Z.ltb Z.compare rbind].
  rewrite range_list_step1. reflexivity.
Qed.

Lemma resolve_int (cell : Z) (n : nat) :
  in_range cell n -> resolve (Int cell) n = Ok (false, [position cell n]).
Proof.
  intros [Hlo Hhi]. unfold resolve, position.
  replace (- Z.of_nat n <=? cell)%Z with true by (symmetry; apply Z.leb_le; lia).
  replace (cell <? Z.of_nat n)%Z with true by (symmetry; apply Z.ltb_lt; lia).
  reflexivity.
Qed.

Lemma position_lt (cell : Z) (n : nat) :
  in_range cell n -> position cell n < n.
Proof.
  intros [Hlo Hhi]. unfold position.
  destruct (Z.ltb_spec cell 0); lia.
Qed.

Lemma length_flat_map_const {A B} (f : A -> list B) (l : list A) (k : nat) :
  (forall x, length (f x) = k) -> length (flat_map f l) = length l * k.
Proof.
  intros Hf. induction l as [|x l IH]; [reflexivity|].
  cbn [flat_map length]. rewrite length_app, Hf, IH. lia.
Qed.

Lemma length_gather_offsets (sels : list (list nat)) :
  forall sh, length sels = length sh ->
    length (gather_offsets sels sh) = prod_list (map (@length nat) sels).
Proof.
  induction sels as [|ps sels IH]; intros [|n sh] Hlen;
    try discriminate Hlen; [reflexivity|].
  cbn [gather_offsets map prod_list fold_right].
  injection Hlen as Hlen.
  rewrite (length_flat_map_const _ ps (prod_list (map (@length nat) sels))).
  - reflexivity.
  - intros p. rewrite length_map. apply IH. exact Hlen.
Qed.

Lemma getitem_3d (a : ndarray) (n0 n1 n2 : nat) (i0 i1 i2 : index)
    (s0 s1 s2 : bool * list nat) :
  shape a = [n0; n1; n2] ->
  resolve i0 n0 = Ok s0 -> resolve i1 n1 = Ok s1 -> resolve i2 n2 = Ok s2 ->
  getitem a [i0; i1; i2]
  = Ok (mk_ndarray (kept_shape [s0; s1; s2])
          (map (fun o => nth o (data a) 0%Q)
               (gather_offsets [snd s0; snd s1; snd s2] [n0; n1; n2]))).
Proof.
  intros Hs H0 H1 H2. unfold getitem. rewrite Hs.
  cbn [resolve_all tl]. rewrite H0, H1, H2. reflexivity.
Qed.

Lemma size_getitem_3d (n0 n1 n2 : nat) (s0 s1 s2 : bool * list nat)
    (l : list Q) :
  size (mk_ndarray (kept_shape [s0; s1; s2])
          (map (fun o => nth o l 0%Q)
               (gather_offsets [snd s0; snd s1; snd s2] [n0; n1; n2])))
  = length (snd s0) * length (snd s1) * length (snd s2).
Proof.
  unfold size. cbn [data]. rewrite length_map.
  rewrite length_gather_offsets by reflexivity.
  cbn [map prod_list fold_right]. lia.
Qed.

Lemma reshape_res (g : Grid) (a : ndarray) :
  size a = res0 g * res1 g * res2 g ->
  reshape a (res_shape g) = Ok (mk_ndarray (res_shape g) (data a)).
Proof.
  intros Hsz. unfold reshape.
  replace (size a =? prod_list (res_shape g)) with true; [reflexivity|].
  symmetry. apply Nat.eqb_eq. rewrite Hsz.
  unfold res_shape. cbn [prod_list fold_right]. lia.
Qed.

(** C3: a flat array of [R0 * R1 * R2] values, reshaped to the grid and
    sliced at an in-range cell along a valid direction, with the indices of
    [_slice] or with those of [_slice2D], is the same two-dimensional array;
    its two dimensions are the resolution components of the two free axes
    and its size is their product.  What is drawn is its transpose. *)
Theorem reshape_slice_shape (w : World) (a : ndarray) (d : string)
    (cell : Z) :
  let g := grid (model (self w)) in
  length (extent g) = 6 ->
  size a = res0 g * res1 g * res2 g ->
  valid_direction d ->
  in_range cell (res_of g (fixed_axis d)) ->
  exists sd ixs ext a3 s,
    _slice d cell w = (Ok sd, w) /\
    _slice2D cell d w = (Ok (ixs, ext), w) /\
    reshape a (res_shape g) = Ok a3 /\
    getitem a3 [sd_a sd; sd_b sd; sd_c sd] = Ok s /\
    getitem a3 ixs = Ok s /\
    shape s = free_shape g d /\
    size s = res_of g (fst (free_axes d)) * res_of g (snd (free_axes d)) /\
    shape (transpose s) = rev (free_shape g d).
Proof.
  intros g Hlen Hsz Hd Hcell.
  destruct (length_six _ Hlen) as (x0 & x1 & y0 & y1 & z0 & z1 & He).
  pose proof (reshape_res g a Hsz) as Hre.
  pose proof (resolve_int cell _ Hcell) as Hint.
  unfold _slice, _slice2D, bind, get_model, lift, ret, local.
  fold g. rewrite He.
  destruct Hd as [-> | [-> | ->]];
    cbn [String.eqb Ascii.eqb Bool.eqb take nth_error rbind] in *;
    cbn [fixed_axis free_axes String.eqb Ascii.eqb Bool.eqb res_of nth
         res_shape fst snd] in Hint;
    do 5 eexists;
    (split; [reflexivity|]); (split; [reflexivity|]);
    (split; [exact Hre|]); cbn [sd_a sd_b sd_c];
    (split; [apply getitem_3d;
             [reflexivity | first [exact Hint | apply resolve_slice_to] ..]|]);
    (split; [erewrite getitem_3d;
             [ | reflexivity | first [exact Hint | apply resolve_full] ..];
             reflexivity|]);
    (split; [|split]).
  all: try (rewrite size_getitem_3d; cbn [snd length]; rewrite !length_seq;
            unfold free_axes, res_of, res_shape;
            cbn [String.eqb Ascii.eqb Bool.eqb nth fst snd]; lia).
  all: unfold transpose, kept_shape, free_shape, free_axes, res_of, res_shape;
    cbn [shape filter fst snd map length String.eqb Ascii.eqb Bool.eqb nth rev
         app];
    rewrite !length_seq; reflexivity.
Qed.

Lemma reshape_slice_shape_witness :
  exists sd ixs ext a3 s,
    _slice "y" 1 ex_world = (Ok sd, ex_world) /\
    _slice2D 1 "y" ex_world = (Ok (ixs, ext), ex_world) /\
    reshape (lith_block ex_solution) [2; 3; 4] = Ok a3 /\
    getitem a3 [sd_a sd; sd_b sd; sd_c sd] = Ok s /\
    getitem a3 ixs = Ok s /\
    shape s = [2; 4] /\
    size s = 2 * 4 /\
    shape (transpose s) = [4; 2].
Proof.
  apply (reshape_slice_shape ex_world (lith_block ex_solution) "y" 1).
  - reflexivity.
  - reflexivity.
  - right. left. reflexivity.
  - unfold in_range. cbn. lia.
Defined.

(** ** Frame: what a call leaves alone *)

Lemma world_eta (w : World) :
  w = {| self := self w; trace := trace w ++ [] |}.
Proof. destruct w as [o tr]. cbn. rewrite app_nil_r. reflexivity. Qed.

Lemma preserves_pure {A} (r : result A) : preserves (fun w => (r, w)).
Proof. intros w. exists []. apply world_eta. Qed.

Lemma preserves_ret {A} (a : A) : preserves (ret a).
Proof. apply preserves_pure. Qed.

Lemma preserves_raise {A} (e : exn) : preserves (@raise A e).
Proof. apply preserves_pure. Qed.

Lemma preserves_lift {A} (r : result A) : preserves (lift r).
Proof. apply preserves_pure. Qed.

Lemma preserves_get_self : preserves get_self.
Proof. intros w. exists []. apply world_eta. Qed.

Lemma preserves_get_model : preserves get_model.
Proof. intros w. exists []. apply world_eta. Qed.

Lemma preserves_emit (e : event) : preserves (emit e).
Proof. intros w. exists [e]. reflexivity. Qed.

Lemma preserves_local {A} (name : string) (v : option A) :
  preserves (local name v).
Proof. destruct v; apply preserves_pure. Qed.

Lemma preserves_bind {A B} (c : M A) (k : A -> M B) :
  preserves c -> (forall a, preserves (k a)) -> preserves (bind c k).
Proof.
  intros Hc Hk w. unfold bind.
  destruct (Hc w) as [evs Hw]. destruct (c w) as [[a | e] w']; cbn in Hw.
  - destruct (Hk a w') as [evs' Hw']. exists (evs ++ evs').
    rewrite Hw', Hw. cbn. rewrite app_assoc. reflexivity.
  - exists evs. exact Hw.
Qed.

Lemma preserves_for_each {A} (l : list A) (body : A -> M unit) :
  (forall x, preserves (body x)) -> preserves (for_each l body).
Proof.
  intros Hb. induction l as [|x l IH]; cbn [for_each].
  - apply preserves_ret.
  - apply preserves_bind; [apply Hb | intros _; exact IH].
Qed.

Lemma preserves_when (b : bool) (c : M unit) :
  preserves c -> preserves (when b c).
Proof. intros Hc. destruct b; [exact Hc | apply preserves_ret]. Qed.

Lemma preserves_self {A} (c : M A) (w : World) :
  preserves c -> self (snd (c w)) = self w.
Proof. intros Hc. destruct (Hc w) as [evs H]. rewrite H. reflexivity. Qed.

Create HintDb frame.
#[local] Hint Resolve preserves_ret preserves_raise preserves_lift
  preserves_get_self preserves_get_model preserves_emit preserves_local
  : frame.

(** One step of a frame proof: split a bind, a loop or a branch; leaves
    are closed from the hint database. *)
Ltac frame_step :=
  match goal with
  | |- preserves (bind _ _) => apply preserves_bind; [|intros]
  | |- preserves (for_each _ _) => apply preserves_for_each; intros
  | |- preserves (when _ _) => apply preserves_when
  | |- preserves (if ?b then _ else _) => destruct b
  | |- preserves (match ?x with _ => _ end) => destruct x
  | |- preserves (let '(_, _) := ?x in _) => destruct x
  | |- preserves _ => solve [auto with frame]
  end.

Ltac frame := repeat frame_step.

Lemma preserves_merge_keywords (fixed : list string) (kw : kwargs) :
  preserves (merge_keywords fixed kw).
Proof.
  unfold merge_keywords. destruct (duplicate_keyword fixed kw); auto with frame.
Qed.

#[local] Hint Resolve preserves_merge_keywords : frame.

Lemma preserves_set_style : preserves _set_style.
Proof. unfold _set_style. frame. Qed.

Lemma preserves_slice (d : string) (cell : Z) : preserves (_slice d cell).
Proof. unfold _slice. frame. Qed.

Lemma preserves_slice2D (cell : Z) (d : string) : preserves (_slice2D cell d).
Proof. unfold _slice2D. frame. Qed.

#[local] Hint Resolve preserves_set_style preserves_slice preserves_slice2D
  : frame.

Lemma preserves_plot_topography (cell : Z) (d : string) :
  preserves (plot_topography cell d).
Proof. unfold plot_topography. frame. Qed.

Lemma preserves_extract_fault_lines (cell : Z) (d : string) :
  preserves (extract_fault_lines cell d).
Proof. unfold extract_fault_lines. frame. Qed.

Lemma preserves_plot_data (d t s : string) (ve : Q) (kw : kwargs) :
  preserves (plot_data d t s ve kw).
Proof.
  unfold plot_data, _slice_default, lmplot_points, quiver_orientations.
  frame.
Qed.

#[local] Hint Resolve preserves_plot_topography preserves_extract_fault_lines
  preserves_plot_data : frame.

Lemma preserves_plot_block_section (s : Solution) (cell : Z) (b : block_arg)
    (d i : string) (p : bool) (bt : pystr) (ve : Q) (sf st : bool)
    (kw : kwargs) :
  preserves (plot_block_section s cell b d i p bt ve sf st kw).
Proof. unfold plot_block_section, select_block. frame. Qed.

Lemma preserves_plot_scalar_field (s : solution_arg) (cell ix N : Z)
    (d : string) (p : bool) (kw : kwargs) :
  preserves (plot_scalar_field s cell ix N d p kw).
Proof. unfold plot_scalar_field. frame. Qed.

#[local] Hint Resolve preserves_plot_block_section preserves_plot_scalar_field
  : frame.

Lemma preserves_plot_gradient (s : solution_arg) (gx gy gz : ndarray)
    (cell step : Z) (d : string) (p : bool) :
  preserves (plot_gradient s gx gy gz cell step d p).
Proof. unfold plot_gradient. frame. Qed.

Lemma preserves_plot_topo_g (m : Model) (G : Graph) (c : centroid_map)
    (d : string) (l n e : option kwargs) :
  preserves (plot_topo_g m G c d l n e).
Proof. unfold plot_topo_g, node_coord. frame. Qed.

Lemma preserves_annotate_plot (f : Frame) (l x y : string) :
  preserves (annotate_plot f l x y).
Proof. unfold annotate_plot. frame. Qed.

#[local] Hint Resolve preserves_plot_gradient preserves_plot_topo_g
  preserves_annotate_plot : frame.

(** [preserves] does tell computations apart: one that rebuilt the colour
    lookup would not satisfy it. *)
Example overwriting_is_not_preserving :
  ~ preserves (fun w : World =>
      (Ok tt, {| self := {| model := model (self w);
                            _color_lot := [];
                            _cmap := _cmap (self w);
                            _norm := _norm (self w) |};
                 trace := trace w |})).
Proof.
  intros H. destruct (H ex_world) as [evs Hw].
  apply (f_equal (fun w => _color_lot (self w))) in Hw.
  discriminate Hw.
Qed.

Lemma preserves_run (c : call) : preserves (run c).
Proof. destruct c; unfold run, discard; frame. Qed.

Lemma run_all_self (cs : list call) :
  forall w, self (run_all cs w) = self w.
Proof.
  induction cs as [|c cs IH]; intros w; [reflexivity|].
  unfold run_all in *. cbn [fold_left]. rewrite IH.
  apply preserves_self, preserves_run.
Qed.

(** C7: no operation of the class changes the model: after any call,
    whether it returned or raised, the model the object refers to is the
    one it referred to before, field by field; so it is after any
    sequence of calls. *)
Theorem model_never_mutated :
  (forall (c : call) (w : World),
      let m := model (self w) in
      let m' := model (self (snd (run c w))) in
      m' = m /\
      grid m' = grid m /\ surfaces m' = surfaces m /\
      surface_points m' = surface_points m /\
      orientations m' = orientations m /\
      series m' = series m /\ faults m' = faults m /\
      solutions m' = solutions m /\ topography m' = topography m) /\
  (forall (cs : list call) (m : Model) (tr : list event),
      model (self (run_all cs (__init__ m tr))) = m).
Proof.
  split.
  - intros c w m m'.
    assert (H : m' = m)
      by (unfold m', m; rewrite (preserves_self _ _ (preserves_run c));
          reflexivity).
    rewrite H. repeat split.
  - intros cs m tr. rewrite run_all_self. reflexivity.
Qed.

(** C9: the colour lookup is built by the constructor, from the surfaces
    table, and no operation changes it: it is the same after a call as
    before, and after any sequence of calls it is still what the
    constructor built. *)
Theorem color_lot_built_once :
  (forall (m : Model) (tr : list event),
      _color_lot (self (__init__ m tr)) = color_lot_of (surfaces m)) /\
  (forall (c : call) (w : World),
      _color_lot (self (snd (run c w))) = _color_lot (self w)) /\
  (forall (cs : list call) (m : Model) (tr : list event),
      _color_lot (self (run_all cs (__init__ m tr)))
      = color_lot_of (surfaces m)).
Proof.
  split; [|split].
  - intros m tr. reflexivity.
  - intros c w. rewrite (preserves_self _ _ (preserves_run c)). reflexivity.
  - intros cs m tr. rewrite run_all_self. reflexivity.
Qed.

(** ** Dictionaries *)

Section DictFacts.
Context {K V : Type} (eqb : K -> K -> bool).
Hypothesis eqb_eq : forall a b, eqb a b = true <-> a = b.

#[local] Abbreviation get := (PyDict.get eqb).
#[local] Abbreviation set := (PyDict.set eqb).
#[local] Abbreviation keys := (@PyDict.keys K V).

Lemma eqb_refl (a : K) : eqb a a = true.
Proof. apply eqb_eq. reflexivity. Qed.

Lemma in_keys_set (d : PyDict.t) (k : K) (v : V) (k' : K) :
  In k' (keys (set d k v)) <-> k' = k \/ In k' (keys d).
Proof.
  induction d as [|[k0 v0] d IH]; cbn [PyDict.set PyDict.keys map fst In].
  - intuition congruence.
  - destruct (eqb k0 k) eqn:E; cbn [map fst In].
    + apply eqb_eq in E. subst k0. intuition congruence.
    + unfold PyDict.keys in IH. rewrite IH. intuition congruence.
Qed.

Lemma NoDup_keys_set (d : PyDict.t) (k : K) (v : V) :
  NoDup (keys d) -> NoDup (keys (set d k v)).
Proof.
  induction d as [|[k0 v0] d IH]; cbn [PyDict.set PyDict.keys map fst];
    intros Hnd.
  - constructor; [intros [] | constructor].
  - destruct (eqb k0 k) eqn:E; cbn [map fst]; [exact Hnd|].
    inversion Hnd as [|? ? Hnotin Hnd']; subst.
    constructor.
    + intros Hin. apply in_keys_set in Hin. destruct Hin as [-> | Hin].
      * rewrite eqb_refl in E. discriminate E.
      * exact (Hnotin Hin).
    + apply IH. exact Hnd'.
Qed.

Lemma get_set (d : PyDict.t) (k : K) (v : V) (k' : K) :
  get (set d k v) k' = if eqb k k' then Some v else get d k'.
Proof.
  induction d as [|[k0 v0] d IH]; cbn [PyDict.set PyDict.get].
  - reflexivity.
  - destruct (eqb k0 k) eqn:E; cbn [PyDict.get].
    + apply eqb_eq in E. subst k0. destruct (eqb k k'); reflexivity.
    + rewrite IH. destruct (eqb k0 k') eqn:E'; [|reflexivity].
      apply eqb_eq in E'. subst k0.
      destruct (eqb k k') eqn:E2; [|reflexivity].
      apply eqb_eq in E2. subst k'. rewrite eqb_refl in E. discriminate E.
Qed.

Lemma get_items (d : PyDict.t) (k : K) (v : V) :
  NoDup (keys d) -> (In (k, v) (PyDict.items d) <-> get d k = Some v).
Proof.
  unfold PyDict.items.
  induction d as [|[k0 v0] d IH]; cbn [PyDict.keys map fst PyDict.get In];
    intros Hnd.
  - split; [intros [] | discriminate].
  - inversion Hnd as [|? ? Hnotin Hnd']; subst.
    destruct (eqb k0 k) eqn:E.
    + apply eqb_eq in E. subst k0. split.
      * intros [Heq | Hin]; [congruence|].
        exfalso. apply Hnotin. apply (in_map fst) in Hin. exact Hin.
      * intros Heq. left. congruence.
    + rewrite <- (IH Hnd'). split.
      * intros [Heq | Hin]; [|exact Hin].
        injection Heq as -> _. rewrite eqb_refl in E. discriminate E.
      * intros Hin. right. exact Hin.
Qed.

Lemma find_app {A} (f : A -> bool) (l1 l2 : list A) :
  find f (l1 ++ l2)
  = match find f l1 with Some x => Some x | None => find f l2 end.
Proof.
  induction l1 as [|x l1 IH]; cbn [app find]; [reflexivity|].
  destruct (f x); [reflexivity | exact IH].
Qed.

Lemma fold_set_facts (l : list (K * V)) :
  forall d : PyDict.t,
    let d' := fold_left (fun d kv => set d (fst kv) (snd kv)) l d in
    (NoDup (keys d) -> NoDup (keys d')) /\
    (forall k, In k (keys d') <-> In k (keys d) \/ In k (map fst l)) /\
    (forall k, get d' k = match PyDict.last_value eqb l k with
                          | Some v => Some v
                          | None => get d k
                          end).
Proof.
  induction l as [|[k0 v0] l IH]; intros d; cbn [fold_left fst snd].
  - cbn. intuition.
  - destruct (IH (set d k0 v0)) as (Hnd & Hin & Hget). cbn zeta in *.
    split; [|split].
    + intros H. apply Hnd. apply NoDup_keys_set. exact H.
    + intros k. rewrite Hin, in_keys_set. cbn [map fst In].
      intuition congruence.
    + intros k. rewrite Hget, get_set.
      unfold PyDict.last_value. cbn [rev]. rewrite find_app. cbn [find fst].
      destruct (find _ (rev l)); cbn [option_map]; [reflexivity|].
      destruct (eqb k0 k); reflexivity.
Qed.
End DictFacts.

(** ** The colour lookup *)

Lemma combine_columns {A B C} (f : A -> B) (g : A -> C) (l : list A) :
  combine (map f l) (map g l) = map (fun r => (f r, g r)) l.
Proof.
  induction l as [|x l IH]; [reflexivity|].
  cbn [map combine]. rewrite IH. reflexivity.
Qed.

Lemma find_map {A B} (p : B -> bool) (f : A -> B) (l : list A) :
  find p (map f l) = option_map f (find (fun x => p (f x)) l).
Proof.
  induction l as [|x l IH]; [reflexivity|].
  cbn [map find]. destruct (p (f x)); [reflexivity | exact IH].
Qed.

Lemma last_value_rows (rows : list SurfaceRow) (k : string) :
  PyDict.last_value String.eqb
    (map (fun r => (surface r, color r)) rows) k
  = last_color rows k.
Proof.
  unfold PyDict.last_value, last_color.
  rewrite <- map_rev, find_map. cbn [fst].
  destruct (find _ (rev rows)); reflexivity.
Qed.

(** C4: after construction the colour lookup has no duplicate keys, its
    keys are the distinct surface names of the surfaces table (each once),
    the value under a name is the colour of the (last) row of that name,
    and every entry is the name and colour of a row of the table. *)
Theorem color_lot_one_entry_per_surface (m : Model) (tr : list event) :
  let d := _color_lot (self (__init__ m tr)) in
  let rows := surfaces_df (surfaces m) in
  NoDup (PyDict.keys d) /\
  Permutation (PyDict.keys d) (nodup string_dec (map surface rows)) /\
  (forall k, PyDict.get String.eqb d k = last_color rows k) /\
  (forall k v, In (k, v) (PyDict.items d) <->
               PyDict.get String.eqb d k = Some v) /\
  (forall k v, In (k, v) (PyDict.items d) ->
               exists r, In r rows /\ surface r = k /\ color r = v).
Proof.
  intros d rows.
  assert (Hd : d = fold_left
                     (fun d kv => PyDict.set String.eqb d (fst kv) (snd kv))
                     (map (fun r => (surface r, color r)) rows) []).
  { unfold d, rows. cbn. unfold color_lot_of, PyDict.of_pairs, PyDict.empty.
    rewrite combine_columns. reflexivity. }
  destruct (fold_set_facts String.eqb String.eqb_eq
              (map (fun r => (surface r, color r)) rows) [])
    as (Hnd & Hin & Hget).
  cbn zeta in Hnd, Hin, Hget. rewrite <- Hd in Hnd, Hin, Hget.
  assert (Hnodup : NoDup (PyDict.keys d)) by (apply Hnd; constructor).
  assert (Hlook : forall k, PyDict.get String.eqb d k = last_color rows k).
  { intros k. rewrite Hget, last_value_rows.
    destruct (last_color rows k); reflexivity. }
  assert (Hitems : forall k v, In (k, v) (PyDict.items d) <->
                               PyDict.get String.eqb d k = Some v).
  { intros k v. apply (get_items String.eqb String.eqb_eq). exact Hnodup. }
  split; [exact Hnodup|]. split; [|split; [exact Hlook|split; [exact Hitems|]]].
  - apply NoDup_Permutation; [exact Hnodup | apply NoDup_nodup|].
    intros k. rewrite Hin, nodup_In, map_map. cbn.
    intuition.
  - intros k v H. apply Hitems in H. rewrite Hlook in H.
    unfold last_color in H.
    destruct (find _ (rev rows)) as [r|] eqn:Hf; [|discriminate H].
    apply find_some in Hf. destruct Hf as [Hr Hk].
    exists r. split; [apply in_rev; exact Hr|].
    split; [apply String.eqb_eq; exact Hk|].
    cbn in H. congruence.
Qed.

(** On the example model: three surfaces, three entries. *)
Example color_lot_example :
  _color_lot (self ex_world)
  = [("rock1", "#015482"); ("rock2", "#9f0052"); ("basement", "#ffbe00")]%string.
Proof. reflexivity. Qed.

(** A name listed twice is one entry, with the colour of its last row. *)
Example color_lot_duplicate_name :
  color_lot_of {| surfaces_columns := [];
                  surfaces_df := [ {| surface := "a"; color := "red" |};
                                   {| surface := "b"; color := "blue" |};
                                   {| surface := "a"; color := "green" |} ] |}
  = [("a", "green"); ("b", "blue")]%string.
Proof. reflexivity. Qed.

(** ** Selecting the block to plot *)

(** With the very object of the literal, the lithology block is plotted. *)
Example literal_lithology_plots_lith_block :
  trace (snd (plot_block_section ex_solution 1 (BStr lit_lithology) "y" "none"
                false lit_lithology 1 false false [] ex_world))
  = trace ex_world ++
    [ Imshow (mk_ndarray [4; 2] [4; 16; 5; 17; 6; 18; 7; 19]%Q)
             [0; 10; 0; 30]%Q "none" 1
             [("cmap"%string, KwCmap (_cmap (self ex_world)));
              ("norm"%string, KwNorm (1 # 2) (7 # 2))];
      LegendPatches [("#015482", "rock1"); ("#9f0052", "rock2");
                     ("#ffbe00", "basement")]%string;
      Xlabel "X"; Ylabel "Z" ].
Proof. reflexivity. Qed.

(** C5: the block type is compared by identity.  A string equal to
    'lithology' or to 'fault1' that is not the object of the literal
    selects no array: the call ends in the assertion on the surfaces'
    columns or, when that passes, in the unbound local [_block]; nothing
    is plotted. *)
Theorem block_type_compared_by_identity (w : World) (s : Solution)
    (cell : Z) (blk : pystr) (d i : string) (p : bool) (bt : pystr) (ve : Q)
    (sf st : bool) (kw : kwargs) :
  py_eq bt lit_lithology = true \/ py_eq bt lit_fault1 = true ->
  py_is bt lit_lithology = false ->
  py_is bt lit_fault1 = false ->
  exists e,
    plot_block_section s cell (BStr blk) d i p bt ve sf st kw w
    = (Raise e, w) /\
    (e = AssertionError assertion_msg \/ e = UnboundLocalError "_block").
Proof.
  intros _ Hl Hf.
  unfold plot_block_section, select_block, bind, get_model, ret, raise, local.
  rewrite Hl, Hf.
  destruct (inb (text bt) (surfaces_columns (surfaces (model (self w))))).
  - eexists. split; [reflexivity | right; reflexivity].
  - eexists. split; [reflexivity | left; reflexivity].
Qed.

Lemma block_type_compared_by_identity_witness :
  exists e,
    plot_block_section ex_solution 1 (BStr lit_lithology) "y" "none" false
      built_lithology 1 false true [] ex_world
    = (Raise e, ex_world) /\
    (e = AssertionError assertion_msg \/ e = UnboundLocalError "_block").
Proof.
  apply (block_type_compared_by_identity ex_world ex_solution 1 lit_lithology
           "y" "none" false built_lithology 1 false true []).
  - left. reflexivity.
  - reflexivity.
  - reflexivity.
Defined.

(** ** [plot_topography] and the direction *)

Lemma plot_topography_other_direction_raises (w : World) (cell : Z)
    (d : string) :
  d <> "x"%string -> d <> "y"%string ->
  exists e, plot_topography cell d w = (Raise e, w).
Proof.
  intros Hx Hy. apply String.eqb_neq in Hx, Hy.
  unfold plot_topography, bind, get_model, lift, ret, local, raise.
  rewrite Hx, Hy.
  destruct (topography (model (self w))) as [t|].
  - destruct (_line_in_section t cell d); eexists; reflexivity.
  - eexists; reflexivity.
Qed.

(** C10: [plot_topography] assigns its extent for "x" and "y" only.  For
    any other direction, "z" included, once the model's topography has
    returned its section line the call fails with the [UnboundLocalError]
    on [ext], not with the [AttributeError] of [_slice], and draws
    nothing. *)
Theorem plot_topography_only_x_y (w : World) (cell : Z) (d : string)
    (t : Topography) (line : ndarray) :
  d <> "x"%string -> d <> "y"%string ->
  topography (model (self w)) = Some t ->
  _line_in_section t cell d = Ok line ->
  plot_topography cell d w = (Raise (UnboundLocalError "ext"), w).
Proof.
  intros Hx Hy Ht Hline. apply String.eqb_neq in Hx, Hy.
  unfold plot_topography, bind, get_model, lift, ret, local, raise.
  rewrite Hx, Hy, Ht, Hline. reflexivity.
Qed.

Lemma plot_topography_only_x_y_witness :
  plot_topography 1 "z" ex_world
  = (Raise (UnboundLocalError "ext"), ex_world).
Proof.
  apply (plot_topography_only_x_y ex_world 1 "z"
           {| _line_in_section := fun _ _ =>
                Ok (mk_ndarray [2; 2] [0; 25; 10; 27]%Q) |}
           (mk_ndarray [2; 2] [0; 25; 10; 27]%Q)).
  - discriminate.
  - discriminate.
  - reflexivity.
  - reflexivity.
Defined.

(** The valid directions "x" and "y" do draw the topography. *)
Example plot_topography_y :
  plot_topography 1 "y" ex_world
  = (Ok tt, {| self := self ex_world;
               trace := trace ex_world ++
                        [Fill [0; 10; 10; 10; 0; 0]%Q
                              [25; 27; 25; 30; 30; 25]%Q] |}).
Proof. reflexivity. Qed.

(** ** The gradient plot *)

Lemma resolve_every (n : nat) (s : Z) :
  (0 < s)%Z -> resolve (every s) n = Ok (true, strided n s).
Proof.
  intros Hs. unfold resolve, every, slice_indices, strided.
  replace (s =? 0)%Z with false by (symmetry; apply Z.eqb_neq; lia).
  replace (s <? 0)%Z with false by (symmetry; apply Z.ltb_ge; lia).
  reflexivity.
Qed.

Lemma length_strided (n : nat) (s : Z) :
  (0 < s)%Z -> length (strided n s) = ceil_div n s.
Proof.
  intros Hs. unfold strided, range_list, range_len, ceil_div.
  rewrite !length_map, length_seq.
  replace (0 <? s)%Z with true by (symmetry; apply Z.ltb_lt; lia).
  replace (s <? 0)%Z with false by (symmetry; apply Z.ltb_ge; lia).
  cbn [andb]. destruct (Z.ltb_spec 0 (Z.of_nat n)) as [Hn | Hn].
  - f_equal.
    replace (Z.of_nat n + s - 1)%Z with (Z.of_nat n - 0 - 1 + 1 * s)%Z by lia.
    rewrite Z.div_add by lia. reflexivity.
  - replace (Z.of_nat n) with 0%Z by lia.
    rewrite Z.div_small by lia. reflexivity.
Qed.

Lemma reshape_slice_T_3d (g : Grid) (a : ndarray) (i0 i1 i2 : index)
    (s0 s1 s2 : bool * list nat) :
  size a = res0 g * res1 g * res2 g ->
  resolve i0 (res0 g) = Ok s0 ->
  resolve i1 (res1 g) = Ok s1 ->
  resolve i2 (res2 g) = Ok s2 ->
  exists U,
    reshape_slice_T g a [i0; i1; i2] = Ok U /\
    shape U = rev (kept_shape [s0; s1; s2]).
Proof.
  intros Hsz H0 H1 H2. unfold reshape_slice_T.
  rewrite (reshape_res g a Hsz). cbn [rbind].
  rewrite (getitem_3d (mk_ndarray (res_shape g) (data a))
             (res0 g) (res1 g) (res2 g) i0 i1 i2 s0 s1 s2 eq_refl H0 H1 H2).
  cbn [rbind]. eexists. split; reflexivity.
Qed.

Lemma coord_column (g : Grid) (k : Z) :
  shape (values g) = [res0 g * res1 g * res2 g; 3] ->
  (0 <= k < 3)%Z ->
  exists col,
    getitem (values g) [full; Int k] = Ok col /\
    size col = res0 g * res1 g * res2 g.
Proof.
  intros Hsh Hk. unfold getitem. rewrite Hsh.
  cbn [resolve_all tl]. rewrite resolve_full.
  rewrite (resolve_int k 3) by (unfold in_range; lia).
  cbn [rbind]. eexists. split; [reflexivity|].
  unfold size. cbn [data map snd]. rewrite length_map.
  rewrite length_gather_offsets by reflexivity.
  cbn [map prod_list fold_right length]. rewrite length_seq. lia.
Qed.

Lemma coord_slice_T_3d (g : Grid) (k : Z) (i0 i1 i2 : index)
    (s0 s1 s2 : bool * list nat) :
  shape (values g) = [res0 g * res1 g * res2 g; 3] ->
  (0 <= k < 3)%Z ->
  resolve i0 (res0 g) = Ok s0 ->
  resolve i1 (res1 g) = Ok s1 ->
  resolve i2 (res2 g) = Ok s2 ->
  exists X,
    coord_slice_T g k [i0; i1; i2] = Ok X /\
    shape X = rev (kept_shape [s0; s1; s2]).
Proof.
  intros Hsh Hk H0 H1 H2. unfold coord_slice_T.
  destruct (coord_column g k Hsh Hk) as (col & Hcol & Hsz).
  rewrite Hcol. cbn [rbind].
  apply reshape_slice_T_3d; assumption.
Qed.

(** The last five statements of a branch of [plot_gradient]. *)
Lemma quiver_tail (w : World) (rU rV rX rY : result ndarray)
    (U V X Y : ndarray) :
  rU = Ok U -> rV = Ok V -> rX = Ok X -> rY = Ok Y ->
  (U <- lift rU ;; V <- lift rV ;; X <- lift rX ;; Y <- lift rY ;;
   emit (Quiver X Y U V))%M w
  = (Ok tt, {| self := self w; trace := trace w ++ [Quiver X Y U V] |}).
Proof. intros -> -> -> ->. reflexivity. Qed.

Lemma run_when_ok (b : bool) (c : M unit) (w : World) :
  preserves c ->
  (b = true -> fst (c w) = Ok tt) ->
  exists evs,
    when b c w = (Ok tt, {| self := self w; trace := trace w ++ evs |}).
Proof.
  intros Hc Hok. destruct b; cbn [when].
  - destruct (Hc w) as [evs Hw]. exists evs.
    rewrite (surjective_pairing (c w)), (Hok eq_refl), Hw. reflexivity.
  - exists []. unfold ret. rewrite <- world_eta. reflexivity.
Qed.

Lemma bind_ok {A B} (c : M A) (k : A -> M B) (w w' : World) (a : A) :
  c w = (Ok a, w') -> bind c k w = k a w'.
Proof. intros H. unfold bind. rewrite H. reflexivity. Qed.

Lemma kept_shape_strided (n0 n1 : nat) (s : Z) (p : nat) (k : nat) :
  (0 < s)%Z ->
  nth k [ rev (kept_shape [(false, [p]); (true, strided n0 s);
                           (true, strided n1 s)]);
          rev (kept_shape [(true, strided n0 s); (false, [p]);
                           (true, strided n1 s)]);
          rev (kept_shape [(true, strided n0 s); (true, strided n1 s);
                           (false, [p])]) ] []
  = match k with
    | 0 | 1 | 2 => [ceil_div n1 s; ceil_div n0 s]
    | _ => []
    end.
Proof.
  intros Hs. unfold kept_shape.
  destruct k as [|[|[|k]]]; cbn [nth filter fst snd map rev app];
    rewrite ?length_strided by exact Hs; try reflexivity.
  destruct k; reflexivity.
Qed.

(** C6: for a valid direction, an in-range cell number and a positive
    stride, [plot_gradient] hands the plotting library one vector field:
    the two gradient components of the free axes and the two grid
    coordinate columns of the free axes, each reshaped to the grid, taken at
    the cell number on the fixed axis and at every stride-th cell on both
    free axes, and transposed; each of the four arrays has the shape
    [ceil(R_free2 / stride)] by [ceil(R_free1 / stride)].  (When the scalar
    field is asked for too, its plot comes first and has to succeed.) *)
Theorem plot_gradient_slices (w : World) (sf : solution_arg)
    (gx gy gz : ndarray) (cell step : Z) (d : string) (plot_scalar : bool) :
  let g := grid (model (self w)) in
  let n := res0 g * res1 g * res2 g in
  valid_direction d ->
  in_range cell (res_of g (fixed_axis d)) ->
  (0 < step)%Z ->
  size gx = n -> size gy = n -> size gz = n ->
  shape (values g) = [n; 3] ->
  (plot_scalar = true ->
   fst (plot_scalar_field sf cell 0 20 d false [] w) = Ok tt) ->
  exists evs X Y U V,
    plot_gradient sf gx gy gz cell step d plot_scalar w
    = (Ok tt, {| self := self w;
                 trace := trace w ++ evs ++ [Quiver X Y U V] |}) /\
    reshape_slice_T g (component gx gy gz (fst (free_axes d)))
                    (gradient_index d cell step) = Ok U /\
    reshape_slice_T g (component gx gy gz (snd (free_axes d)))
                    (gradient_index d cell step) = Ok V /\
    coord_slice_T g (Z.of_nat (fst (free_axes d)))
                  (gradient_index d cell step) = Ok X /\
    coord_slice_T g (Z.of_nat (snd (free_axes d)))
                  (gradient_index d cell step) = Ok Y /\
    shape U = quiver_shape g d step /\
    shape V = quiver_shape g d step /\
    shape X = quiver_shape g d step /\
    shape Y = quiver_shape g d step.
Proof.
  intros g n Hd Hcell Hstep Hgx Hgy Hgz Hval Hscalar.
  pose proof (resolve_int cell _ Hcell) as Hint.
  pose proof (fun k => resolve_every k step Hstep) as Hev.
  destruct (run_when_ok plot_scalar
              (plot_scalar_field sf cell 0 20 d false []) w
              (preserves_plot_scalar_field _ _ _ _ _ _ _) Hscalar)
    as [evs Hrun].
  unfold plot_gradient.
  rewrite (bind_ok get_model _ w w (model (self w)) eq_refl).
  fold g. cbv zeta.
  destruct Hd as [-> | [-> | ->]];
    cbn [String.eqb Ascii.eqb Bool.eqb fixed_axis free_axes res_of res_shape
         nth fst snd] in *;
    rewrite (bind_ok _ _ _ _ _ Hrun).
  - (* x *)
    destruct (reshape_slice_T_3d g gy _ _ _ _ _ _ Hgy Hint (Hev _) (Hev _))
      as (U & HU & HsU).
    destruct (reshape_slice_T_3d g gz _ _ _ _ _ _ Hgz Hint (Hev _) (Hev _))
      as (V & HV & HsV).
    destruct (coord_slice_T_3d g 1 _ _ _ _ _ _ Hval ltac:(lia)
                Hint (Hev _) (Hev _)) as (X & HX & HsX).
    destruct (coord_slice_T_3d g 2 _ _ _ _ _ _ Hval ltac:(lia)
                Hint (Hev _) (Hev _)) as (Y & HY & HsY).
    exists evs, X, Y, U, V.
    rewrite (quiver_tail _ _ _ _ _ U V X Y HU HV HX HY).
    cbn [self trace]. rewrite <- app_assoc.
    pose proof (kept_shape_strided (res1 g) (res2 g) step
                  (position cell (res0 g)) 0 Hstep) as Hk.
    cbn [nth] in Hk. unfold quiver_shape. cbn [res_of res_shape nth].
    rewrite HsU, HsV, HsX, HsY, Hk.
    repeat split; assumption.
  - (* y *)
    destruct (reshape_slice_T_3d g gx _ _ _ _ _ _ Hgx (Hev _) Hint (Hev _))
      as (U & HU & HsU).
    destruct (reshape_slice_T_3d g gz _ _ _ _ _ _ Hgz (Hev _) Hint (Hev _))
      as (V & HV & HsV).
    destruct (coord_slice_T_3d g 0 _ _ _ _ _ _ Hval ltac:(lia)
                (Hev _) Hint (Hev _)) as (X & HX & HsX).
    destruct (coord_slice_T_3d g 2 _ _ _ _ _ _ Hval ltac:(lia)
                (Hev _) Hint (Hev _)) as (Y & HY & HsY).
    exists evs, X, Y, U, V.
    rewrite (quiver_tail _ _ _ _ _ U V X Y HU HV HX HY).
    cbn [self trace]. rewrite <- app_assoc.
    pose proof (kept_shape_strided (res0 g) (res2 g) step
                  (position cell (res1 g)) 1 Hstep) as Hk.
    cbn [nth] in Hk. unfold quiver_shape. cbn [res_of res_shape nth].
    rewrite HsU, HsV, HsX, HsY, Hk.
    repeat split; assumption.
  - (* z *)
    destruct (reshape_slice_T_3d g gx _ _ _ _ _ _ Hgx (Hev _) (Hev _) Hint)
      as (U & HU & HsU).
    destruct (reshape_slice_T_3d g gy _ _ _ _ _ _ Hgy (Hev _) (Hev _) Hint)
      as (V & HV & HsV).
    destruct (coord_slice_T_3d g 0 _ _ _ _ _ _ Hval ltac:(lia)
                (Hev _) (Hev _) Hint) as (X & HX & HsX).
    destruct (coord_slice_T_3d g 1 _ _ _ _ _ _ Hval ltac:(lia)
                (Hev _) (Hev _) Hint) as (Y & HY & HsY).
    exists evs, X, Y, U, V.
    rewrite (quiver_tail _ _ _ _ _ U V X Y HU HV HX HY).
    cbn [self trace]. rewrite <- app_assoc.
    pose proof (kept_shape_strided (res0 g) (res1 g) step
                  (position cell (res2 g)) 2 Hstep) as Hk.
    cbn [nth] in Hk. unfold quiver_shape. cbn [res_of res_shape nth].
    rewrite HsU, HsV, HsX, HsY, Hk.
    repeat split; assumption.
Qed.

Lemma plot_gradient_slices_witness :
  exists evs X Y U V,
    plot_gradient (NotSolution (lith_block ex_solution))
      (lith_block ex_solution) (fault_blocks ex_solution)
      (lith_block ex_solution) 1 2 "y" true ex_world
    = (Ok tt, {| self := self ex_world;
                 trace := trace ex_world ++ evs ++ [Quiver X Y U V] |}) /\
    reshape_slice_T ex_grid (lith_block ex_solution)
                    [every 2; Int 1; every 2] = Ok U /\
    reshape_slice_T ex_grid (lith_block ex_solution)
                    [every 2; Int 1; every 2] = Ok V /\
    coord_slice_T ex_grid 0 [every 2; Int 1; every 2] = Ok X /\
    coord_slice_T ex_grid 2 [every 2; Int 1; every 2] = Ok Y /\
    shape U = [2; 1] /\ shape V = [2; 1] /\
    shape X = [2; 1] /\ shape Y = [2; 1].
Proof.
  apply (plot_gradient_slices ex_world (NotSolution (lith_block ex_solution))
           (lith_block ex_solution) (fault_blocks ex_solution)
           (lith_block ex_solution) 1 2 "y" true).
  - right. left. reflexivity.
  - unfold in_range. cbn. lia.
  - lia.
  - reflexivity.
  - reflexivity.
  - reflexivity.
  - reflexivity.
  - intros _. reflexivity.
Defined.

(** ** The topology graph *)

Lemma emits_pure {A} (P : event -> Prop) (Q : A -> Prop) (r : result A) :
  (forall a, r = Ok a -> Q a) -> emits P Q (fun w => (r, w)).
Proof.
  intros H w. exists []. cbn [fst snd].
  split; [apply world_eta | split; [constructor | exact H]].
Qed.

Lemma emits_emit (P : event -> Prop) (e : event) :
  P e -> emits P (fun _ => True) (emit e).
Proof.
  intros H w. exists [e].
  split; [reflexivity | split; [repeat constructor; exact H | trivial]].
Qed.

Lemma emits_bind {A B} (P : event -> Prop) (Q : A -> Prop) (R : B -> Prop)
    (c : M A) (k : A -> M B) :
  emits P Q c -> (forall a, Q a -> emits P R (k a)) -> emits P R (bind c k).
Proof.
  intros Hc Hk w. unfold bind.
  destruct (Hc w) as (evs & Hw & Hev & Hq).
  destruct (c w) as [[a | e] w']; cbn [fst snd] in *.
  - subst w'.
    destruct (Hk a (Hq a eq_refl) {| self := self w; trace := trace w ++ evs |})
      as (evs' & Hw' & Hev' & Hr).
    exists (evs ++ evs'). rewrite Hw'. cbn [self trace].
    rewrite app_assoc.
    split; [reflexivity | split; [apply Forall_app; split; assumption|]].
    exact Hr.
  - exists evs. split; [exact Hw | split; [exact Hev | discriminate]].
Qed.

Lemma emits_for_each {A} (P : event -> Prop) (l : list A)
    (body : A -> M unit) :
  (forall x, In x l -> emits P (fun _ => True) (body x)) ->
  emits P (fun _ => True) (for_each l body).
Proof.
  induction l as [|x l IH]; intros Hb; cbn [for_each].
  - apply emits_pure. trivial.
  - apply (emits_bind P (fun _ => True)).
    + apply Hb. left. reflexivity.
    + intros _ _. apply IH. intros y Hy. apply Hb. right. exact Hy.
Qed.

Lemma py_nth_nat {A} (l : list A) (k : nat) (v dflt : A) :
  py_nth l (Z.of_nat k) = Ok v ->
  nth_error l k = Some v /\ nth k l dflt = v.
Proof.
  unfold py_nth.
  destruct ((- Z.of_nat (length l) <=? Z.of_nat k)
            && (Z.of_nat k <? Z.of_nat (length l)))%Z; [|discriminate].
  replace (Z.of_nat k <? 0)%Z with false by (symmetry; apply Z.ltb_ge; lia).
  rewrite Nat2Z.id.
  destruct (nth_error l k) as [x|] eqn:E; [|discriminate].
  intros H. injection H as ->.
  split; [reflexivity | apply nth_error_nth; exact E].
Qed.

Lemma for_each_trace {A} (l : list A) (body : A -> M unit)
    (f : A -> list event) :
  (forall x, In x l -> forall w,
      body x w = (Ok tt, {| self := self w; trace := trace w ++ f x |})) ->
  forall w,
    for_each l body w
    = (Ok tt, {| self := self w; trace := trace w ++ flat_map f l |}).
Proof.
  induction l as [|x l IH]; intros Hb w; cbn [for_each flat_map].
  - unfold ret. rewrite <- world_eta. reflexivity.
  - rewrite (bind_ok _ _ _ _ _ (Hb x (or_introl eq_refl) w)).
    rewrite IH by (intros y Hy; apply Hb; right; exact Hy).
    cbn [self trace]. rewrite app_assoc. reflexivity.
Qed.

Lemma py_nth_ok {A} (l : list A) (k : nat) (dflt : A) :
  k < length l -> py_nth l (Z.of_nat k) = Ok (nth k l dflt).
Proof.
  intros Hk. unfold py_nth.
  replace (- Z.of_nat (length l) <=? Z.of_nat k)%Z with true
    by (symmetry; apply Z.leb_le; lia).
  replace (Z.of_nat k <? Z.of_nat (length l))%Z with true
    by (symmetry; apply Z.ltb_lt; lia).
  replace (Z.of_nat k <? 0)%Z with false by (symmetry; apply Z.ltb_ge; lia).
  cbn [andb]. rewrite Nat2Z.id.
  rewrite (nth_error_nth' l dflt Hk). reflexivity.
Qed.

Lemma first_is_2d_flat (centroids : centroid_map) (b : bool) :
  first_is_2d centroids = Ok b -> b = flat_centroids centroids.
Proof.
  unfold first_is_2d, flat_centroids, PyDict.items.
  destruct centroids as [|[n c] cs]; [discriminate|].
  intros H. injection H as <-. reflexivity.
Qed.

(** What a branch of [plot_topo_g] assigns, in the terms of the extent. *)
Lemma topo_branch_spec (geo : Model) (centroids : centroid_map)
    (ax1 ax2 : nat) (ra rb : nat) (t : TopoAxes) :
  topo_branch geo centroids (Z.of_nat ax1) (Z.of_nat ax2)
    (Z.of_nat (2 * ax1)) (Z.of_nat (2 * ax1 + 1))
    (Z.of_nat (2 * ax2)) (Z.of_nat (2 * ax2 + 1)) ra rb = Ok t ->
  c1 t = (if flat_centroids centroids then 0%Z else Z.of_nat ax1) /\
  c2 t = (if flat_centroids centroids then 1%Z else Z.of_nat ax2) /\
  e1 t = span_expr (grid geo) ax1 /\ e2 t = span_expr (grid geo) ax2 /\
  d1 t = ext_min (grid geo) ax1 /\ d2 t = ext_min (grid geo) ax2 /\
  r1 t = ra /\ r2 t = rb.
Proof.
  unfold topo_branch, span_expr, ext_min.
  set (ext := extent (grid geo)).
  destruct (py_nth ext (Z.of_nat (2 * ax1 + 1))) as [x_hi|] eqn:E1;
    [|discriminate].
  destruct (py_nth ext (Z.of_nat (2 * ax1))) as [x_lo|] eqn:E2;
    [|discriminate].
  destruct (py_nth ext (Z.of_nat (2 * ax2 + 1))) as [y_hi|] eqn:E3;
    [|discriminate].
  destruct (py_nth ext (Z.of_nat (2 * ax2))) as [y_lo|] eqn:E4;
    [|discriminate].
  cbn [rbind].
  destruct (first_is_2d centroids) as [flat|] eqn:E5; [|discriminate].
  cbn [rbind]. intros H. injection H as <-. cbn.
  apply first_is_2d_flat in E5. subst flat.
  apply (py_nth_nat _ _ _ 0%Q) in E1, E2, E3, E4.
  destruct E1 as [_ <-], E2 as [_ <-], E3 as [_ <-], E4 as [_ <-].
  repeat split.
Qed.

Lemma topo_axes_spec (geo : Model) (centroids : centroid_map) (d : string)
    (o : option TopoAxes) :
  valid_direction d ->
  topo_axes geo centroids d = Ok o ->
  exists t, o = Some t /\ axes_for (grid geo) centroids d t.
Proof.
  intros Hd. unfold topo_axes, axes_for.
  destruct Hd as [-> | [-> | ->]]; cbn [String.eqb Ascii.eqb Bool.eqb].
  - destruct (topo_branch geo centroids 1 2 2 3 4 5 _ _) as [t|] eqn:E;
      [|discriminate].
    intros H. injection H as <-. exists t. split; [reflexivity|].
    apply (topo_branch_spec geo centroids 1 2) in E.
    destruct E as (H1 & H2 & H3 & H4 & H5 & H6 & H7 & H8).
    unfold centroid_component, projected_axis, free_axes, res_of, res_shape.
    cbn [String.eqb Ascii.eqb Bool.eqb fst snd nth].
    rewrite H1, H2, H3, H4, H5, H6, H7, H8.
    destruct (flat_centroids centroids); repeat split.
  - destruct (topo_branch geo centroids 0 2 0 1 4 5 _ _) as [t|] eqn:E;
      [|discriminate].
    intros H. injection H as <-. exists t. split; [reflexivity|].
    apply (topo_branch_spec geo centroids 0 2) in E.
    destruct E as (H1 & H2 & H3 & H4 & H5 & H6 & H7 & H8).
    unfold centroid_component, projected_axis, free_axes, res_of, res_shape.
    cbn [String.eqb Ascii.eqb Bool.eqb fst snd nth].
    rewrite H1, H2, H3, H4, H5, H6, H7, H8.
    destruct (flat_centroids centroids); repeat split.
  - destruct (topo_branch geo centroids 0 1 0 1 2 3 _ _) as [t|] eqn:E;
      [|discriminate].
    intros H. injection H as <-. exists t. split; [reflexivity|].
    apply (topo_branch_spec geo centroids 0 1) in E.
    destruct E as (H1 & H2 & H3 & H4 & H5 & H6 & H7 & H8).
    unfold centroid_component, projected_axis, free_axes, res_of, res_shape.
    cbn [String.eqb Ascii.eqb Bool.eqb fst snd nth].
    rewrite H1, H2, H3, H4, H5, H6, H7, H8.
    destruct (flat_centroids centroids); repeat split.
Qed.

Lemma centroid_in (centroids : centroid_map) (n : Z) (c : list Q) :
  PyDict.get Z.eqb centroids n = Some c -> In (n, c) centroids.
Proof.
  induction centroids as [|[k v] l IH]; cbn [PyDict.get]; [discriminate|].
  destruct (Z.eqb k n) eqn:E.
  - intros H. injection H as ->. apply Z.eqb_eq in E. subst k.
    left. reflexivity.
  - intros H. right. exact (IH H).
Qed.

(** Among centroids of one dimension, the component a centroid has for an
    axis is the one the code reads off the first centroid. *)
Lemma own_component_first (centroids : centroid_map) (d : string)
    (second : bool) (n : Z) (c : list Q) :
  same_dimension centroids ->
  PyDict.get Z.eqb centroids n = Some c ->
  own_component c d second
  = centroid_component (flat_centroids centroids) d second.
Proof.
  intros [k Hk] Hc. apply centroid_in in Hc.
  unfold own_component, centroid_component, flat_centroids.
  destruct centroids as [|[n0 c0] cs]; [destruct Hc|].
  rewrite Forall_forall in Hk.
  pose proof (Hk (n, c) Hc) as H1.
  pose proof (Hk (n0, c0) (or_introl eq_refl)) as H2.
  cbn [snd] in H1, H2. rewrite H1, H2. reflexivity.
Qed.

(** With a positive resolution, the expression the code evaluates has the
    value of the scaled component. *)
Lemma to_extent_value (g : Grid) (ax : nat) (v : Q) :
  0 < res_of g ax ->
  has_value (to_extent v (span_expr g ax) (res_of g ax) (ext_min g ax))
            (scaled g ax v).
Proof.
  intros Hr. unfold has_value, to_extent, span_expr. cbn [fval fbin].
  destruct (Qeq_bool (inject_Z (Z.of_nat (res_of g ax))) 0) eqn:E.
  - apply Qeq_bool_eq in E. exfalso. unfold Qeq, inject_Z in E.
    cbn [Qnum Qden] in E. lia.
  - eexists. split; [reflexivity|].
    unfold scaled, ext_span, ext_min, Qdiv. ring.
Qed.

Lemma node_coord_spec (P : event -> Prop) (g : Grid)
    (centroids : centroid_map) (d : string) (t : TopoAxes) (second : bool)
    (n : Z) :
  axes_for g centroids d t ->
  same_dimension centroids ->
  0 < res_of g (projected_axis d false) ->
  0 < res_of g (projected_axis d true) ->
  emits P (coord_ok g centroids d second n)
        (node_coord centroids (Some t) second n).
Proof.
  intros (H1 & H2 & H3 & H4 & H5 & H6 & H7 & H8) Hsame Hr1 Hr2 w. exists [].
  unfold node_coord, bind, lift, local, ret, centroid_of.
  destruct (PyDict.get Z.eqb centroids n) as [c|] eqn:Ec; cbn [fst snd].
  2: { split; [apply world_eta | split; [constructor | discriminate]]. }
  destruct (py_nth c (if second then c2 t else c1 t)) as [v|] eqn:Ev;
    cbn [fst snd].
  2: { split; [apply world_eta | split; [constructor | discriminate]]. }
  split; [apply world_eta | split; [constructor|]].
  intros q Hq. injection Hq as <-.
  exists c, v. split; [exact Ec|].
  rewrite (own_component_first centroids d second n c Hsame Ec).
  destruct second.
  - rewrite H2 in Ev. apply (py_nth_nat _ _ _ v) in Ev.
    split; [exact (proj1 Ev)|].
    rewrite H4, H6, H8. apply to_extent_value. exact Hr2.
  - rewrite H1 in Ev. apply (py_nth_nat _ _ _ v) in Ev.
    split; [exact (proj1 Ev)|].
    rewrite H3, H5, H7. apply to_extent_value. exact Hr1.
Qed.

(** Whatever [plot_topo_g] draws, also in a run that fails on the way, is
    an edge of the graph or a marker or a label of one of its nodes, at
    the coordinates of the nodes. *)
Lemma plot_topo_g_emits (geo : Model) (G : Graph) (centroids : centroid_map)
    (d : string) (lk nk ek : option kwargs) :
  valid_direction d ->
  same_dimension centroids ->
  0 < res_of (grid geo) (projected_axis d false) ->
  0 < res_of (grid geo) (projected_axis d true) ->
  emits (topo_event_ok (grid geo) G centroids d) (fun _ => True)
        (plot_topo_g geo G centroids d lk nk ek).
Proof.
  intros Hd Hsame Hr1 Hr2. unfold plot_topo_g.
  apply (emits_bind _
           (fun o => exists t, o = Some t /\ axes_for (grid geo) centroids d t)).
  { apply emits_pure. intros o Ho. exact (topo_axes_spec _ _ _ _ Hd Ho). }
  intros o (t & -> & Hax). cbv zeta.
  pose proof (fun P second n =>
                node_coord_spec P _ _ _ _ second n Hax Hsame Hr1 Hr2) as Hnc.
  apply emits_for_each. intros [a b] Hedge.
  eapply emits_bind; [apply Hnc|intros xa Hxa].
  eapply emits_bind; [apply Hnc|intros xb Hxb].
  eapply emits_bind; [apply Hnc|intros ya Hya].
  eapply emits_bind; [apply Hnc|intros yb Hyb].
  eapply emits_bind.
  { apply emits_emit. cbn. exists a, b. repeat split; assumption. }
  intros _ _. apply emits_for_each. intros node Hnode.
  eapply emits_bind; [apply Hnc|intros x Hx].
  eapply emits_bind; [apply Hnc|intros y Hy].
  eapply emits_bind.
  { apply emits_emit. cbn. exists node. repeat split; assumption. }
  intros _ _.
  eapply emits_bind; [apply Hnc|intros x' Hx'].
  eapply emits_bind; [apply Hnc|intros y' Hy'].
  apply emits_emit. cbn. repeat split; assumption.
Qed.

Lemma topo_axes_ok (geo : Model) (centroids : centroid_map) (d : string) :
  valid_direction d ->
  length (extent (grid geo)) = 6 ->
  centroids <> [] ->
  exists t, topo_axes geo centroids d = Ok (Some t).
Proof.
  intros Hd Hlen Hne.
  destruct (length_six _ Hlen) as (x0 & x1 & y0 & y1 & z0 & z1 & He).
  destruct centroids as [|[n c] cs]; [contradiction|].
  unfold topo_axes, topo_branch, first_is_2d, PyDict.items.
  destruct Hd as [-> | [-> | ->]]; cbn [String.eqb Ascii.eqb Bool.eqb];
    rewrite He; eexists; reflexivity.
Qed.

Lemma node_coord_ok (w : World) (g : Grid) (centroids : centroid_map)
    (d : string) (t : TopoAxes) (second : bool) (n : Z) :
  axes_for g centroids d t ->
  drawable centroids d n ->
  node_coord centroids (Some t) second n w
  = (Ok (node_xy centroids t second n), w).
Proof.
  intros (H1 & H2 & _) (c & Hc & Hk1 & Hk2).
  unfold node_coord, node_xy, centroid_of, bind, lift, local, ret.
  rewrite Hc. destruct second.
  - rewrite H2, Nat2Z.id, (py_nth_ok c _ 0%Q Hk2). reflexivity.
  - rewrite H1, Nat2Z.id, (py_nth_ok c _ 0%Q Hk1). reflexivity.
Qed.

(** A run of [plot_topo_g] on a graph all of whose nodes have a centroid
    with the components the code reads. *)
Lemma plot_topo_g_run (w : World) (geo : Model) (G : Graph)
    (centroids : centroid_map) (d : string) (lk nk ek : option kwargs)
    (t : TopoAxes) :
  topo_axes geo centroids d = Ok (Some t) ->
  axes_for (grid geo) centroids d t ->
  (forall n, on_graph G n -> drawable centroids d n) ->
  plot_topo_g geo G centroids d lk nk ek w
  = (Ok tt,
     {| self := self w;
        trace := trace w ++
          topo_drawing G (node_xy centroids t false)
                       (node_xy centroids t true)
                       (topo_edge_kwargs ek) (topo_label_kwargs lk) |}).
Proof.
  intros Ht Hax Hdraw. unfold plot_topo_g.
  rewrite (bind_ok (lift _) _ w w (Some t) (f_equal (fun r => (r, w)) Ht)).
  cbv zeta. unfold topo_drawing.
  apply for_each_trace. intros [a b] Hedge w0.
  assert (Ha : drawable centroids d a).
  { apply Hdraw. right. left. apply (in_map fst) in Hedge. exact Hedge. }
  assert (Hb : drawable centroids d b).
  { apply Hdraw. right. right. apply (in_map snd) in Hedge. exact Hedge. }
  rewrite (bind_ok _ _ _ _ _ (node_coord_ok w0 _ _ _ _ false a Hax Ha)).
  rewrite (bind_ok _ _ _ _ _ (node_coord_ok w0 _ _ _ _ false b Hax Hb)).
  rewrite (bind_ok _ _ _ _ _ (node_coord_ok w0 _ _ _ _ true a Hax Ha)).
  rewrite (bind_ok _ _ _ _ _ (node_coord_ok w0 _ _ _ _ true b Hax Hb)).
  rewrite (bind_ok (emit _) _ w0 _ tt eq_refl).
  rewrite (for_each_trace (nodes G) _
             (fun n => [PlotMarker (node_xy centroids t false n)
                                   (node_xy centroids t true n);
                        Text (node_xy centroids t false n)
                             (node_xy centroids t true n) n
                             (topo_label_kwargs lk)])).
  - cbn [self trace fst snd]. rewrite <- app_assoc. reflexivity.
  - intros n Hn w1.
    assert (Hdn : drawable centroids d n) by (apply Hdraw; left; exact Hn).
    rewrite (bind_ok _ _ _ _ _ (node_coord_ok w1 _ _ _ _ false n Hax Hdn)).
    rewrite (bind_ok _ _ _ _ _ (node_coord_ok w1 _ _ _ _ true n Hax Hdn)).
    rewrite (bind_ok (emit _) _ w1 _ tt eq_refl).
    rewrite (bind_ok _ _ _ _ _ (node_coord_ok _ _ _ _ _ false n Hax Hdn)).
    rewrite (bind_ok _ _ _ _ _ (node_coord_ok _ _ _ _ _ true n Hax Hdn)).
    unfold emit. cbn [self trace]. rewrite <- app_assoc. reflexivity.
Qed.

(** Among centroids of one dimension, a node with its own components is
    one the code can draw, at the coordinates the claim gives. *)
Lemma has_components_drawable (centroids : centroid_map) (d : string)
    (n : Z) :
  same_dimension centroids ->
  has_components centroids d n -> drawable centroids d n.
Proof.
  intros Hsame (c & Hc & Hk1 & Hk2). exists c. split; [exact Hc|].
  rewrite <- !(own_component_first centroids d _ n c Hsame Hc).
  split; assumption.
Qed.

Lemma node_xy_coord (g : Grid) (centroids : centroid_map) (d : string)
    (t : TopoAxes) (second : bool) (n : Z) :
  axes_for g centroids d t ->
  same_dimension centroids ->
  0 < res_of g (projected_axis d false) ->
  0 < res_of g (projected_axis d true) ->
  has_components centroids d n ->
  coord_ok g centroids d second n (node_xy centroids t second n).
Proof.
  intros (H1 & H2 & H3 & H4 & H5 & H6 & H7 & H8) Hsame Hr1 Hr2
         (c & Hc & Hk1 & Hk2).
  exists c. unfold node_xy. rewrite Hc.
  pose proof (own_component_first centroids d second n c Hsame Hc) as Hown.
  destruct second.
  - exists (nth (own_component c d true) c 0%Q).
    split; [reflexivity|]. split; [apply nth_error_nth'; exact Hk2|].
    rewrite H2, Nat2Z.id, <- Hown, H4, H6, H8.
    apply to_extent_value. exact Hr2.
  - exists (nth (own_component c d false) c 0%Q).
    split; [reflexivity|]. split; [apply nth_error_nth'; exact Hk1|].
    rewrite H1, Nat2Z.id, <- Hown, H3, H5, H7.
    apply to_extent_value. exact Hr1.
Qed.

(** C8: for each of the three directions, centroids of one dimension and
    positive resolutions.  Everything [plot_topo_g] draws, also in a run
    that fails on the way, is an edge of the graph, or a marker or label of
    a node, and each of its coordinates on a projected axis has the value
    of the centroid's component for that axis times (the extent's span on
    the axis over the resolution of the axis) plus the extent's minimum on
    the axis.  And where the extent has six values and every node of the
    graph has a centroid with a component for both axes, the call returns
    and draws every edge and, under it, every node, at such coordinates.
    The coordinates are the floating-point expressions of the code; their
    values are taken in exact arithmetic. *)
Theorem plot_topo_g_coordinates (w : World) (geo : Model) (G : Graph)
    (centroids : centroid_map) (d : string) (lk nk ek : option kwargs) :
  valid_direction d ->
  0 < res_of (grid geo) (projected_axis d false) ->
  0 < res_of (grid geo) (projected_axis d true) ->
  same_dimension centroids ->
  (exists evs,
     snd (plot_topo_g geo G centroids d lk nk ek w)
     = {| self := self w; trace := trace w ++ evs |} /\
     Forall (topo_event_ok (grid geo) G centroids d) evs) /\
  (length (extent (grid geo)) = 6 ->
   centroids <> [] ->
   (forall n, on_graph G n -> has_components centroids d n) ->
   exists X Y : Z -> fexpr,
     plot_topo_g geo G centroids d lk nk ek w
     = (Ok tt,
        {| self := self w;
           trace := trace w ++
             topo_drawing G X Y (topo_edge_kwargs ek)
                          (topo_label_kwargs lk) |}) /\
     forall n, on_graph G n ->
       coord_ok (grid geo) centroids d false n (X n) /\
       coord_ok (grid geo) centroids d true n (Y n)).
Proof.
  intros Hd Hr1 Hr2 Hsame. split.
  - destruct (plot_topo_g_emits geo G centroids d lk nk ek Hd Hsame Hr1 Hr2 w)
      as (evs & Hw & Hev & _).
    exists evs. split; assumption.
  - intros Hlen Hne Hall.
    destruct (topo_axes_ok geo centroids d Hd Hlen Hne) as [t Ht].
    destruct (topo_axes_spec geo centroids d _ Hd Ht) as (t' & Heq & Hax).
    injection Heq as <-.
    exists (node_xy centroids t false), (node_xy centroids t true). split.
    + apply (plot_topo_g_run w geo G centroids d lk nk ek t Ht Hax).
      intros n Hn. apply has_components_drawable; [exact Hsame|].
      apply Hall. exact Hn.
    + intros n Hn. split;
        apply (node_xy_coord _ _ _ _ _ _ Hax Hsame Hr1 Hr2 (Hall n Hn)).
Qed.

Lemma plot_topo_g_coordinates_witness :
  (exists evs,
     snd (plot_topo_g ex_model ex_graph ex_centroids "y" None None None
            ex_world)
     = {| self := self ex_world; trace := trace ex_world ++ evs |} /\
     Forall (topo_event_ok ex_grid ex_graph ex_centroids "y") evs) /\
  (exists X Y : Z -> fexpr,
     plot_topo_g ex_model ex_graph ex_centroids "y" None None None ex_world
     = (Ok tt,
        {| self := self ex_world;
           trace := trace ex_world ++
             topo_drawing ex_graph X Y (topo_edge_kwargs None)
                          (topo_label_kwargs None) |}) /\
     forall n, on_graph ex_graph n ->
       coord_ok ex_grid ex_centroids "y" false n (X n) /\
       coord_ok ex_grid ex_centroids "y" true n (Y n)).
Proof.
  destruct (plot_topo_g_coordinates ex_world ex_model ex_graph ex_centroids
              "y" None None None) as [Hany Hrun].
  - right. left. reflexivity.
  - cbn. lia.
  - cbn. lia.
  - exists 3. repeat constructor.
  - split; [exact Hany|]. apply Hrun.
    + reflexivity.
    + discriminate.
    + intros n Hn. unfold on_graph in Hn. cbn in Hn.
      assert (H : n = 1%Z \/ n = 2%Z) by intuition congruence.
      destruct H as [-> | ->]; eexists; (split; [reflexivity|]); cbn;
        split; lia.
Defined.

(** On the example model, direction "y": the edge from node 1 to node 2
    and, under it, both nodes; x from component 0 scaled by 10 / 2, z from
    component 2 scaled by 30 / 4. *)
Example plot_topo_g_example :
  let value e := option_map Qred (fval e) in
  map (fun ev => match ev with
                 | PlotLine xs ys _ => (map value xs, map value ys)
                 | PlotMarker x y => ([value x], [value y])
                 | Text x y _ _ => ([value x], [value y])
                 | _ => ([], [])
                 end)
      (skipn 4 (trace (snd (plot_topo_g ex_model ex_graph ex_centroids "y"
                              None None None ex_world))))
  = [ ([Some 5; Some 5], [Some (15 # 2); Some (45 # 2)]);
      ([Some 5], [Some (15 # 2)]); ([Some 5], [Some (15 # 2)]);
      ([Some 5], [Some (45 # 2)]); ([Some 5], [Some (45 # 2)]) ]%Q.
Proof. reflexivity. Qed.

(** The expression of a coordinate is that of the code: the component
    times the span, over the resolution, plus the minimum. *)
Example plot_topo_g_expression :
  nth_error (trace (snd (plot_topo_g ex_model ex_graph ex_centroids "y"
                           None None None ex_world))) 5
  = Some (PlotMarker
            (FAdd (FDiv (FMul (FVal 1) (FSub (FVal 10) (FVal 0))) (FInt 2))
                  (FVal 0))
            (FAdd (FDiv (FMul (FVal 1) (FSub (FVal 30) (FVal 0))) (FInt 4))
                  (FVal 0))).
Proof. reflexivity. Qed.

(** * Further properties of the code *)

(** ** [plot_block_section]: the block argument *)

Lemma resolve_int_out (cell : Z) (n : nat) :
  ~ in_range cell n ->
  resolve (Int cell) n = Raise (IndexError "index is out of bounds for axis").
Proof.
  intros H. unfold resolve, in_range in *.
  destruct ((- Z.of_nat n <=? cell) && (cell <? Z.of_nat n))%Z eqn:E;
    [|reflexivity].
  apply andb_true_iff in E. destruct E as [E1 E2].
  apply Z.leb_le in E1. apply Z.ltb_lt in E2. exfalso. apply H. lia.
Qed.

Lemma slice_valid (w : World) (d : string) (cell : Z) :
  valid_direction d ->
  length (extent (grid (model (self w)))) = 6 ->
  exists sd,
    _slice d cell w = (Ok sd, w) /\
    [sd_a sd; sd_b sd; sd_c sd]
    = map (fun ax => if ax =? fixed_axis d then Int cell
                     else slice_to (res_of (grid (model (self w))) ax))
          [0; 1; 2].
Proof.
  intros Hd Hlen.
  destruct (length_six _ Hlen) as (x0 & x1 & y0 & y1 & z0 & z1 & He).
  unfold _slice, bind, get_model, lift, ret.
  destruct Hd as [-> | [-> | ->]]; cbn [String.eqb Ascii.eqb Bool.eqb];
    rewrite He; cbn; eexists; split; reflexivity.
Qed.

(** X1: called with the default [block=None], [plot_block_section] warns
    about the deprecated use and then fails on [None.reshape] with an
    [AttributeError], whatever the other arguments are; nothing is drawn. *)
Theorem plot_block_section_default_block (w : World) (s : Solution)
    (cell : Z) (d i : string) (p : bool) (bt : pystr) (ve : Q)
    (sf st : bool) (kw : kwargs) :
  plot_block_section s cell BNone d i p bt ve sf st kw w
  = (Raise (AttributeError "'NoneType' object has no attribute 'reshape'"),
     {| self := self w; trace := trace w ++ [Warn deprecation_msg] |}).
Proof. reflexivity. Qed.

Lemma reshape_wrong_size (g : Grid) (a : ndarray) :
  size a <> res0 g * res1 g * res2 g ->
  reshape a (res_shape g) = Raise (ValueError "cannot reshape array").
Proof.
  intros H. unfold reshape.
  replace (size a =? prod_list (res_shape g)) with false; [reflexivity|].
  symmetry. apply Nat.eqb_neq. intros E. apply H. rewrite E.
  unfold res_shape. cbn [prod_list fold_right]. lia.
Qed.

(** X2: an array passed as [block] whose size is not [R0 * R1 * R2] is
    refused with a [ValueError] right after the deprecation warning, before
    the direction is looked at: nothing is drawn, also for a direction
    that is not valid. *)
Theorem plot_block_section_wrong_size (w : World) (s : Solution) (cell : Z)
    (a : ndarray) (d i : string) (p : bool) (bt : pystr) (ve : Q)
    (sf st : bool) (kw : kwargs) :
  let g := grid (model (self w)) in
  size a <> res0 g * res1 g * res2 g ->
  plot_block_section s cell (BArr a) d i p bt ve sf st kw w
  = (Raise (ValueError "cannot reshape array"),
     {| self := self w; trace := trace w ++ [Warn deprecation_msg] |}).
Proof.
  intros g Hsz.
  cbv beta iota zeta delta
    [plot_block_section select_block bind emit ret get_model local lift
     reshape_obj].
  cbn [self trace]. fold g. rewrite (reshape_wrong_size g a Hsz).
  reflexivity.
Qed.

Lemma plot_block_section_wrong_size_witness :
  plot_block_section ex_solution 1 (BArr (mk_ndarray [3] [1; 2; 3]%Q))
    "nowhere" "none" true lit_lithology 1 true true [] ex_world
  = (Raise (ValueError "cannot reshape array"),
     {| self := self ex_world;
        trace := trace ex_world ++ [Warn deprecation_msg] |}).
Proof.
  apply (plot_block_section_wrong_size ex_world ex_solution 1
           (mk_ndarray [3] [1; 2; 3]%Q) "nowhere" "none" true lit_lithology
           1 true true []).
  cbn. discriminate.
Defined.

Lemma getitem_section_out (g : Grid) (l : list Q) (d : string) (cell : Z)
    (f : nat -> index) :
  valid_direction d ->
  ~ in_range cell (res_of g (fixed_axis d)) ->
  (forall ax, f ax = slice_to (res_of g ax) \/ f ax = full) ->
  getitem (mk_ndarray (res_shape g) l)
    (map (fun ax => if ax =? fixed_axis d then Int cell else f ax) [0; 1; 2])
  = Raise (IndexError "index is out of bounds for axis").
Proof.
  intros Hd Hout Hf.
  assert (Hres : forall ax, resolve (f ax) (res_of g ax)
                            = Ok (true, seq 0 (res_of g ax))).
  { intros ax. destruct (Hf ax) as [-> | ->];
      [apply resolve_slice_to | apply resolve_full]. }
  pose proof (resolve_int_out cell _ Hout) as Hint.
  pose proof (Hres 0) as H0. pose proof (Hres 1) as H1.
  pose proof (Hres 2) as H2.
  unfold getitem. cbn [shape res_shape].
  destruct Hd as [-> | [-> | ->]];
    cbn [map fixed_axis String.eqb Ascii.eqb Bool.eqb Nat.eqb resolve_all tl
         res_of res_shape nth] in *;
    rewrite ?H0, ?H1, ?H2, Hint; reflexivity.
Qed.

(** X3: a cell number outside the fixed axis (numpy takes
    [-R <= cell < R]) is not noticed by [_slice]; [plot_block_section] fails
    on the indexing with an [IndexError], having drawn nothing. *)
Theorem plot_block_section_cell_out_of_range (w : World) (s : Solution)
    (cell : Z) (a : ndarray) (d i : string) (bt : pystr) (ve : Q)
    (sf st : bool) (kw : kwargs) :
  let g := grid (model (self w)) in
  length (extent g) = 6 ->
  size a = res0 g * res1 g * res2 g ->
  valid_direction d ->
  ~ in_range cell (res_of g (fixed_axis d)) ->
  (exists sd, _slice d cell w = (Ok sd, w)) /\
  plot_block_section s cell (BArr a) d i false bt ve sf st kw w
  = (Raise (IndexError "index is out of bounds for axis"),
     {| self := self w; trace := trace w ++ [Warn deprecation_msg] |}).
Proof.
  intros g Hlen Hsz Hd Hout.
  set (w1 := {| self := self w; trace := trace w ++ [Warn deprecation_msg] |}).
  destruct (slice_valid w d cell Hd Hlen) as (sd0 & Hsd0 & _).
  destruct (slice_valid w1 d cell Hd Hlen) as (sd & Hsd & Hix).
  change (grid (model (self w1))) with g in Hix.
  split; [exists sd0; exact Hsd0|].
  unfold plot_block_section, select_block.
  unfold bind at 1. unfold bind at 1. unfold emit at 1. unfold ret at 1.
  fold w1.
  rewrite (bind_ok get_model _ w1 w1 (model (self w)) eq_refl).
  unfold local at 1. rewrite (bind_ok (ret (Some a)) _ w1 w1 _ eq_refl).
  unfold reshape_obj. fold g. rewrite (reshape_res g a Hsz).
  rewrite (bind_ok (lift _) _ w1 w1 _ eq_refl).
  rewrite (bind_ok _ _ _ _ _ Hsd).
  cbn [when]. rewrite (bind_ok (ret tt) _ w1 w1 _ eq_refl).
  rewrite (bind_ok get_self _ w1 w1 _ eq_refl).
  rewrite Hix.
  rewrite (getitem_section_out g (data a) d cell
             (fun ax => slice_to (res_of g ax)) Hd Hout
             (fun ax => or_introl eq_refl)).
  reflexivity.
Qed.

Lemma plot_block_section_cell_out_of_range_witness :
  (exists sd, _slice "y" 3 ex_world = (Ok sd, ex_world)) /\
  plot_block_section ex_solution 3 (BArr (lith_block ex_solution)) "y" "none"
    false lit_lithology 1 true true [] ex_world
  = (Raise (IndexError "index is out of bounds for axis"),
     {| self := self ex_world;
        trace := trace ex_world ++ [Warn deprecation_msg] |}).
Proof.
  apply (plot_block_section_cell_out_of_range ex_world ex_solution 3
           (lith_block ex_solution) "y" "none" lit_lithology 1 true true []).
  - reflexivity.
  - reflexivity.
  - right. left. reflexivity.
  - unfold in_range. cbn. lia.
Defined.

(** The image of a section: the same with the slices of [_slice] and
    with [:]; its transpose has the free axes reversed. *)
Lemma section_image (g : Grid) (a : ndarray) (d : string) (cell : Z) :
  size a = res0 g * res1 g * res2 g ->
  valid_direction d ->
  in_range cell (res_of g (fixed_axis d)) ->
  exists img,
    getitem (mk_ndarray (res_shape g) (data a))
      (map (fun ax => if ax =? fixed_axis d then Int cell
                      else slice_to (res_of g ax)) [0; 1; 2]) = Ok img /\
    (a3 <- reshape a (res_shape g) ;; getitem a3 (section_index d cell))%res
    = Ok img /\
    shape (transpose img) = rev (free_shape g d).
Proof.
  intros Hsz Hd Hcell.
  pose proof (resolve_int cell _ Hcell) as Hint.
  rewrite (reshape_res g a Hsz). cbn [rbind]. unfold section_index.
  destruct Hd as [-> | [-> | ->]];
    cbn [map fixed_axis free_axes String.eqb Ascii.eqb Bool.eqb Nat.eqb
         res_of res_shape nth fst snd] in *;
    eexists;
    (split; [apply getitem_3d;
             [reflexivity | first [exact Hint | apply resolve_slice_to] ..]|]);
    (split; [erewrite getitem_3d;
             [ | reflexivity | first [exact Hint | apply resolve_full] ..];
             reflexivity|]);
    unfold transpose, kept_shape, free_shape, free_axes, res_of, res_shape;
    cbn [shape filter fst snd map length String.eqb Ascii.eqb Bool.eqb nth rev
         app];
    rewrite !length_seq; reflexivity.
Qed.

Lemma aspect_of_direction (d : string) (ve : Q) :
  valid_direction d ->
  (if String.eqb d "x" || String.eqb d "y" then ve else 1%Q)
  = (if String.eqb d "z" then 1%Q else ve).
Proof. intros [-> | [-> | ->]]; reflexivity. Qed.

(** Setting a key that the call does not write out leaves the clash of
    keywords as it was. *)
Lemma duplicate_keyword_set (fixed : list string) (kw : kwargs) (k : string)
    (v : kwvalue) :
  inb k fixed = false ->
  duplicate_keyword fixed (PyDict.set String.eqb kw k v)
  = duplicate_keyword fixed kw.
Proof.
  intros Hk. unfold duplicate_keyword. f_equal.
  induction kw as [|[k0 v0] kw IH]; cbn [PyDict.set find fst].
  - rewrite Hk. reflexivity.
  - destruct (String.eqb k0 k) eqn:E; cbn [find fst].
    + apply String.eqb_eq in E. subst k0. rewrite Hk. reflexivity.
    + rewrite IH. reflexivity.
Qed.

Lemma duplicate_keyword_set_default (fixed : list string) (kw : kwargs)
    (k : string) (v : kwvalue) :
  inb k fixed = false ->
  duplicate_keyword fixed (set_default kw k v) = duplicate_keyword fixed kw.
Proof.
  intros Hk. unfold set_default.
  destruct (has_key kw k); [reflexivity|].
  apply duplicate_keyword_set. exact Hk.
Qed.

Lemma duplicate_keyword_imshow (o : PlotData2D) (kw : kwargs) :
  duplicate_keyword imshow_keywords (imshow_kwargs o kw)
  = duplicate_keyword imshow_keywords kw.
Proof.
  unfold imshow_kwargs.
  rewrite !duplicate_keyword_set_default by reflexivity. reflexivity.
Qed.

(** The run of [plot_block_section] once [_block] is bound to an array of
    the right size, [pre] being what selecting it added to the trace: the
    error of a keyword given twice, or the image, the legend and the
    labels. *)
Lemma block_section_run (w : World) (pre : list event) (s : Solution)
    (cell : Z) (block : block_arg) (a : ndarray) (d i : string) (bt : pystr)
    (ve : Q) (kw : kwargs) :
  let g := grid (model (self w)) in
  select_block s block bt w
  = (Ok (Some (Some a)), {| self := self w; trace := trace w ++ pre |}) ->
  length (extent g) = 6 ->
  size a = res0 g * res1 g * res2 g ->
  valid_direction d ->
  in_range cell (res_of g (fixed_axis d)) ->
  exists sd img,
    _slice d cell w = (Ok sd, w) /\
    (a3 <- reshape a (res_shape g) ;; getitem a3 (section_index d cell))%res
    = Ok img /\
    shape (transpose img) = rev (free_shape g d) /\
    plot_block_section s cell block d i false bt ve false false kw w
    = match duplicate_keyword imshow_keywords kw with
      | Some k =>
          (Raise (multiple_values k),
           {| self := self w; trace := trace w ++ pre |})
      | None =>
          (Ok tt,
           {| self := self w;
              trace := trace w ++ pre ++
                [ Imshow (transpose img) (sd_extent sd) i
                         (if String.eqb d "z" then 1%Q else ve)
                         (imshow_kwargs (self w) kw);
                  LegendPatches (legend_patches (self w));
                  Xlabel (sd_x sd); Ylabel (sd_y sd) ] |})
      end.
Proof.
  intros g Hsel Hlen Hsz Hd Hcell.
  set (w1 := {| self := self w; trace := trace w ++ pre |}) in *.
  destruct (slice_valid w d cell Hd Hlen) as (sd & Hsd & Hix).
  assert (Hsd1 : _slice d cell w1 = (Ok sd, w1)).
  { revert Hsd. unfold _slice, bind, get_model, lift, ret.
    change (model (self w1)) with (model (self w)).
    destruct Hd as [-> | [-> | ->]]; cbn [String.eqb Ascii.eqb Bool.eqb];
      destruct (take _ _); intros H; inversion H; reflexivity. }
  fold g in Hix.
  destruct (section_image g a d cell Hsz Hd Hcell) as (img & Himg & Hspec & Hsh).
  exists sd, img. repeat (split; [assumption|]).
  unfold plot_block_section.
  rewrite (bind_ok _ _ _ _ _ Hsel).
  rewrite (bind_ok get_model _ w1 w1 (model (self w)) eq_refl).
  unfold local at 1. rewrite (bind_ok (ret (Some a)) _ w1 w1 _ eq_refl).
  unfold reshape_obj. fold g. rewrite (reshape_res g a Hsz).
  rewrite (bind_ok (lift _) _ w1 w1 _ eq_refl).
  rewrite (bind_ok _ _ _ _ _ Hsd1).
  cbn [when negb]. rewrite (bind_ok (ret tt) _ w1 w1 _ eq_refl).
  rewrite (bind_ok get_self _ w1 w1 _ eq_refl).
  rewrite Hix, Himg, (aspect_of_direction d ve Hd).
  rewrite (bind_ok (lift (Ok img)) _ w1 w1 img eq_refl).
  change (set_default (set_default kw "cmap" (KwCmap (_cmap (self w1))))
            "norm" (KwNorm (fst (_norm (self w1))) (snd (_norm (self w1)))))
    with (imshow_kwargs (self w) kw).
  unfold merge_keywords. rewrite duplicate_keyword_imshow.
  destruct (duplicate_keyword imshow_keywords kw) as [k|].
  - reflexivity.
  - unfold bind, lift, emit, ret. cbn [self trace w1].
    unfold legend_patches. rewrite <- !app_assoc. reflexivity.
Qed.



(** X5: with a string as [block] and the very object of the literal as
    [block_type], and keywords of the caller that are none of those the
    call of [imshow] writes out, the array drawn is [solution.lith_block]
    for 'lithology' and [solution.fault_blocks] for 'fault1', without any
    warning. *)
Theorem plot_block_section_literal (w : World) (s : Solution) (cell : Z)
    (blk : pystr) (d i : string) (fault : bool) (ve : Q) (kw : kwargs) :
  let g := grid (model (self w)) in
  let bt := if fault then lit_fault1 else lit_lithology in
  let a := if fault then fault_blocks s else lith_block s in
  length (extent g) = 6 ->
  size a = res0 g * res1 g * res2 g ->
  valid_direction d ->
  in_range cell (res_of g (fixed_axis d)) ->
  duplicate_keyword imshow_keywords kw = None ->
  exists sd img,
    _slice d cell w = (Ok sd, w) /\
    (a3 <- reshape a (res_shape g) ;; getitem a3 (section_index d cell))%res
    = Ok img /\
    shape (transpose img) = rev (free_shape g d) /\
    plot_block_section s cell (BStr blk) d i false bt ve false false kw w
    = (Ok tt,
       {| self := self w;
          trace := trace w ++
            [ Imshow (transpose img) (sd_extent sd) i
                     (if String.eqb d "z" then 1%Q else ve)
                     (imshow_kwargs (self w) kw);
              LegendPatches (legend_patches (self w));
              Xlabel (sd_x sd); Ylabel (sd_y sd) ] |}).
Proof.
  intros g bt a Hlen Hsz Hd Hcell Hkw.
  destruct (block_section_run w [] s cell (BStr blk) a d i bt ve kw)
    as (sd & img & Hsd & Himg & Hsh & Hrun); try assumption.
  { unfold select_block, bt, a, ret.
    destruct fault; cbn; rewrite app_nil_r; destruct w; reflexivity. }
  rewrite Hkw in Hrun. exists sd, img. repeat (split; [assumption|]).
  exact Hrun.
Qed.

Lemma plot_block_section_literal_witness :
  exists sd img,
    _slice "z" 2 ex_world = (Ok sd, ex_world) /\
    (a3 <- reshape (fault_blocks ex_solution) [2; 3; 4] ;;
     getitem a3 [full; full; Int 2])%res = Ok img /\
    shape (transpose img) = [3; 2] /\
    plot_block_section ex_solution 2 (BStr lit_lithology) "z" "none" false
      lit_fault1 3 false false [("cmap"%string, KwStr "viridis")] ex_world
    = (Ok tt,
       {| self := self ex_world;
          trace := trace ex_world ++
            [ Imshow (transpose img) (sd_extent sd) "none" 1
                     (imshow_kwargs (self ex_world)
                        [("cmap"%string, KwStr "viridis")]);
              LegendPatches (legend_patches (self ex_world));
              Xlabel (sd_x sd); Ylabel (sd_y sd) ] |}).
Proof.
  apply (plot_block_section_literal ex_world ex_solution 2 lit_lithology
           "z" "none" true 3 [("cmap"%string, KwStr "viridis")]).
  - reflexivity.
  - reflexivity.
  - right. right. reflexivity.
  - unfold in_range. cbn. lia.
  - reflexivity.
Defined.

(** X6: with a string as [block], a [block_type] that is neither of the two
    literal objects never selects an array.  If it names a column of the
    surfaces table the assertion passes and the call fails on the unbound
    local [_block]; if not, the assertion fails.  Nothing is drawn. *)
Theorem plot_block_section_other_block_type (w : World) (s : Solution)
    (cell : Z) (blk : pystr) (d i : string) (p : bool) (bt : pystr) (ve : Q)
    (sf st : bool) (kw : kwargs) :
  py_is bt lit_lithology = false ->
  py_is bt lit_fault1 = false ->
  plot_block_section s cell (BStr blk) d i p bt ve sf st kw w
  = (Raise (if inb (text bt) (surfaces_columns (surfaces (model (self w))))
            then UnboundLocalError "_block"
            else AssertionError assertion_msg), w).
Proof.
  intros Hl Hf.
  unfold plot_block_section, select_block, bind, get_model, ret, raise, local.
  rewrite Hl, Hf.
  destruct (inb (text bt) (surfaces_columns (surfaces (model (self w)))));
    reflexivity.
Qed.

Lemma plot_block_section_other_block_type_witness :
  plot_block_section ex_solution 1 (BStr lit_lithology) "y" "none" false
    (mk_pystr 9 "id") 1 false true [] ex_world
  = (Raise (UnboundLocalError "_block"), ex_world).
Proof.
  apply (plot_block_section_other_block_type ex_world ex_solution 1
           lit_lithology "y" "none" false (mk_pystr 9 "id") 1 false true []);
    reflexivity.
Defined.

(** ** [plot_scalar_field] *)

Lemma slice_same_object (w w1 : World) (d : string) (cell : Z)
    (sd : SliceDescr) :
  self w1 = self w ->
  _slice d cell w = (Ok sd, w) -> _slice d cell w1 = (Ok sd, w1).
Proof.
  intros Hs. unfold _slice, bind, get_model, lift, ret, raise. rewrite Hs.
  destruct (String.eqb d "x"); [destruct (take _ _); intros H; inversion H;
                                reflexivity|].
  destruct (String.eqb d "y"); [destruct (take _ _); intros H; inversion H;
                                reflexivity|].
  destruct (String.eqb d "z"); [destruct (take _ _); intros H; inversion H;
                                reflexivity|].
  intros H. inversion H.
Qed.

Lemma has_key_set_default {V} (kw : list (string * V)) (k k' : string)
    (v : V) :
  k <> k' -> has_key (set_default kw k v) k' = has_key kw k'.
Proof.
  intros Hk. unfold set_default. destruct (has_key kw k); [reflexivity|].
  unfold has_key, PyDict.mem.
  rewrite (get_set String.eqb String.eqb_eq).
  apply String.eqb_neq in Hk. rewrite Hk. reflexivity.
Qed.

Lemma select_scalar_field (w : World) (sol : solution_arg) (series_ix : Z)
    (a : ndarray) :
  scalar_field_of sol series_ix = Ok a ->
  match sol with
  | IsSolution s => lift (getitem (scalar_field_matrix s) [Int series_ix])
  | NotSolution a => (emit (Warn deprecation_msg) ;;; ret a)%M
  end w
  = (Ok a, {| self := self w;
              trace := trace w ++ bare_array_warning sol |}).
Proof.
  destruct sol as [s | a0]; cbn [scalar_field_of bare_array_warning].
  - intros H. unfold lift. rewrite H, app_nil_r. destruct w; reflexivity.
  - intros H. injection H as ->. reflexivity.
Qed.

(** X7: [plot_scalar_field] (without the data) draws the scalar field, the
    row [series] of the solution's matrix or the bare array it was given
    (with a warning), twice: as contour lines and as filled contours of
    the same transposed section, with the same [N], extent and keywords of
    the caller, the colour map being 'magma' unless the caller names one,
    and the filled contours with alpha 0.6.  A colour bar is added exactly
    when the caller passed a 'colorbar' keyword.  Then come the axis
    labels.  The caller's keywords are merged into those the two calls
    write out: an 'extent' of the caller fails the first call with the
    [TypeError] of a keyword given twice, before anything is drawn, and an
    'alpha' fails the second, once the contour lines are drawn. *)
Theorem plot_scalar_field_draws (w : World) (sol : solution_arg)
    (cell series_ix N : Z) (d : string) (kw : kwargs) (a : ndarray) :
  let g := grid (model (self w)) in
  scalar_field_of sol series_ix = Ok a ->
  size a = res0 g * res1 g * res2 g ->
  length (extent g) = 6 ->
  valid_direction d ->
  in_range cell (res_of g (fixed_axis d)) ->
  exists sd img,
    _slice d cell w = (Ok sd, w) /\
    (a3 <- reshape a (res_shape g) ;; getitem a3 (section_index d cell))%res
    = Ok img /\
    shape (transpose img) = rev (free_shape g d) /\
    plot_scalar_field sol cell series_ix N d false kw w
    = match duplicate_keyword contour_keywords kw,
            duplicate_keyword contourf_keywords kw with
      | Some k, _ =>
          (Raise (multiple_values k),
           {| self := self w;
              trace := trace w ++ bare_array_warning sol |})
      | None, Some k =>
          (Raise (multiple_values k),
           {| self := self w;
              trace := trace w ++ bare_array_warning sol ++
                [ Contour (transpose img) N (sd_extent sd)
                          (contour_kwargs kw) ] |})
      | None, None =>
          (Ok tt,
           {| self := self w;
              trace := trace w ++ bare_array_warning sol ++
                [ Contour (transpose img) N (sd_extent sd)
                          (contour_kwargs kw);
                  Contourf (transpose img) N (sd_extent sd) (6 # 10)
                           (contour_kwargs kw) ]
                ++ (if has_key kw "colorbar" then [Colorbar] else [])
                ++ [Xlabel (sd_x sd); Ylabel (sd_y sd)] |})
      end.
Proof.
  intros g Hsel Hsz Hlen Hd Hcell.
  set (w1 := {| self := self w;
                trace := trace w ++ bare_array_warning sol |}).
  destruct (slice_valid w d cell Hd Hlen) as (sd & Hsd & Hix).
  pose proof (slice_same_object w w1 d cell sd eq_refl Hsd) as Hsd1.
  fold g in Hix.
  destruct (section_image g a d cell Hsz Hd Hcell) as (img & Himg & Hspec & Hsh).
  exists sd, img. repeat (split; [assumption|]).
  unfold plot_scalar_field.
  rewrite (bind_ok _ _ _ _ _ (select_scalar_field w sol series_ix a Hsel)).
  fold w1. cbv zeta. cbn [when].
  rewrite (bind_ok (ret tt) _ w1 w1 _ eq_refl).
  rewrite (bind_ok _ _ _ _ _ Hsd1).
  rewrite (bind_ok get_model _ w1 w1 (model (self w)) eq_refl).
  fold g. rewrite (reshape_res g a Hsz), Hix.
  rewrite (bind_ok (lift _) _ w1 w1 _ eq_refl).
  rewrite Himg.
  rewrite (bind_ok (lift (Ok img)) _ w1 w1 img eq_refl).
  rewrite (has_key_set_default kw "cmap" "colorbar") by discriminate.
  unfold merge_keywords.
  rewrite !duplicate_keyword_set_default by reflexivity.
  unfold contour_kwargs.
  destruct (duplicate_keyword contour_keywords kw) as [k|]; [reflexivity|].
  destruct (duplicate_keyword contourf_keywords kw) as [k|];
    destruct (has_key kw "colorbar");
    repeat first
      [ rewrite (reshape_res g a Hsz) | rewrite Hix | rewrite Himg
      | progress cbv beta iota zeta delta [bind lift emit ret raise when]
      | progress cbn [self trace w1] ];
    rewrite <- ?app_assoc; reflexivity.
Qed.

Lemma plot_scalar_field_draws_witness :
  (exists sd img,
    _slice "y" 1 ex_world = (Ok sd, ex_world) /\
    (a3 <- reshape (mk_ndarray [24] (ramp 24)) [2; 3; 4] ;;
     getitem a3 [full; Int 1; full])%res = Ok img /\
    shape (transpose img) = [4; 2] /\
    plot_scalar_field (IsSolution ex_solution) 1 0 20 "y" false
      [("colorbar"%string, KwStr "yes")] ex_world
    = (Ok tt,
       {| self := self ex_world;
          trace := trace ex_world ++ [] ++
            [ Contour (transpose img) 20 (sd_extent sd)
                (contour_kwargs [("colorbar"%string, KwStr "yes")]);
              Contourf (transpose img) 20 (sd_extent sd) (6 # 10)
                (contour_kwargs [("colorbar"%string, KwStr "yes")]) ]
            ++ [Colorbar]
            ++ [Xlabel (sd_x sd); Ylabel (sd_y sd)] |})) /\
  (exists sd img,
    _slice "y" 1 ex_world = (Ok sd, ex_world) /\
    (a3 <- reshape (mk_ndarray [24] (ramp 24)) [2; 3; 4] ;;
     getitem a3 [full; Int 1; full])%res = Ok img /\
    shape (transpose img) = [4; 2] /\
    plot_scalar_field (IsSolution ex_solution) 1 0 20 "y" false
      [("alpha"%string, KwNum 1)] ex_world
    = (Raise (TypeError "got multiple values for keyword argument 'alpha'"),
       {| self := self ex_world;
          trace := trace ex_world ++ [] ++
            [ Contour (transpose img) 20 (sd_extent sd)
                (contour_kwargs [("alpha"%string, KwNum 1)]) ] |})).
Proof.
  split.
  - apply (plot_scalar_field_draws ex_world (IsSolution ex_solution) 1 0 20
             "y" [("colorbar"%string, KwStr "yes")]
             (mk_ndarray [24] (ramp 24))).
    + reflexivity.
    + reflexivity.
    + reflexivity.
    + right. left. reflexivity.
    + unfold in_range. cbn. lia.
  - apply (plot_scalar_field_draws ex_world (IsSolution ex_solution) 1 0 20
             "y" [("alpha"%string, KwNum 1)] (mk_ndarray [24] (ramp 24))).
    + reflexivity.
    + reflexivity.
    + reflexivity.
    + right. left. reflexivity.
    + unfold in_range. cbn. lia.
Defined.

(** ** A direction that is not valid *)

Lemma slice_invalid (w : World) (d : string) (cell : Z) :
  d <> "x"%string -> d <> "y"%string -> d <> "z"%string ->
  _slice d cell w = (Raise (direction_error d), w).
Proof.
  intros Hx Hy Hz. apply String.eqb_neq in Hx, Hy, Hz.
  unfold _slice, bind, get_model, raise. rewrite Hx, Hy, Hz. reflexivity.
Qed.

Lemma bind_raise {A B} (c : M A) (k : A -> M B) (w w' : World) (e : exn) :
  c w = (Raise e, w') -> bind c k w = (Raise e, w').
Proof. intros H. unfold bind. rewrite H. reflexivity. Qed.

Lemma plot_data_invalid (w : World) (d t s : string) (ve : Q) (kw : kwargs) :
  d <> "x"%string -> d <> "y"%string -> d <> "z"%string ->
  plot_data d t s ve kw w = (Raise (direction_error d), w).
Proof.
  intros Hx Hy Hz. unfold plot_data, _slice_default. cbv zeta.
  apply bind_raise. apply slice_invalid; assumption.
Qed.

(** X8: [plot_data], [plot_scalar_field] and [plot_gradient] report a
    direction that is none of "x", "y", "z" with the [AttributeError] of
    [_slice] (or their own, for [plot_gradient]) and draw nothing:
    [plot_scalar_field] has at most warned about a bare array, whose size
    it has not looked at yet, and [plot_gradient] does not plot the scalar
    field either. *)
Theorem invalid_direction_reported (w : World) (d : string) :
  d <> "x"%string -> d <> "y"%string -> d <> "z"%string ->
  (forall t s ve kw,
      plot_data d t s ve kw w = (Raise (direction_error d), w)) /\
  (forall a cell ix N p kw,
      plot_scalar_field (NotSolution a) cell ix N d p kw w
      = (Raise (direction_error d),
         {| self := self w; trace := trace w ++ [Warn deprecation_msg] |})) /\
  (forall sf gx gy gz cell step ps,
      plot_gradient sf gx gy gz cell step d ps w
      = (Raise (direction_error d), w)).
Proof.
  intros Hx Hy Hz. split; [|split].
  - intros. apply plot_data_invalid; assumption.
  - intros a cell ix N p kw.
    set (w1 := {| self := self w;
                  trace := trace w ++ [Warn deprecation_msg] |}).
    unfold plot_scalar_field.
    rewrite (bind_ok (emit (Warn deprecation_msg) ;;; ret a)%M _ w w1 a
               eq_refl).
    cbv zeta. destruct p; cbn [when].
    + apply bind_raise. apply plot_data_invalid; assumption.
    + rewrite (bind_ok (ret tt) _ w1 w1 _ eq_refl).
      apply bind_raise. apply slice_invalid; assumption.
  - intros. apply String.eqb_neq in Hx, Hy, Hz.
    unfold plot_gradient, bind, get_model, raise.
    rewrite Hx, Hy, Hz. reflexivity.
Qed.

Lemma invalid_direction_reported_witness :
  (forall t s ve kw,
      plot_data "xy" t s ve kw ex_world
      = (Raise (direction_error "xy"), ex_world)) /\
  (forall a cell ix N p kw,
      plot_scalar_field (NotSolution a) cell ix N "xy" p kw ex_world
      = (Raise (direction_error "xy"),
         {| self := self ex_world;
            trace := trace ex_world ++ [Warn deprecation_msg] |})) /\
  (forall sf gx gy gz cell step ps,
      plot_gradient sf gx gy gz cell step "xy" ps ex_world
      = (Raise (direction_error "xy"), ex_world)).
Proof.
  apply (invalid_direction_reported ex_world "xy"); discriminate.
Defined.

(** X9: [extract_fault_lines] reports a direction that is not valid
    differently: through [_slice2D] it prints 'not a direction' and fails
    with the [UnboundLocalError] on [_slice], before it looks at any fault,
    so also for a model without faults. *)
Theorem extract_fault_lines_invalid_direction (w : World) (d : string)
    (cell : Z) :
  d <> "x"%string -> d <> "y"%string -> d <> "z"%string ->
  extract_fault_lines cell d w
  = (Raise (UnboundLocalError "_slice"),
     {| self := self w; trace := trace w ++ [PrintOut "not a direction"] |}).
Proof.
  intros Hx Hy Hz. apply String.eqb_neq in Hx, Hy, Hz.
  unfold extract_fault_lines, _slice2D, bind, get_model, emit, ret, local,
    raise.
  rewrite Hx, Hy, Hz. reflexivity.
Qed.

Lemma extract_fault_lines_invalid_direction_witness :
  extract_fault_lines 0 "up" ex_world
  = (Raise (UnboundLocalError "_slice"),
     {| self := self ex_world;
        trace := trace ex_world ++ [PrintOut "not a direction"] |}).
Proof.
  apply (extract_fault_lines_invalid_direction ex_world "up" 0); discriminate.
Defined.

(** X10: [plot_topo_g] has no check of the direction.  For a direction
    that is not valid a graph without edges is accepted in silence, nothing
    being drawn; with an edge, the call fails at the first coordinate: on
    the unbound local [c1] when the first node of the edge has a centroid,
    on the missing key when it has none. *)
Theorem plot_topo_g_invalid_direction (w : World) (geo : Model) (G : Graph)
    (centroids : centroid_map) (d : string) (lk nk ek : option kwargs) :
  d <> "x"%string -> d <> "y"%string -> d <> "z"%string ->
  plot_topo_g geo G centroids d lk nk ek w
  = match edges G with
    | [] => (Ok tt, w)
    | (a, _) :: _ =>
        match PyDict.get Z.eqb centroids a with
        | Some _ => (Raise (UnboundLocalError "c1"), w)
        | None => (Raise (KeyError (str_of_Z a)), w)
        end
    end.
Proof.
  intros Hx Hy Hz. apply String.eqb_neq in Hx, Hy, Hz.
  unfold plot_topo_g, topo_axes.
  rewrite Hx, Hy, Hz.
  rewrite (bind_ok (lift (Ok None)) _ w w None eq_refl). cbv zeta.
  destruct (edges G) as [|[a b] rest]; [reflexivity|].
  cbn [for_each].
  destruct (PyDict.get Z.eqb centroids a) as [c|] eqn:Hc;
    apply bind_raise; apply bind_raise;
    unfold node_coord, centroid_of; rewrite Hc; reflexivity.
Qed.

Lemma plot_topo_g_invalid_direction_witness :
  plot_topo_g ex_model ex_graph ex_centroids "w" None None None ex_world
  = (Raise (UnboundLocalError "c1"), ex_world).
Proof.
  apply (plot_topo_g_invalid_direction ex_world ex_model ex_graph
           ex_centroids "w" None None None); discriminate.
Defined.

(** ** [plot_data] *)

Lemma slice_known (w : World) (d : string) (cell : Z) :
  length (extent (grid (model (self w)))) = 6 ->
  valid_direction d ->
  _slice d cell w = (Ok (slice_descr (grid (model (self w))) d cell), w).
Proof.
  intros Hlen Hd.
  destruct (length_six _ Hlen) as (x0 & x1 & y0 & y1 & z0 & z1 & He).
  unfold _slice, bind, get_model, lift, ret, slice_descr, ext_min, ext_max.
  destruct Hd as [-> | [-> | ->]]; cbn [String.eqb Ascii.eqb Bool.eqb];
    rewrite He; reflexivity.
Qed.

(** The first statements of [plot_data], up to the choice of the rows. *)
Lemma plot_data_prefix (w : World) (d : string) (ve : Q) :
  length (extent (grid (model (self w)))) = 6 ->
  valid_direction d ->
  exists sd,
    _slice_default d w = (Ok sd, w) /\
    sd_x sd = fst (expected_labels d) /\
    sd_y sd = snd (expected_labels d) /\
    sd_Gx sd = fst (expected_gradient_labels d) /\
    sd_Gy sd = snd (expected_gradient_labels d) /\
    exists a0 a1 a2 a3,
      sd_extent sd = [a0; a1; a2; a3] /\
      (d <> "z"%string ->
       a0 = ext_min (grid (model (self w))) (fst (free_axes d)) /\
       a1 = ext_max (grid (model (self w))) (fst (free_axes d)) /\
       a2 = ext_min (grid (model (self w))) 2 /\
       a3 = ext_max (grid (model (self w))) 2).
Proof.
  intros Hlen Hd. eexists. split; [apply slice_known; assumption|].
  unfold slice_descr. cbn [sd_x sd_y sd_Gx sd_Gy sd_extent].
  repeat (split; [reflexivity|]).
  destruct (String.eqb_spec d "z") as [-> | Hz].
  - do 4 eexists. split; [reflexivity|]. intros H. contradiction.
  - do 4 eexists. split; [reflexivity|]. intros _. repeat split.
Qed.

Lemma plot_data_run (w : World) (d t : string) (ve : Q) (kw : kwargs)
    (sd : SliceDescr) (a0 a1 a2 a3 : Q) :
  _slice_default d w = (Ok sd, w) ->
  sd_extent sd = [a0; a1; a2; a3] ->
  let m := model (self w) in
  let aspect0 := FDiv (FSub (FVal a1) (FVal a0)) (FSub (FVal a3) (FVal a2)) in
  let aspect := if String.eqb d "x" || String.eqb d "y"
                then FDiv aspect0 (FVal ve) else aspect0 in
  let scatter :=
    [ Lmplot (sd_x sd) (sd_y sd) (points_in_series m) aspect
             (_color_lot (self w)) (scatter_kwargs kw);
      SetYlim a2 a3; SetXlim a0 a1 ] in
  let arrows scale :=
    [ QuiverData (map (orient_get (sd_x sd)) (orientations_in_series m))
                 (map (orient_get (sd_y sd)) (orientations_in_series m))
                 (map (orient_get (sd_Gx sd)) (orientations_in_series m))
                 (map (orient_get (sd_Gy sd)) (orientations_in_series m))
                 (WidthIfBelowOne aspect) scale ] in
  inb (sd_x sd) orient_columns = true ->
  inb (sd_y sd) orient_columns = true ->
  inb (sd_Gx sd) orient_columns = true ->
  inb (sd_Gy sd) orient_columns = true ->
  plot_data d t "all" ve kw w
  = match (if String.eqb t "all" || String.eqb t "surface_points"
           then duplicate_keyword lmplot_keywords kw else None) with
    | Some k => (Raise (multiple_values k), w)
    | None =>
        (Ok tt,
         {| self := self w;
            trace := trace w
              ++ (if String.eqb t "all" then scatter ++ arrows 10%Z else [])
              ++ (if String.eqb t "surface_points" then scatter else [])
              ++ (if String.eqb t "orientations" then arrows 15%Z else [])
              ++ [Legend; Xlabel (sd_x sd); Ylabel (sd_y sd)] |})
    end.
Proof.
  intros Hsd Hext m aspect0 aspect scatter arrows Hx Hy Hgx Hgy.
  unfold plot_data. cbv zeta.
  rewrite (bind_ok _ _ _ _ _ Hsd). rewrite (bind_ok _ _ _ _ _ Hsd).
  subst scatter arrows aspect aspect0 m.
  unfold lmplot_points, merge_keywords.
  rewrite !duplicate_keyword_set_default by reflexivity.
  unfold scatter_kwargs, points_in_series, orientations_in_series.
  destruct sd as [ia ib ic e x y gx gy].
  cbn [sd_extent sd_x sd_y sd_Gx sd_Gy] in *. subst e.
  unfold quiver_orientations, column.
  destruct (inb x orient_columns); [|discriminate Hx].
  destruct (inb y orient_columns); [|discriminate Hy].
  destruct (inb gx orient_columns); [|discriminate Hgx].
  destruct (inb gy orient_columns); [|discriminate Hgy].
  destruct (String.eqb t "all"), (String.eqb t "surface_points"),
    (String.eqb t "orientations"), (duplicate_keyword lmplot_keywords kw);
    cbn [String.eqb Ascii.eqb Bool.eqb orb];
    cbv beta iota zeta delta
      [bind lift get_model get_self ret raise emit when py_nth
       length Z.of_nat Pos.of_succ_nat Pos.succ Z.opp Z.leb Z.ltb Z.compare
       Pos.compare Pos.compare_cont andb Z.to_nat Pos.to_nat Pos.iter_op
       Nat.add nth_error];
    cbn [self trace app]; repeat rewrite <- app_assoc;
    first [reflexivity | destruct w; reflexivity].
Qed.

Lemma labels_are_columns (d : string) :
  valid_direction d ->
  inb (fst (expected_labels d)) orient_columns = true /\
  inb (snd (expected_labels d)) orient_columns = true /\
  inb (fst (expected_gradient_labels d)) orient_columns = true /\
  inb (snd (expected_gradient_labels d)) orient_columns = true.
Proof. intros [-> | [-> | ->]]; repeat split. Qed.

(** X11: [plot_data] does not check [data_type].  For all the series, a
    value other than 'all', 'surface_points' and 'orientations' raises
    nothing and draws no data: only the legend and the labels of the two
    free axes. *)
Theorem plot_data_unknown_type (w : World) (d t : string) (ve : Q)
    (kw : kwargs) :
  length (extent (grid (model (self w)))) = 6 ->
  valid_direction d ->
  t <> "all"%string -> t <> "surface_points"%string ->
  t <> "orientations"%string ->
  plot_data d t "all" ve kw w
  = (Ok tt,
     {| self := self w;
        trace := trace w ++ [ Legend; Xlabel (fst (expected_labels d));
                              Ylabel (snd (expected_labels d)) ] |}).
Proof.
  intros Hlen Hd H1 H2 H3. apply String.eqb_neq in H1, H2, H3.
  destruct (plot_data_prefix w d ve Hlen Hd)
    as (sd & Hsd & Hx & Hy & Hgx & Hgy & a0 & a1 & a2 & a3 & Hext & _).
  destruct (labels_are_columns d Hd) as (L1 & L2 & L3 & L4).
  rewrite <- Hx, <- Hy in *. rewrite <- Hgx in L3. rewrite <- Hgy in L4.
  rewrite (plot_data_run w d t ve kw sd a0 a1 a2 a3 Hsd Hext L1 L2 L3 L4).
  rewrite H1, H2, H3. reflexivity.
Qed.

Lemma plot_data_unknown_type_witness :
  plot_data "z" "points" "all" 1 [] ex_world
  = (Ok tt,
     {| self := self ex_world;
        trace := trace ex_world ++ [Legend; Xlabel "X"; Ylabel "Y"] |}).
Proof.
  apply (plot_data_unknown_type ex_world "z" "points" 1 []).
  - reflexivity.
  - right. right. reflexivity.
  - discriminate.
  - discriminate.
  - discriminate.
Defined.





(** ** [plot_gradient]: a stride of zero *)

Lemma resolve_every_zero (n : nat) :
  resolve (every 0) n = Raise (ValueError "slice step cannot be zero").
Proof. reflexivity. Qed.

(** X14: a [quiver_stepsize] of 0 is refused by the slicing with a
    [ValueError] ("slice step cannot be zero"): for a valid direction, an
    in-range cell and gradient arrays of the grid's size, [plot_gradient]
    (without the scalar field) raises it and draws nothing. *)
Theorem plot_gradient_zero_step (w : World) (sf : solution_arg)
    (gx gy gz : ndarray) (cell : Z) (d : string) :
  let g := grid (model (self w)) in
  let n := res0 g * res1 g * res2 g in
  valid_direction d ->
  in_range cell (res_of g (fixed_axis d)) ->
  size gx = n -> size gy = n -> size gz = n ->
  plot_gradient sf gx gy gz cell 0 d false w
  = (Raise (ValueError "slice step cannot be zero"), w).
Proof.
  intros g n Hd Hcell Hgx Hgy Hgz.
  pose proof (resolve_int cell _ Hcell) as Hint.
  unfold plot_gradient.
  rewrite (bind_ok get_model _ w w (model (self w)) eq_refl).
  fold g. cbv zeta. cbn [when].
  destruct Hd as [-> | [-> | ->]];
    cbn [String.eqb Ascii.eqb Bool.eqb fixed_axis res_of res_shape nth] in *;
    rewrite (bind_ok (ret tt) _ w w tt eq_refl);
    apply bind_raise; unfold lift, reshape_slice_T;
    first [rewrite (reshape_res g gy Hgy) | rewrite (reshape_res g gx Hgx)];
    cbn [rbind];
    unfold getitem; cbn [shape res_shape resolve_all tl];
    rewrite ?Hint, ?resolve_every_zero; reflexivity.
Qed.

Lemma plot_gradient_zero_step_witness :
  plot_gradient (NotSolution (lith_block ex_solution))
    (lith_block ex_solution) (lith_block ex_solution)
    (lith_block ex_solution) 0 0 "x" false ex_world
  = (Raise (ValueError "slice step cannot be zero"), ex_world).
Proof.
  apply (plot_gradient_zero_step ex_world
           (NotSolution (lith_block ex_solution)) (lith_block ex_solution)
           (lith_block ex_solution) (lith_block ex_solution) 0 "x").
  - left. reflexivity.
  - unfold in_range. cbn. lia.
  - reflexivity.
  - reflexivity.
  - reflexivity.
Defined.

(** ** [plot_topo_g]: what is drawn *)

(** X15: for a valid direction, an extent of six values, positive
    resolutions on the two projected axes and a graph all of whose nodes
    (those listed and those of the edges) have a centroid with the
    components the code reads, [plot_topo_g] returns normally and draws,
    edge after edge, the edge and then the marker and the label of every
    node of the graph.  So the nodes are drawn once for each edge, and not
    at all for a graph without edges.  A coordinate is the expression
    [component * span / resolution + minimum] of the code, with the
    component the first centroid's number of components selects. *)
Theorem plot_topo_g_draws (w : World) (geo : Model) (G : Graph)
    (centroids : centroid_map) (d : string) (lk nk ek : option kwargs) :
  valid_direction d ->
  length (extent (grid geo)) = 6 ->
  0 < res_of (grid geo) (projected_axis d false) ->
  0 < res_of (grid geo) (projected_axis d true) ->
  centroids <> [] ->
  (forall n, In n (nodes G) \/ In n (map fst (edges G))
             \/ In n (map snd (edges G)) -> drawable centroids d n) ->
  let lkw := topo_edge_kwargs ek in
  let tkw := topo_label_kwargs lk in
  exists t,
    topo_axes geo centroids d = Ok (Some t) /\
    axes_for (grid geo) centroids d t /\
    plot_topo_g geo G centroids d lk nk ek w
    = (Ok tt,
       {| self := self w;
          trace := trace w ++
            topo_drawing G (node_xy centroids t false)
                         (node_xy centroids t true) lkw tkw |}) /\
    length (topo_drawing G (node_xy centroids t false)
                         (node_xy centroids t true) lkw tkw)
    = length (edges G) * (1 + 2 * length (nodes G)).
Proof.
  intros Hd Hlen _ _ Hne Hdraw lkw tkw.
  destruct (topo_axes_ok geo centroids d Hd Hlen Hne) as [t Ht].
  destruct (topo_axes_spec geo centroids d _ Hd Ht) as (t' & Heq & Hax).
  injection Heq as <-.
  exists t. split; [exact Ht|]. split; [exact Hax|]. split.
  - exact (plot_topo_g_run w geo G centroids d lk nk ek t Ht Hax Hdraw).
  - unfold topo_drawing.
    rewrite (length_flat_map_const _ (edges G) (1 + 2 * length (nodes G))).
    + reflexivity.
    + intros e. cbn [length]. f_equal.
      rewrite (length_flat_map_const _ (nodes G) 2); [lia | reflexivity].
Qed.

Lemma plot_topo_g_draws_witness :
  exists t,
    topo_axes ex_model ex_centroids "x" = Ok (Some t) /\
    axes_for ex_grid ex_centroids "x" t /\
    plot_topo_g ex_model ex_graph ex_centroids "x" None None None ex_world
    = (Ok tt,
       {| self := self ex_world;
          trace := trace ex_world ++
            topo_drawing ex_graph (node_xy ex_centroids t false)
                         (node_xy ex_centroids t true)
                         (topo_edge_kwargs None) (topo_label_kwargs None) |}) /\
    length (topo_drawing ex_graph (node_xy ex_centroids t false)
                         (node_xy ex_centroids t true)
                         (topo_edge_kwargs None) (topo_label_kwargs None))
    = 1 * (1 + 2 * 2).
Proof.
  apply (plot_topo_g_draws ex_world ex_model ex_graph ex_centroids "x"
           None None None).
  - left. reflexivity.
  - reflexivity.
  - cbn. lia.
  - cbn. lia.
  - discriminate.
  - intros n Hn. unfold drawable. cbn in Hn.
    assert (H : n = 1%Z \/ n = 2%Z) by intuition congruence.
    destruct H as [-> | ->]; eexists; (split; [reflexivity|]); cbn;
      split; lia.
Defined.

(** ** [extract_fault_lines] *)

Lemma matrix_row (a : ndarray) (n k : nat) (i : Z) :
  shape a = [n; k] -> in_range i n ->
  exists r, getitem a [Int i] = Ok r /\ size r = k.
Proof.
  intros Hsh Hi. unfold getitem. rewrite Hsh.
  cbn [resolve_all tl]. rewrite (resolve_int i n Hi), resolve_full.
  cbn [rbind]. eexists. split; [reflexivity|].
  unfold size. cbn [data map snd]. rewrite length_map.
  rewrite length_gather_offsets by reflexivity.
  cbn [map prod_list fold_right length]. rewrite length_seq. lia.
Qed.

Lemma py_nth_in_range {A} (l : list A) (i : Z) :
  in_range i (length l) -> exists v, py_nth l i = Ok v.
Proof.
  intros [Hlo Hhi]. unfold py_nth.
  replace (- Z.of_nat (length l) <=? i)%Z with true
    by (symmetry; apply Z.leb_le; lia).
  replace (i <? Z.of_nat (length l))%Z with true
    by (symmetry; apply Z.ltb_lt; lia).
  cbn [andb].
  destruct (nth_error l (Z.to_nat (if (i <? 0)%Z then (i + Z.of_nat (length l))%Z
                                   else i))) as [v|] eqn:E.
  - exists v. reflexivity.
  - apply nth_error_None in E. destruct (Z.ltb_spec i 0); lia.
Qed.

Lemma slice2D_valid (w : World) (d : string) (cell : Z) :
  valid_direction d ->
  length (extent (grid (model (self w)))) = 6 ->
  exists ext,
    _slice2D cell d w = (Ok (section_index d cell, ext), w) /\
    ext = sd_extent (slice_descr (grid (model (self w))) d cell).
Proof.
  intros Hd Hlen.
  destruct (length_six _ Hlen) as (x0 & x1 & y0 & y1 & z0 & z1 & He).
  unfold _slice2D, bind, get_model, lift, ret, local, slice_descr, ext_min,
    ext_max.
  destruct Hd as [-> | [-> | ->]]; cbn [String.eqb Ascii.eqb Bool.eqb];
    rewrite He; eexists; split; reflexivity.
Qed.

(** X16: for a valid direction and an in-range cell, when every series
    flagged as a fault is ready to be drawn, [extract_fault_lines] returns
    normally and draws one contour for each flagged series, in the order
    of the table, and nothing for the others: the section of the scalar
    field of row [order_series - 1], over the extent [_slice2D] returns,
    at the non-zero values of that row of the scalar field at the surface
    points, in the colour [order_series - 1] of the colour map. *)
Theorem extract_fault_lines_draws (w : World) (cell : Z) (d : string)
    (rows k : nat) :
  let m := model (self w) in
  let g := grid m in
  valid_direction d ->
  length (extent g) = 6 ->
  in_range cell (res_of g (fixed_axis d)) ->
  shape (scalar_field_matrix (solutions m))
  = [rows; res0 g * res1 g * res2 g] ->
  shape (scalar_field_at_surface_points (solutions m)) = [rows; k] ->
  Forall (fault_ready (self w) rows) (flagged_faults m) ->
  exists ext evs,
    _slice2D cell d w = (Ok (section_index d cell, ext), w) /\
    extract_fault_lines cell d w
    = (Ok tt, {| self := self w; trace := trace w ++ evs |}) /\
    Forall2 (fault_contour (self w) (section_index d cell) ext)
            (flagged_faults m) evs.
Proof.
  intros m g Hd Hlen Hcell Hmat Hsp Hready.
  destruct (slice2D_valid w d cell Hd Hlen) as (ext & Hs2 & _).
  exists ext.
  assert (Hbody : forall f, In f (flagged_faults m) -> forall w0,
            self w0 = self w ->
            exists ev,
              (order <- lift (loc (series_df (series m)) f) ;;
               block <- lift (getitem (scalar_field_matrix (solutions m))
                                      [Int (order - 1)]) ;;
               row <- lift (getitem
                              (scalar_field_at_surface_points (solutions m))
                              [Int (order - 1)]) ;;
               b3 <- lift (reshape block (res_shape (grid m))) ;;
               img <- lift (getitem b3 (section_index d cell)) ;;
               self <- get_self ;;
               col <- lift (py_nth (_cmap self) (order - 1)) ;;
               emit (ContourLevels (transpose img) ext (nonzero (data row))
                                   col))%M w0
              = (Ok tt, {| self := self w0; trace := trace w0 ++ [ev] |})
              /\ fault_contour (self w) (section_index d cell) ext f ev).
  { intros f Hf w0 Hw0.
    rewrite Forall_forall in Hready.
    destruct (Hready f Hf) as (order & Hloc & Hrow & Hcol).
    change (model (self w)) with m in Hloc.
    destruct (matrix_row _ _ _ _ Hmat Hrow) as (block & Hblock & Hsz).
    destruct (matrix_row _ _ _ _ Hsp Hrow) as (row & Hrowv & _).
    destruct (section_image g block d cell Hsz Hd Hcell)
      as (img & _ & Himg & _).
    destruct (py_nth_in_range _ _ Hcol) as (col & Hc).
    eexists. split.
    - unfold bind, lift, get_self, emit. fold g.
      rewrite Hloc, Hblock, Hrowv.
      pose proof Himg as Himg'.
      rewrite (reshape_res g block Hsz) in Himg' |- *. cbn [rbind] in Himg'.
      rewrite Himg', Hw0, Hc. reflexivity.
    - unfold fault_contour. fold m. fold g.
      exists order, block, row, img, col. repeat split; assumption. }
  unfold extract_fault_lines.
  rewrite (bind_ok get_model _ w w m eq_refl).
  rewrite (bind_ok _ _ _ _ _ Hs2).
  fold (flagged_faults m).
  assert (Hgen : forall l, (forall f, In f l -> In f (flagged_faults m)) ->
            forall w0, self w0 = self w ->
            exists evs,
              for_each l (fun fault =>
                (order <- lift (loc (series_df (series m)) fault) ;;
                 let f_id := (order - 1)%Z in
                 block <- lift (getitem (scalar_field_matrix (solutions m))
                                        [Int f_id]) ;;
                 row <- lift (getitem
                                (scalar_field_at_surface_points (solutions m))
                                [Int f_id]) ;;
                 let level := nonzero (data row) in
                 b3 <- lift (reshape block (res_shape (grid m))) ;;
                 img <- lift (getitem b3 (section_index d cell)) ;;
                 self <- get_self ;;
                 col <- lift (py_nth (_cmap self) f_id) ;;
                 emit (ContourLevels (transpose img) ext level col))%M) w0
              = (Ok tt, {| self := self w0; trace := trace w0 ++ evs |})
              /\ Forall2 (fault_contour (self w) (section_index d cell) ext)
                         l evs).
  { induction l as [|f l IH]; intros Hin w0 Hw0.
    - exists []. split; [|constructor]. cbn [for_each]. unfold ret.
      rewrite <- world_eta. reflexivity.
    - destruct (Hbody f (Hin f (or_introl eq_refl)) w0 Hw0)
        as (ev & Hev & HR).
      destruct (IH (fun y Hy => Hin y (or_intror Hy))
                   {| self := self w0; trace := trace w0 ++ [ev] |} Hw0)
        as (evs & Hevs & HF).
      exists (ev :: evs). split; [|constructor; assumption].
      cbn [for_each]. cbv zeta in Hev, Hevs |- *.
      rewrite (bind_ok _ _ _ _ _ Hev), Hevs.
      cbn [self trace]. rewrite <- app_assoc. reflexivity. }
  destruct (Hgen (flagged_faults m) (fun f H => H) w eq_refl)
    as (evs & Hrun & HF).
  exists evs. split; [exact Hs2|]. split; assumption.
Qed.

Lemma extract_fault_lines_draws_witness :
  exists ext evs,
    _slice2D 1 "y" ex_fault_world
    = (Ok (section_index "y" 1, ext), ex_fault_world) /\
    extract_fault_lines 1 "y" ex_fault_world
    = (Ok tt, {| self := self ex_fault_world;
                 trace := trace ex_fault_world ++ evs |}) /\
    Forall2 (fault_contour (self ex_fault_world) (section_index "y" 1) ext)
            ["Fault"%string] evs.
Proof.
  apply (extract_fault_lines_draws ex_fault_world 1 "y" 2 2).
  - right. left. reflexivity.
  - reflexivity.
  - unfold in_range. cbn. lia.
  - reflexivity.
  - reflexivity.
  - repeat constructor. exists 1%Z.
    split; [reflexivity|]. unfold in_range. cbn. lia.
Defined.

(** On that model: one contour, for the fault series, at the level 5 (the
    zero is left out), in the first colour. *)
Example extract_fault_lines_example :
  extract_fault_lines 1 "y" ex_fault_world
  = (Ok tt,
     {| self := self ex_fault_world;
        trace := trace ex_fault_world ++
          [ ContourLevels
              (mk_ndarray [4; 2] [4; 16; 5; 17; 6; 18; 7; 19]%Q)
              [0; 10; 0; 30]%Q [5]%Q "#015482" ] |}).
Proof. reflexivity. Qed.

Lemma loc_missing (df : list (string * Z)) (f : string) :
  ~ In f (map fst df) -> loc df f = Raise (KeyError f).
Proof.
  induction df as [|[l v] df IH]; cbn [loc map fst In]; intros H.
  - reflexivity.
  - destruct (String.eqb_spec l f) as [-> | Hne].
    + exfalso. apply H. left. reflexivity.
    + apply IH. intros Hin. apply H. right. exact Hin.
Qed.

(** X17: a series flagged as a fault that is missing from the series table
    stops [extract_fault_lines] with a [KeyError] on its name; when it is
    the first flagged one, nothing has been drawn. *)
Theorem extract_fault_lines_missing_series (w : World) (cell : Z)
    (d : string) (f : string) (rest : list string) :
  let m := model (self w) in
  valid_direction d ->
  length (extent (grid m)) = 6 ->
  flagged_faults m = f :: rest ->
  ~ In f (map fst (series_df (series m))) ->
  extract_fault_lines cell d w = (Raise (KeyError f), w).
Proof.
  intros m Hd Hlen Hfl Hmiss.
  destruct (slice2D_valid w d cell Hd Hlen) as (ext & Hs2 & _).
  unfold extract_fault_lines.
  rewrite (bind_ok get_model _ w w m eq_refl).
  rewrite (bind_ok _ _ _ _ _ Hs2).
  fold (flagged_faults m). rewrite Hfl. cbn [for_each].
  apply bind_raise. apply bind_raise.
  unfold lift. rewrite (loc_missing _ _ Hmiss). reflexivity.
Qed.

Lemma extract_fault_lines_missing_series_witness :
  extract_fault_lines 1 "y"
    {| self := {| model :=
                    {| grid := ex_grid; surfaces := ex_surfaces;
                       surface_points := surface_points ex_model;
                       orientations := orientations ex_model;
                       series := {| series_df := [("Strat"%string, 1%Z)] |};
                       faults := {| form_series := [("Fault"%string, true)] |};
                       solutions := ex_solution;
                       topography := None |};
                  _color_lot := []; _cmap := []; _norm := (0, 1)%Q |};
       trace := [] |}
  = (Raise (KeyError "Fault"),
     {| self := {| model :=
                    {| grid := ex_grid; surfaces := ex_surfaces;
                       surface_points := surface_points ex_model;
                       orientations := orientations ex_model;
                       series := {| series_df := [("Strat"%string, 1%Z)] |};
                       faults := {| form_series := [("Fault"%string, true)] |};
                       solutions := ex_solution;
                       topography := None |};
                  _color_lot := []; _cmap := []; _norm := (0, 1)%Q |};
       trace := [] |}).
Proof.
  apply (extract_fault_lines_missing_series _ 1 "y" "Fault" []).
  - right. left. reflexivity.
  - reflexivity.
  - reflexivity.
  - cbn. intros [H | []]. discriminate H.
Defined.

(** ** [plot_topography]: the polygon *)

Lemma flat_map_singleton {A B} (f : A -> B) (l : list A) :
  flat_map (fun x => [f x]) l = map f l.
Proof.
  induction l as [|x l IH]; [reflexivity|].
  cbn [flat_map map app]. rewrite IH. reflexivity.
Qed.

Lemma getitem_column (m : nat) (l : list Q) (k : nat) :
  k = 0 \/ k = 1 ->
  getitem (mk_ndarray [m; 2] l) [full; Int (Z.of_nat k)]
  = Ok (mk_ndarray [m] (map (fun i => nth (2 * i + k) l 0%Q) (seq 0 m))).
Proof.
  intros Hk. unfold getitem. cbn [shape resolve_all tl].
  rewrite resolve_full.
  destruct Hk as [-> | ->]; cbn [Z.of_nat Pos.of_succ_nat resolve Z.leb Z.ltb Z.opp
         Z.compare Pos.compare Pos.compare_cont andb Z.to_nat Pos.to_nat
         Pos.iter_op Nat.add Pos.succ rbind map snd fst kept_shape filter
         gather_offsets prod_list fold_right flat_map app Nat.mul data
         length];
    rewrite flat_map_singleton, map_map, length_seq;
    f_equal; f_equal; apply map_ext; intros i; f_equal; lia.
Qed.

Lemma column_of_pairs (k : nat) (l1 l2 : list Q) (n : nat) :
  k < 2 -> length l1 = 2 * n -> length l2 = 8 ->
  map (fun i => nth (2 * i + k) (l1 ++ l2) 0%Q) (seq 0 (n + 4))
  = column_of k l1 ++ column_of k l2.
Proof.
  intros Hk H1 H2. unfold column_of.
  rewrite H1, H2.
  replace (Nat.div (2 * n) 2) with n
    by (rewrite Nat.mul_comm, Nat.div_mul; lia).
  change (Nat.div 8 2) with 4.
  rewrite seq_app, map_app. f_equal.
  - apply map_ext_in. intros i Hi. apply in_seq in Hi.
    apply app_nth1. lia.
  - cbn [seq map Nat.add].
    repeat (f_equal; [rewrite app_nth2 by lia; f_equal; lia|]).
    f_equal. rewrite app_nth2 by lia. f_equal. lia.
Qed.


Lemma line_first_height (line : ndarray) (n : nat) (j : Z) :
  shape line = [n; 2] -> 0 < n -> j = 1%Z \/ j = (-1)%Z ->
  getitem line [Int 0; Int j]
  = Ok (mk_ndarray [] [nth 1 (data line) 0%Q]).
Proof.
  intros Hsh Hn Hj. unfold getitem. rewrite Hsh. cbn [resolve_all tl].
  rewrite (resolve_int 0 n) by (unfold in_range; lia).
  destruct Hj as [-> | ->]; reflexivity.
Qed.

Lemma reshape_rows2_closed (l : list Q) (n : nat) (c : list Q) :
  length l = 2 * n -> length c = 8 ->
  reshape_rows2 (l ++ c) = Ok (mk_ndarray [n + 4; 2] (l ++ c)).
Proof.
  intros Hl Hc. unfold reshape_rows2. rewrite length_app, Hl, Hc.
  replace (2 * n + 8) with (2 * (n + 4)) by lia.
  rewrite Nat.even_mul. cbn [Nat.even orb].
  rewrite Nat.mul_comm, Nat.div_mul by lia. reflexivity.
Qed.

(** X18: for "x" and "y", a section line of [n >= 1] points (an array of
    shape [(n, 2)]) is closed into a polygon and filled: the points of the
    line, then four corners, at the upper bound of the horizontal axis and
    the height of the first point of the line, at the upper bound and the
    top of the extent, at the lower bound and the top, and at the lower
    bound and the height of the first point again ([line[0, -1]] and
    [line[0, 1]] are the same entry of a two-column array). *)
Theorem plot_topography_polygon (w : World) (cell : Z) (d : string)
    (t : Topography) (line : ndarray) (n : nat) :
  let g := grid (model (self w)) in
  let h := fst (free_axes d) in
  let y0 := nth 1 (data line) 0%Q in
  length (extent g) = 6 ->
  d = "x"%string \/ d = "y"%string ->
  topography (model (self w)) = Some t ->
  _line_in_section t cell d = Ok line ->
  shape line = [n; 2] -> 0 < n -> length (data line) = 2 * n ->
  plot_topography cell d w
  = (Ok tt,
     {| self := self w;
        trace := trace w ++
          [ Fill (column_of 0 (data line)
                  ++ [ext_max g h; ext_max g h; ext_min g h; ext_min g h])
                 (column_of 1 (data line)
                  ++ [y0; ext_max g 2; ext_max g 2; y0]) ] |}).
Proof.
  intros g h y0 Hlen Hd Ht Hline Hsh Hn Hdata.
  destruct (length_six _ Hlen) as (x0 & x1 & b0 & b1 & z0 & z1 & He).
  unfold plot_topography.
  rewrite (bind_ok get_model _ w w (model (self w)) eq_refl).
  rewrite Ht, Hline.
  rewrite (bind_ok (lift (Ok line)) _ w w line eq_refl).
  fold g. unfold ext_max, ext_min, h. rewrite He.
  pose proof (line_first_height line n (-1) Hsh Hn (or_intror eq_refl)) as L1.
  pose proof (line_first_height line n 1 Hsh Hn (or_introl eq_refl)) as L2.
  assert (P : forall (a b c e : Q),
             py_nth [a; b; c; e] 0 = Ok a /\ py_nth [a; b; c; e] 1 = Ok b /\
             py_nth [a; b; c; e] 3 = Ok e) by (intros; repeat split).
  destruct Hd as [-> | ->];
    cbn [String.eqb Ascii.eqb Bool.eqb take nth_error rbind free_axes fst
         Nat.mul Nat.add nth];
    cbv beta iota zeta delta [bind lift ret local emit];
    repeat first
      [ rewrite L1 | rewrite L2
      | rewrite (proj1 (P _ _ _ _))
      | rewrite (proj1 (proj2 (P _ _ _ _)))
      | rewrite (proj2 (proj2 (P _ _ _ _)))
      | rewrite (reshape_rows2_closed (data line) n)
          by first [exact Hdata | reflexivity]
      | rewrite (getitem_column (n + 4) _ 0 (or_introl eq_refl))
      | rewrite (getitem_column (n + 4) _ 1 (or_intror eq_refl))
      | progress cbn [scalar data nth] ];
    rewrite !(column_of_pairs _ (data line) _ n) by (lia || reflexivity);
    reflexivity.
Qed.

Lemma plot_topography_polygon_witness :
  plot_topography 1 "y" ex_world
  = (Ok tt,
     {| self := self ex_world;
        trace := trace ex_world ++
          [ Fill (column_of 0 [0; 25; 10; 27]%Q ++ [10; 10; 0; 0]%Q)
                 (column_of 1 [0; 25; 10; 27]%Q ++ [25; 30; 30; 25]%Q) ] |}).
Proof.
  apply (plot_topography_polygon ex_world 1 "y"
           {| _line_in_section := fun _ _ =>
                Ok (mk_ndarray [2; 2] [0; 25; 10; 27]%Q) |}
           (mk_ndarray [2; 2] [0; 25; 10; 27]%Q) 2).
  - reflexivity.
  - right. reflexivity.
  - reflexivity.
  - reflexivity.
  - reflexivity.
  - lia.
  - reflexivity.
Defined.

(** ** [annotate_plot] *)



(** ** The constructor *)

Lemma set_fresh {V} (d : list (string * V)) (k : string) (v : V) :
  ~ In k (map fst d) -> PyDict.set String.eqb d k v = d ++ [(k, v)].
Proof.
  induction d as [|[k0 v0] d IH]; cbn [PyDict.set map fst In app];
    intros H; [reflexivity|].
  destruct (String.eqb_spec k0 k) as [-> | Hne].
  - exfalso. apply H. left. reflexivity.
  - rewrite IH; [reflexivity|]. intros Hin. apply H. right. exact Hin.
Qed.

Lemma of_pairs_fresh {V} (l : list (string * V)) :
  forall d, NoDup (map fst (d ++ l)) ->
    fold_left (fun d kv => PyDict.set String.eqb d (fst kv) (snd kv)) l d
    = d ++ l.
Proof.
  induction l as [|[k v] l IH]; intros d Hnd; cbn [fold_left fst snd].
  - rewrite app_nil_r. reflexivity.
  - assert (Hk : ~ In k (map fst d)).
    { rewrite map_app in Hnd. cbn [map fst] in Hnd.
      apply NoDup_remove_2 in Hnd. intros Hin. apply Hnd.
      apply in_or_app. left. exact Hin. }
    rewrite (set_fresh d k v Hk), IH.
    + rewrite <- app_assoc. reflexivity.
    + rewrite <- app_assoc. exact Hnd.
Qed.

Lemma length_set_le {V} (d : list (string * V)) (k : string) (v : V) :
  length (PyDict.set String.eqb d k v) <= S (length d).
Proof.
  induction d as [|[k0 v0] d IH]; cbn [PyDict.set length]; [lia|].
  destruct (String.eqb k0 k); cbn [length]; lia.
Qed.

Lemma length_of_pairs_le {V} (l : list (string * V)) :
  forall d,
    length (fold_left (fun d kv => PyDict.set String.eqb d (fst kv) (snd kv))
                      l d)
    <= length d + length l.
Proof.
  induction l as [|[k v] l IH]; intros d; cbn [fold_left fst snd length].
  - lia.
  - specialize (IH (PyDict.set String.eqb d k v)).
    pose proof (length_set_le d k v). lia.
Qed.

(** X20: when the surface names of the table are all different, the colour
    lookup the constructor builds lists the surfaces in the order of the
    table, its colours are, in order, those of the colour map, and the
    legend of a block section has the patches of the surfaces in that
    order. *)
Theorem init_unique_names (m : Model) (tr : list event) :
  let rows := surfaces_df (surfaces m) in
  let o := self (__init__ m tr) in
  NoDup (map surface rows) ->
  _color_lot o = map (fun r => (surface r, color r)) rows /\
  map snd (_color_lot o) = _cmap o /\
  legend_patches o = map (fun r => (color r, surface r)) rows.
Proof.
  intros rows o Hnd.
  assert (H : _color_lot o = map (fun r => (surface r, color r)) rows).
  { unfold o. cbn. unfold color_lot_of, PyDict.of_pairs, PyDict.empty.
    fold rows. rewrite combine_columns.
    rewrite (of_pairs_fresh _ []); [reflexivity|].
    cbn [app]. rewrite map_map. exact Hnd. }
  split; [exact H|]. split.
  - rewrite H, map_map. reflexivity.
  - unfold legend_patches, PyDict.items. rewrite H, map_map. reflexivity.
Qed.

Lemma init_unique_names_witness :
  _color_lot (self ex_world)
  = map (fun r => (surface r, color r)) (surfaces_df ex_surfaces) /\
  map snd (_color_lot (self ex_world)) = _cmap (self ex_world) /\
  legend_patches (self ex_world)
  = map (fun r => (color r, surface r)) (surfaces_df ex_surfaces).
Proof.
  apply (init_unique_names ex_model []).
  cbn. repeat constructor; cbn; intuition discriminate.
Defined.

(** The colour lookup has one entry for each distinct surface name. *)
Lemma length_color_lot (s : Surfaces) :
  length (color_lot_of s)
  = length (nodup string_dec (map surface (surfaces_df s))).
Proof.
  set (rows := surfaces_df s).
  assert (Hd : color_lot_of s
               = fold_left
                   (fun d kv => PyDict.set String.eqb d (fst kv) (snd kv))
                   (map (fun r => (surface r, color r)) rows) []).
  { unfold color_lot_of, PyDict.of_pairs, PyDict.empty. fold rows.
    rewrite combine_columns. reflexivity. }
  destruct (fold_set_facts String.eqb String.eqb_eq
              (map (fun r => (surface r, color r)) rows) [])
    as (Hnd & Hin & _).
  cbn zeta in Hnd, Hin. rewrite <- Hd in Hnd, Hin.
  rewrite <- (length_map fst (color_lot_of s)).
  apply Permutation_length.
  apply NoDup_Permutation; [apply Hnd; constructor | apply NoDup_nodup|].
  intros k. unfold PyDict.keys in Hin. rewrite Hin, nodup_In, map_map. cbn.
  intuition.
Qed.

Lemma length_nodup_le (l : list string) :
  length (nodup string_dec l) <= length l.
Proof.
  induction l as [|x l IH]; cbn [nodup length]; [lia|].
  destruct (in_dec string_dec x l); cbn [length]; lia.
Qed.

Lemma length_nodup_eq (l : list string) :
  length (nodup string_dec l) = length l <-> NoDup l.
Proof.
  split.
  - intros H.
    apply (@NoDup_incl_NoDup _ (nodup string_dec l) l).
    + apply NoDup_nodup.
    + lia.
    + intros x Hx. apply nodup_In in Hx. exact Hx.
  - intros H. rewrite (nodup_fixed_point string_dec H). reflexivity.
Qed.

(** X21: the constructor makes four calls, in this order: the colour map
    from the colours of all the rows of the surfaces table (those of a
    repeated name included), the norm from 0.5 to the number of rows plus
    0.5, and the two of [_set_style].  The colour lookup never has more
    entries than the colour map has colours, and it has as many exactly
    when the surface names are all different: with a repeated name the
    colour map and the norm count a class that the lookup, and so the
    legend, does not have. *)
Theorem init_color_map (m : Model) (tr : list event) :
  let rows := surfaces_df (surfaces m) in
  let w := __init__ m tr in
  trace w
  = tr ++ [ ListedColormap (map color rows);
            Normalize (1 # 2) (inject_Z (Z.of_nat (length rows)) + (1 # 2));
            StyleUse; SetContext ] /\
  length (_color_lot (self w)) <= length (_cmap (self w)) /\
  (length (_color_lot (self w)) = length (_cmap (self w))
   <-> NoDup (map surface rows)) /\
  length (legend_patches (self w))
  = length (nodup string_dec (map surface rows)).
Proof.
  intros rows w. unfold w. cbn. fold rows.
  rewrite !length_map, <- !app_assoc.
  split; [reflexivity|].
  rewrite length_color_lot. fold rows.
  pose proof (length_nodup_le (map surface rows)) as Hle.
  pose proof (length_nodup_eq (map surface rows)) as Heq.
  rewrite length_map in Hle, Heq.
  repeat split; try tauto; exact Hle.
Qed.

(** With a surface name that comes twice, the colour map has three colours
    and the lookup two entries. *)
Example init_color_map_repeated_name :
  let m := {| grid := ex_grid;
              surfaces :=
                {| surfaces_columns := surfaces_columns ex_surfaces;
                   surfaces_df := [ {| surface := "rock1"; color := "#015482" |};
                                    {| surface := "rock2"; color := "#9f0052" |};
                                    {| surface := "rock1"; color := "#ffbe00" |}
                                  ]%string |};
              surface_points := surface_points ex_model;
              orientations := orientations ex_model;
              series := series ex_model;
              faults := faults ex_model;
              solutions := solutions ex_model;
              topography := topography ex_model |} in
  let w := __init__ m [] in
  trace w = [ ListedColormap ["#015482"; "#9f0052"; "#ffbe00"]%string;
              Normalize (1 # 2) (3 + (1 # 2)); StyleUse; SetContext ] /\
  _color_lot (self w) = [("rock1", "#ffbe00"); ("rock2", "#9f0052")]%string.
Proof. split; reflexivity. Qed.

(** ** [_slice] and [_slice2D] together *)

Lemma getitem_slice_to_full (g : Grid) (l : list Q) (d : string) (cell : Z) :
  valid_direction d ->
  getitem (mk_ndarray (res_shape g) l)
    (map (fun ax => if ax =? fixed_axis d then Int cell
                    else slice_to (res_of g ax)) [0; 1; 2])
  = getitem (mk_ndarray (res_shape g) l) (section_index d cell).
Proof.
  intros Hd. unfold getitem, section_index. cbn [shape res_shape].
  destruct Hd as [-> | [-> | ->]];
    cbn [map fixed_axis String.eqb Ascii.eqb Bool.eqb Nat.eqb resolve_all tl
         res_of res_shape nth];
    rewrite ?resolve_slice_to, ?resolve_full; reflexivity.
Qed.

(** X22: for each of the three directions and any cell number, in range or
    not, [_slice] and [_slice2D] return the same extent, and their indices
    select the same cells of a block reshaped to the grid (or fail on it
    alike). *)
Theorem slice_and_slice2D_agree (w : World) (d : string) (cell : Z) :
  let g := grid (model (self w)) in
  valid_direction d ->
  length (extent g) = 6 ->
  exists sd ixs ext,
    _slice d cell w = (Ok sd, w) /\
    _slice2D cell d w = (Ok (ixs, ext), w) /\
    ext = sd_extent sd /\
    forall l : list Q,
      getitem (mk_ndarray (res_shape g) l) [sd_a sd; sd_b sd; sd_c sd]
      = getitem (mk_ndarray (res_shape g) l) ixs.
Proof.
  intros g Hd Hlen.
  destruct (slice2D_valid w d cell Hd Hlen) as (ext & Hs2 & Hext).
  exists (slice_descr g d cell), (section_index d cell), ext.
  split; [apply slice_known; assumption|].
  split; [exact Hs2|]. split; [exact Hext|].
  intros l. apply (getitem_slice_to_full g l d cell Hd).
Qed.

Lemma slice_and_slice2D_agree_witness :
  exists sd ixs ext,
    _slice "z" 9 ex_world = (Ok sd, ex_world) /\
    _slice2D 9 "z" ex_world = (Ok (ixs, ext), ex_world) /\
    ext = sd_extent sd /\
    forall l : list Q,
      getitem (mk_ndarray [2; 3; 4] l) [sd_a sd; sd_b sd; sd_c sd]
      = getitem (mk_ndarray [2; 3; 4] l) ixs.
Proof.
  apply (slice_and_slice2D_agree ex_world "z" 9).
  - right. right. reflexivity.
  - reflexivity.
Defined.

(** ** [plot_block_section]: the options *)

(** [plot_block_section] up to the image, for keywords of the caller that
    are none of those the call of [imshow] writes out: what is left to run
    are the fault lines, the topography, the legend and the labels. *)
Lemma block_section_prefix (w : World) (pre evs : list event) (s : Solution)
    (cell : Z) (block : block_arg) (a : ndarray) (d i : string) (p : bool)
    (bt : pystr) (ve : Q) (sf st : bool) (kw : kwargs) :
  let g := grid (model (self w)) in
  select_block s block bt w
  = (Ok (Some (Some a)), {| self := self w; trace := trace w ++ pre |}) ->
  length (extent g) = 6 ->
  size a = res0 g * res1 g * res2 g ->
  valid_direction d ->
  in_range cell (res_of g (fixed_axis d)) ->
  when p (plot_data d "all" "all" 1 [])
       {| self := self w; trace := trace w ++ pre |}
  = (Ok tt, {| self := self w; trace := trace w ++ pre ++ evs |}) ->
  duplicate_keyword imshow_keywords kw = None ->
  exists img,
    (a3 <- reshape a (res_shape g) ;; getitem a3 (section_index d cell))%res
    = Ok img /\
    plot_block_section s cell block d i p bt ve sf st kw w
    = (when sf (extract_fault_lines cell d) ;;;
       when st (match topography (model (self w)) with
                | Some _ => plot_topography cell d
                | None => ret tt
                end) ;;;
       when (negb p) (emit (LegendPatches (legend_patches (self w)))) ;;;
       emit (Xlabel (sd_x (slice_descr g d cell))) ;;;
       emit (Ylabel (sd_y (slice_descr g d cell))))%M
        {| self := self w;
           trace := trace w ++ pre ++ evs ++
             [Imshow (transpose img) (sd_extent (slice_descr g d cell)) i
                     (if String.eqb d "z" then 1%Q else ve)
                     (imshow_kwargs (self w) kw)] |}.
Proof.
  intros g Hsel Hlen Hsz Hd Hcell Hdata Hkw.
  set (w1 := {| self := self w; trace := trace w ++ pre |}) in *.
  set (w2 := {| self := self w; trace := trace w ++ pre ++ evs |}) in *.
  pose proof (slice_known w1 d cell Hlen Hd) as Hsd1.
  change (grid (model (self w1))) with g in Hsd1.
  destruct (section_image g a d cell Hsz Hd Hcell) as (img & Himg & Hspec & _).
  exists img. split; [exact Hspec|].
  unfold plot_block_section.
  rewrite (bind_ok _ _ _ _ _ Hsel).
  rewrite (bind_ok get_model _ w1 w1 (model (self w)) eq_refl).
  unfold local at 1. rewrite (bind_ok (ret (Some a)) _ w1 w1 _ eq_refl).
  unfold reshape_obj. fold g. rewrite (reshape_res g a Hsz).
  rewrite (bind_ok (lift _) _ w1 w1 _ eq_refl).
  rewrite (bind_ok _ _ _ _ _ Hsd1).
  rewrite (bind_ok _ _ _ _ _ Hdata).
  rewrite (bind_ok get_self _ w2 w2 _ eq_refl).
  cbn [slice_descr sd_a sd_b sd_c].
  change [if 0 =? fixed_axis d then Int cell else slice_to (res_of g 0);
          if 1 =? fixed_axis d then Int cell else slice_to (res_of g 1);
          if 2 =? fixed_axis d then Int cell else slice_to (res_of g 2)]
    with (map (fun ax => if ax =? fixed_axis d then Int cell
                         else slice_to (res_of g ax)) [0; 1; 2]).
  rewrite Himg, (aspect_of_direction d ve Hd).
  rewrite (bind_ok (lift (Ok img)) _ w2 w2 _ eq_refl).
  unfold merge_keywords.
  rewrite !duplicate_keyword_set_default by reflexivity. rewrite Hkw.
  rewrite (bind_ok (ret tt) _ w2 w2 tt eq_refl).
  rewrite (bind_ok (emit _) _ w2 _ tt eq_refl).
  unfold imshow_kwargs, legend_patches. cbn [self trace w2].
  rewrite <- !app_assoc. reflexivity.
Qed.

Lemma topography_no_extent (w : World) (cell : Z) (t : Topography)
    (line : ndarray) :
  topography (model (self w)) = Some t ->
  _line_in_section t cell "z" = Ok line ->
  plot_topography cell "z" w = (Raise (UnboundLocalError "ext"), w).
Proof.
  intros Ht Hline.
  unfold plot_topography, bind, get_model, lift, ret, local, raise.
  rewrite Ht, Hline. reflexivity.
Qed.

(** X23: a horizontal section of a model that has a topography cannot be
    completed with the default [show_topo=True]: with an array as block,
    the direction "z", an in-range cell and keywords of the caller that are
    none of those the call of [imshow] writes out (origin, extent,
    interpolation, aspect), [plot_block_section] draws the image and then
    fails in [plot_topography] with the [UnboundLocalError] on [ext], once
    the section line of the topography is returned; neither legend nor
    labels are added. *)
Theorem plot_block_section_z_topography (w : World) (s : Solution)
    (cell : Z) (a : ndarray) (i : string) (bt : pystr) (ve : Q)
    (kw : kwargs) (t : Topography) (line : ndarray) :
  let g := grid (model (self w)) in
  length (extent g) = 6 ->
  size a = res0 g * res1 g * res2 g ->
  in_range cell (res2 g) ->
  topography (model (self w)) = Some t ->
  _line_in_section t cell "z" = Ok line ->
  duplicate_keyword imshow_keywords kw = None ->
  exists img,
    (a3 <- reshape a (res_shape g) ;; getitem a3 [full; full; Int cell])%res
    = Ok img /\
    plot_block_section s cell (BArr a) "z" i false bt ve false true kw w
    = (Raise (UnboundLocalError "ext"),
       {| self := self w;
          trace := trace w ++
            [ Warn deprecation_msg;
              Imshow (transpose img)
                     (sd_extent (slice_descr g "z" cell)) i 1
                     (imshow_kwargs (self w) kw) ] |}).
Proof.
  intros g Hlen Hsz Hcell Ht Hline Hkw.
  destruct (block_section_prefix w [Warn deprecation_msg] [] s cell (BArr a)
              a "z" i false bt ve false true kw eq_refl Hlen Hsz
              (or_intror (or_intror eq_refl)) Hcell eq_refl Hkw)
    as (img & Himg & Hrun).
  exists img. split; [exact Himg|].
  rewrite Hrun. cbn [when negb String.eqb Ascii.eqb Bool.eqb app].
  rewrite (bind_ok (ret tt) _ _ _ tt eq_refl).
  rewrite Ht. apply bind_raise.
  apply (topography_no_extent _ cell t line); assumption.
Qed.

Lemma plot_block_section_z_topography_witness :
  exists img,
    (a3 <- reshape (lith_block ex_solution) [2; 3; 4] ;;
     getitem a3 [full; full; Int 0])%res = Ok img /\
    plot_block_section ex_solution 0 (BArr (lith_block ex_solution)) "z"
      "none" false lit_lithology 1 false true
      [("alpha"%string, KwNum (1 # 2))] ex_world
    = (Raise (UnboundLocalError "ext"),
       {| self := self ex_world;
          trace := trace ex_world ++
            [ Warn deprecation_msg;
              Imshow (transpose img)
                     (sd_extent (slice_descr ex_grid "z" 0)) "none" 1
                     (imshow_kwargs (self ex_world)
                        [("alpha"%string, KwNum (1 # 2))]) ] |}).
Proof.
  apply (plot_block_section_z_topography ex_world ex_solution 0
           (lith_block ex_solution) "none" lit_lithology 1
           [("alpha"%string, KwNum (1 # 2))]
           {| _line_in_section := fun _ _ =>
                Ok (mk_ndarray [2; 2] [0; 25; 10; 27]%Q) |}
           (mk_ndarray [2; 2] [0; 25; 10; 27]%Q)).
  - reflexivity.
  - reflexivity.
  - unfold in_range. cbn. lia.
  - reflexivity.
  - reflexivity.
  - reflexivity.
Defined.

Lemma plot_data_all_runs (w : World) (d : string) :
  length (extent (grid (model (self w)))) = 6 ->
  valid_direction d ->
  exists evs, forall tr,
    plot_data d "all" "all" 1 [] {| self := self w; trace := tr |}
    = (Ok tt, {| self := self w; trace := tr ++ evs |}).
Proof.
  intros Hlen Hd.
  destruct (plot_data_prefix w d 1 Hlen Hd)
    as (sd & Hsd & Hx & Hy & Hgx & Hgy & a0 & a1 & a2 & a3 & Hext & _).
  destruct (labels_are_columns d Hd) as (L1 & L2 & L3 & L4).
  rewrite <- Hx in L1. rewrite <- Hy in L2.
  rewrite <- Hgx in L3. rewrite <- Hgy in L4.
  eexists. intros tr0.
  assert (Hsd0 : _slice_default d {| self := self w; trace := tr0 |}
                 = (Ok sd, {| self := self w; trace := tr0 |})).
  { unfold _slice_default in *.
    apply (slice_same_object w {| self := self w; trace := tr0 |} d 25 sd
             eq_refl Hsd). }
  rewrite (plot_data_run _ d "all" 1 [] sd a0 a1 a2 a3 Hsd0 Hext
             L1 L2 L3 L4).
  cbn [String.eqb Ascii.eqb Bool.eqb self trace app].
  reflexivity.
Qed.

(** X24: with [plot_data=True] and keywords of the caller that are none of
    those the call of [imshow] writes out (origin, extent, interpolation,
    aspect), [plot_block_section] first draws the data as
    [plot_data(direction, 'all')] does, with its legend and labels, then
    the image and the labels again; the legend of colour patches is left
    out.  The caller's keywords go to the image only, not to the data. *)
Theorem plot_block_section_with_data (w : World) (s : Solution) (cell : Z)
    (a : ndarray) (d i : string) (bt : pystr) (ve : Q) (kw : kwargs) :
  let g := grid (model (self w)) in
  length (extent g) = 6 ->
  size a = res0 g * res1 g * res2 g ->
  valid_direction d ->
  in_range cell (res_of g (fixed_axis d)) ->
  duplicate_keyword imshow_keywords kw = None ->
  exists evs img,
    plot_data d "all" "all" 1 [] w
    = (Ok tt, {| self := self w; trace := trace w ++ evs |}) /\
    (a3 <- reshape a (res_shape g) ;; getitem a3 (section_index d cell))%res
    = Ok img /\
    plot_block_section s cell (BArr a) d i true bt ve false false kw w
    = (Ok tt,
       {| self := self w;
          trace := trace w ++ [Warn deprecation_msg] ++ evs ++
            [ Imshow (transpose img) (sd_extent (slice_descr g d cell)) i
                     (if String.eqb d "z" then 1%Q else ve)
                     (imshow_kwargs (self w) kw);
              Xlabel (fst (expected_labels d));
              Ylabel (snd (expected_labels d)) ] |}).
Proof.
  intros g Hlen Hsz Hd Hcell Hkw.
  destruct (plot_data_all_runs w d Hlen Hd) as [evs Hdata].
  assert (Hw : plot_data d "all" "all" 1 [] w
               = (Ok tt, {| self := self w; trace := trace w ++ evs |})).
  { rewrite <- (Hdata (trace w)). destruct w; reflexivity. }
  destruct (block_section_prefix w [Warn deprecation_msg] evs s cell (BArr a)
              a d i true bt ve false false kw eq_refl Hlen Hsz Hd Hcell)
    as (img & Himg & Hrun).
  { cbn [when]. rewrite Hdata, <- app_assoc. reflexivity. }
  { exact Hkw. }
  exists evs, img. split; [exact Hw|]. split; [exact Himg|].
  rewrite Hrun. cbn [when negb slice_descr sd_x sd_y].
  unfold bind, ret, emit. cbn [self trace].
  rewrite <- !app_assoc. reflexivity.
Qed.

Lemma plot_block_section_with_data_witness :
  exists evs img,
    plot_data "y" "all" "all" 1 [] ex_world
    = (Ok tt, {| self := self ex_world; trace := trace ex_world ++ evs |}) /\
    (a3 <- reshape (lith_block ex_solution) [2; 3; 4] ;;
     getitem a3 [full; Int 1; full])%res = Ok img /\
    plot_block_section ex_solution 1 (BArr (lith_block ex_solution)) "y"
      "none" true lit_lithology 2 false false
      [("hue"%string, KwStr "series")] ex_world
    = (Ok tt,
       {| self := self ex_world;
          trace := trace ex_world ++ [Warn deprecation_msg] ++ evs ++
            [ Imshow (transpose img)
                     (sd_extent (slice_descr ex_grid "y" 1)) "none" 2
                     (imshow_kwargs (self ex_world)
                        [("hue"%string, KwStr "series")]);
              Xlabel "X"; Ylabel "Z" ] |}).
Proof.
  apply (plot_block_section_with_data ex_world ex_solution 1
           (lith_block ex_solution) "y" "none" lit_lithology 2
           [("hue"%string, KwStr "series")]).
  - reflexivity.
  - reflexivity.
  - right. left. reflexivity.
  - unfold in_range. cbn. lia.
  - reflexivity.
Defined.

(** ** [plot_scalar_field]: the series *)

(** X25: with a [Solution], a [series] that is not a row of its scalar
    field matrix stops [plot_scalar_field] with an [IndexError] at once:
    nothing is drawn, not even the data, and the direction is not looked
    at. *)
Theorem plot_scalar_field_series_out_of_range (w : World) (s : Solution)
    (cell series_ix N : Z) (d : string) (p : bool) (kw : kwargs)
    (rows k : nat) :
  shape (scalar_field_matrix s) = [rows; k] ->
  ~ in_range series_ix rows ->
  plot_scalar_field (IsSolution s) cell series_ix N d p kw w
  = (Raise (IndexError "index is out of bounds for axis"), w).
Proof.
  intros Hsh Hout. unfold plot_scalar_field.
  apply bind_raise. unfold lift, getitem. rewrite Hsh.
  cbn [resolve_all tl]. rewrite (resolve_int_out _ _ Hout). reflexivity.
Qed.

Lemma plot_scalar_field_series_out_of_range_witness :
  plot_scalar_field (IsSolution ex_solution) 1 1 20 "nowhere" true []
    ex_world
  = (Raise (IndexError "index is out of bounds for axis"), ex_world).
Proof.
  apply (plot_scalar_field_series_out_of_range ex_world ex_solution 1 1 20
           "nowhere" true [] 1 24).
  - reflexivity.
  - unfold in_range. cbn. lia.
Defined.

(** ** [plot_gradient]: a negative stride *)

Lemma resolve_every_back (n : nat) (s : Z) :
  (s < 0)%Z -> resolve (every s) n = Ok (true, strided_back n s).
Proof.
  intros Hs. unfold resolve, every, slice_indices, strided_back.
  replace (s =? 0)%Z with false by (symmetry; apply Z.eqb_neq; lia).
  replace (s <? 0)%Z with true by (symmetry; apply Z.ltb_lt; lia).
  reflexivity.
Qed.

Lemma length_strided_back (n : nat) (s : Z) :
  (s < 0)%Z -> length (strided_back n s) = ceil_div n (- s).
Proof.
  intros Hs. unfold strided_back, range_list, range_len, ceil_div.
  rewrite !length_map, length_seq.
  replace (0 <? s)%Z with false by (symmetry; apply Z.ltb_ge; lia).
  replace (s <? 0)%Z with true by (symmetry; apply Z.ltb_lt; lia).
  cbn [andb]. destruct (Z.ltb_spec (-1) (Z.of_nat n - 1)) as [Hn | Hn].
  - f_equal.
    replace (Z.of_nat n + - s - 1)%Z
      with (Z.of_nat n - 1 - -1 - 1 + 1 * (- s))%Z by lia.
    rewrite Z.div_add by lia. reflexivity.
  - replace (Z.of_nat n) with 0%Z by lia.
    rewrite Z.div_small by lia. reflexivity.
Qed.

Lemma strided_back_in_bounds (n : nat) (s : Z) :
  (s < 0)%Z -> Forall (fun p => p < n) (strided_back n s).
Proof.
  intros Hs. unfold strided_back, range_list.
  apply Forall_forall. intros p Hp.
  apply in_map_iff in Hp. destruct Hp as (z & <- & Hz).
  apply in_map_iff in Hz. destruct Hz as (j & <- & Hj).
  apply in_seq in Hj.
  assert (Hpos : (0 < range_len (Z.of_nat n - 1) (-1) s)%Z) by lia.
  unfold range_len in Hpos.
  replace (0 <? s)%Z with false in Hpos by (symmetry; apply Z.ltb_ge; lia).
  cbn [andb] in Hpos.
  destruct ((s <? 0) && (-1 <? Z.of_nat n - 1))%Z eqn:E; [|lia].
  apply andb_true_iff in E. destruct E as [_ E]. apply Z.ltb_lt in E.
  assert (Z.of_nat j * s <= 0)%Z by nia.
  lia.
Qed.

(** X26: a negative [quiver_stepsize] is accepted: the cells of the free
    axes are taken from the last one backwards, every [|stride|]-th, all
    inside the grid, so each of the four arrays of the one vector field
    has the shape [ceil(R_free2 / |stride|)] by [ceil(R_free1 / |stride|)]
    (valid direction, in-range cell, arrays of the grid's size, no scalar
    field). *)
Theorem plot_gradient_negative_step (w : World) (sf : solution_arg)
    (gx gy gz : ndarray) (cell step : Z) (d : string) :
  let g := grid (model (self w)) in
  let n := res0 g * res1 g * res2 g in
  valid_direction d ->
  in_range cell (res_of g (fixed_axis d)) ->
  (step < 0)%Z ->
  size gx = n -> size gy = n -> size gz = n ->
  shape (values g) = [n; 3] ->
  exists X Y U V,
    plot_gradient sf gx gy gz cell step d false w
    = (Ok tt, {| self := self w;
                 trace := trace w ++ [Quiver X Y U V] |}) /\
    reshape_slice_T g (component gx gy gz (fst (free_axes d)))
                    (gradient_index d cell step) = Ok U /\
    reshape_slice_T g (component gx gy gz (snd (free_axes d)))
                    (gradient_index d cell step) = Ok V /\
    coord_slice_T g (Z.of_nat (fst (free_axes d)))
                  (gradient_index d cell step) = Ok X /\
    coord_slice_T g (Z.of_nat (snd (free_axes d)))
                  (gradient_index d cell step) = Ok Y /\
    shape U = quiver_shape g d (- step) /\
    shape V = quiver_shape g d (- step) /\
    shape X = quiver_shape g d (- step) /\
    shape Y = quiver_shape g d (- step) /\
    Forall (fun p => p < res_of g (fst (free_axes d)))
           (strided_back (res_of g (fst (free_axes d))) step) /\
    Forall (fun p => p < res_of g (snd (free_axes d)))
           (strided_back (res_of g (snd (free_axes d))) step).
Proof.
  intros g n Hd Hcell Hstep Hgx Hgy Hgz Hval.
  pose proof (resolve_int cell _ Hcell) as Hint.
  pose proof (fun k => resolve_every_back k step Hstep) as Hev.
  pose proof (fun k => length_strided_back k step Hstep) as Hlen.
  pose proof (fun k => strided_back_in_bounds k step Hstep) as Hin.
  unfold plot_gradient.
  rewrite (bind_ok get_model _ w w (model (self w)) eq_refl).
  fold g. cbv zeta. cbn [when].
  destruct Hd as [-> | [-> | ->]];
    cbn [String.eqb Ascii.eqb Bool.eqb fixed_axis free_axes res_of res_shape
         nth fst snd] in *;
    rewrite (bind_ok (ret tt) _ w w tt eq_refl).
  - destruct (reshape_slice_T_3d g gy _ _ _ _ _ _ Hgy Hint (Hev _) (Hev _))
      as (U & HU & HsU).
    destruct (reshape_slice_T_3d g gz _ _ _ _ _ _ Hgz Hint (Hev _) (Hev _))
      as (V & HV & HsV).
    destruct (coord_slice_T_3d g 1 _ _ _ _ _ _ Hval ltac:(lia)
                Hint (Hev _) (Hev _)) as (X & HX & HsX).
    destruct (coord_slice_T_3d g 2 _ _ _ _ _ _ Hval ltac:(lia)
                Hint (Hev _) (Hev _)) as (Y & HY & HsY).
    exists X, Y, U, V.
    rewrite (quiver_tail _ _ _ _ _ U V X Y HU HV HX HY).
    unfold quiver_shape. cbn [res_of res_shape nth].
    rewrite HsU, HsV, HsX, HsY.
    unfold kept_shape. cbn [filter fst snd map rev app].
    rewrite !Hlen. repeat split; try assumption; apply Hin.
  - destruct (reshape_slice_T_3d g gx _ _ _ _ _ _ Hgx (Hev _) Hint (Hev _))
      as (U & HU & HsU).
    destruct (reshape_slice_T_3d g gz _ _ _ _ _ _ Hgz (Hev _) Hint (Hev _))
      as (V & HV & HsV).
    destruct (coord_slice_T_3d g 0 _ _ _ _ _ _ Hval ltac:(lia)
                (Hev _) Hint (Hev _)) as (X & HX & HsX).
    destruct (coord_slice_T_3d g 2 _ _ _ _ _ _ Hval ltac:(lia)
                (Hev _) Hint (Hev _)) as (Y & HY & HsY).
    exists X, Y, U, V.
    rewrite (quiver_tail _ _ _ _ _ U V X Y HU HV HX HY).
    unfold quiver_shape. cbn [res_of res_shape nth].
    rewrite HsU, HsV, HsX, HsY.
    unfold kept_shape. cbn [filter fst snd map rev app].
    rewrite !Hlen. repeat split; try assumption; apply Hin.
  - destruct (reshape_slice_T_3d g gx _ _ _ _ _ _ Hgx (Hev _) (Hev _) Hint)
      as (U & HU & HsU).
    destruct (reshape_slice_T_3d g gy _ _ _ _ _ _ Hgy (Hev _) (Hev _) Hint)
      as (V & HV & HsV).
    destruct (coord_slice_T_3d g 0 _ _ _ _ _ _ Hval ltac:(lia)
                (Hev _) (Hev _) Hint) as (X & HX & HsX).
    destruct (coord_slice_T_3d g 1 _ _ _ _ _ _ Hval ltac:(lia)
                (Hev _) (Hev _) Hint) as (Y & HY & HsY).
    exists X, Y, U, V.
    rewrite (quiver_tail _ _ _ _ _ U V X Y HU HV HX HY).
    unfold quiver_shape. cbn [res_of res_shape nth].
    rewrite HsU, HsV, HsX, HsY.
    unfold kept_shape. cbn [filter fst snd map rev app].
    rewrite !Hlen. repeat split; try assumption; apply Hin.
Qed.

Lemma plot_gradient_negative_step_witness :
  exists X Y U V,
    plot_gradient (NotSolution (lith_block ex_solution))
      (lith_block ex_solution) (fault_blocks ex_solution)
      (lith_block ex_solution) 0 (-3) "z" false ex_world
    = (Ok tt, {| self := self ex_world;
                 trace := trace ex_world ++ [Quiver X Y U V] |}) /\
    reshape_slice_T ex_grid (lith_block ex_solution)
                    [every (-3); every (-3); Int 0] = Ok U /\
    reshape_slice_T ex_grid (fault_blocks ex_solution)
                    [every (-3); every (-3); Int 0] = Ok V /\
    coord_slice_T ex_grid 0 [every (-3); every (-3); Int 0] = Ok X /\
    coord_slice_T ex_grid 1 [every (-3); every (-3); Int 0] = Ok Y /\
    shape U = [1; 1] /\ shape V = [1; 1] /\
    shape X = [1; 1] /\ shape Y = [1; 1] /\
    Forall (fun p => p < 2) (strided_back 2 (-3)) /\
    Forall (fun p => p < 3) (strided_back 3 (-3)).
Proof.
  apply (plot_gradient_negative_step ex_world
           (NotSolution (lith_block ex_solution)) (lith_block ex_solution)
           (fault_blocks ex_solution) (lith_block ex_solution) 0 (-3) "z").
  - right. right. reflexivity.
  - unfold in_range. cbn. lia.
  - lia.
  - reflexivity.
  - reflexivity.
  - reflexivity.
  - reflexivity.
Defined.

(** The arrows come backwards: on the example, every second cell of an
    axis of four from the last one. *)
Example strided_back_example : strided_back 4 (-2) = [3; 1].
Proof. reflexivity. Qed.

(** ** The object over a session *)

(** X27: like the colour lookup, the colour map and the norm set by the
    constructor are left alone by every operation: after any sequence of
    calls, returning or raising, they are what the constructor made of the
    surfaces table. *)
Theorem color_map_and_norm_fixed (cs : list call) (m : Model)
    (tr : list event) :
  let o := self (run_all cs (__init__ m tr)) in
  let rows := surfaces_df (surfaces m) in
  _cmap o = map color rows /\
  _norm o = ((1 # 2)%Q, (inject_Z (Z.of_nat (length rows)) + (1 # 2))%Q).
Proof.
  intros o rows. unfold o. rewrite run_all_self. cbn. fold rows.
  rewrite length_map. split; reflexivity.
Qed.
